(** * Authorization of thunderbolt devices: a model of [auth.c]

    The program talks to the kernel through a handful of system calls
    (opendir, openat, open, read, write, close) and to the device manager
    through three helpers that live in other files.  The model runs the C
    functions over a [World]: the answers the environment is going to give
    to the next external calls, the value of [errno], the table of open
    descriptors and the log of every external call made so far. *)

From Stdlib Require Import ZArith List String Ascii Bool Lia.
Import ListNotations.

Local Open Scope Z_scope.

(** ** Constants of the C library *)

Definition EINTR : Z := 4.
Definition EIO : Z := 5.
Definition O_RDONLY : Z := 0.
Definition O_WRONLY : Z := 1.
Definition EXIT_SUCCESS : Z := 0.
Definition EXIT_FAILURE : Z := 1.

Definition gboolean := bool.
Definition TRUE : gboolean := true.
Definition FALSE : gboolean := false.

Definition bytes := list ascii.

(** The value of a character constant such as ['2']. *)
Definition char_code (c : ascii) : Z := Z.of_N (N_of_ascii c).

(** Conversion of an [int] to [char] (argument passing in
    [tb_write_char (fd, security, error)]). *)
Definition char_of_int (i : Z) : ascii := ascii_of_N (Z.to_N (i mod 256)).

(** [memcmp (a, b, len)]: zero when the first [len] bytes agree, else the
    difference of the first pair of bytes that differ. *)
Fixpoint memcmp (a b : bytes) (len : nat) : Z :=
  match len, a, b with
  | S len', x :: a', y :: b' =>
      if (char_code x =? char_code y) then memcmp a' b' len'
      else char_code x - char_code y
  | _, _, _ => 0
  end.

(** ** Errors *)

Inductive GIOErrorEnum :=
| G_IO_ERROR_FAILED
| g_io_error_from_errno (e : Z).

(** One constructor per message of the file. *)
Inductive Message :=
| Could_not_close_file (e : Z)
| Could_not_write_data (e : Z)
| Could_not_open_file (path : string) (e : Z)
| Could_not_read_from_file
| Could_not_read_full_uid
| Unique_id_verification_failed (buffer : bytes) (uid : string)
| Input_error_while_reading (e : Z)
| Could_not_open_key_file
| Could_not_read_entire_key
| Io_error_while_writing_key
| Could_not_open_directory
| Key_store_failure
| Device_store_failure.

Record GError := mkGError { code : GIOErrorEnum; message : Message }.

(** [g_set_error]: an error that is already set is kept. *)
Definition g_set_error (error : option GError) (c : GIOErrorEnum) (m : Message)
  : option GError :=
  match error with
  | None => Some (mkGError c m)
  | Some e => Some e
  end.

(** ** Devices and the manager *)

(** Modelled from the spec: the policy and status enumerations of
    [device.h], which is not part of the sources at hand.  The spec has the
    policies Manual and Auto ([auth.c] names [TB_POLICY_AUTO]) and five
    states. *)
Inductive TbPolicy := TB_POLICY_MANUAL | TB_POLICY_AUTO.

Inductive TbStatus :=
| Disconnected | Connected | Authorizing | Authorized | AuthError.

Definition TbPolicy_eqb (a b : TbPolicy) : bool :=
  match a, b with
  | TB_POLICY_MANUAL, TB_POLICY_MANUAL
  | TB_POLICY_AUTO, TB_POLICY_AUTO => true
  | _, _ => false
  end.

(** Modelled from the spec: the [TbDevice] structure of [device.h], which is
    not part of the sources at hand.  The uid, the path of the attribute
    directory, the policy and the status are fields of the spec's device
    record; [in_store] is what [tb_device_in_store] answers, whether the
    external store knows the device.  A [char *] that may be [NULL] is an
    [option]. *)
Record TbDevice := mkDevice {
  uid : option string;
  sysfs : option string;
  policy : TbPolicy;
  in_store : bool;
  status : TbStatus
}.

Definition GFile := string.

(** Modelled from the spec: the [TbManager] of [manager.h], which is not part
    of the sources at hand: the configured security level and the devices
    that [lookup] can find. *)
Record TbManager := mkManager {
  security_level : Z;
  devices : list TbDevice
}.

(** Modelled from the spec: the security levels as the [int] that
    [tb_manager_get_security_level] returns.  [None] is the lowest level; the
    levels [User] and [Secure] are their grant codes ['1'] and ['2'], which is
    what the comparison [security == '2'] in [tb_device_authorize] expects. *)
Definition TB_SECURITY_NONE : Z := 0.
Definition TB_SECURITY_USER : Z := char_code "1".
Definition TB_SECURITY_SECURE : Z := char_code "2".

Definition tb_manager_get_security_level (mgr : TbManager) : Z :=
  security_level mgr.

Definition tb_device_get_sysfs_path (dev : TbDevice) : option string := sysfs dev.
Definition tb_device_get_policy (dev : TbDevice) : TbPolicy := policy dev.
Definition tb_device_in_store (dev : TbDevice) : bool := in_store dev.
Definition tb_device_get_uid (dev : TbDevice) : option string := uid dev.

Definition uid_eqb (a b : option string) : bool :=
  match a, b with
  | Some x, Some y => String.eqb x y
  | _, _ => false
  end.

(** Modelled from the spec: [tb_manager_lookup] of [manager.c], which is not
    part of the sources at hand; [lookup(uid) -> Device?]. *)
Definition tb_manager_lookup (mgr : TbManager) (u : string) : option TbDevice :=
  find (fun d => uid_eqb (uid d) (Some u)) (devices mgr).

(** ** The environment *)

(** What a descriptor refers to. *)
Inductive File :=
| Dir (path : string)
| Attr (dir : string) (name : string)
| Path (path : string).

Record DIR := mkDIR { dirfd : Z; dirname : string }.

(** What the environment hands back to one external call.  Every call reads
    the fields that concern it: a negative [ans_ret] makes a system call fail
    with [ans_errno]; otherwise [ans_ret] is the descriptor an open call is
    about to get or the number of bytes a write takes, and [ans_data] is what
    a read finds in the file.  [ans_key] and [ans_created] answer
    [tb_manager_ensure_key]. *)
Record Answer := mkAnswer {
  ans_ret : Z;
  ans_errno : Z;
  ans_data : bytes;
  ans_key : option GFile;
  ans_created : bool
}.

(** Past the end of the script every call fails with [EIO]. *)
Definition exhausted : Answer := mkAnswer (-1) EIO [] None false.

Inductive Stream := Stdout | Stderr.

Inductive Text :=
| Failed_to_parse
| Need_device_id
| Could_not_find_device
| Could_not_authorize (m : Message) (c : GIOErrorEnum)
| Could_not_store (m : Message)
| Not_in_store (u : option string)
| Not_setup_for_auto (u : option string).

(** The log has one entry per external call, oldest first.  [file] is what the
    descriptor referred to when the call was made, [err] the value of [errno]
    after the call. *)
Inductive Event :=
| EvOpendir (path : string) (r : Z)
| EvClosedir (fd : Z)
| EvOpen (f : File) (oflag : Z) (r : Z)
| EvRead (fd : Z) (file : option File) (nbyte : nat) (r : Z) (err : Z) (data : bytes)
| EvWrite (fd : Z) (file : option File) (data : bytes) (r : Z) (err : Z)
| EvClose (fd : Z) (file : option File) (r : Z)
| EvEnsureKey (u : option string) (replace : bool) (key : option GFile) (created : bool)
| EvStore (dev : TbDevice) (ok : bool)
| EvPrint (s : Stream) (t : Text).

Record World := mkWorld {
  script : list Answer;
  errno : Z;
  fds : list (Z * File);
  trace : list Event
}.

Definition answer (w : World) : Answer := hd exhausted (script w).

(** One external call: the answer is consumed, the call is logged. *)
Definition step (e : Z) (t : list (Z * File)) (ev : Event) (w : World) : World :=
  mkWorld (tl (script w)) e t (trace w ++ [ev]).

(** A call that asks nothing of the environment (printing). *)
Definition emit (ev : Event) (w : World) : World :=
  mkWorld (script w) (errno w) (fds w) (trace w ++ [ev]).

Definition failed (a : Answer) : bool := ans_ret a <? 0.

(** [errno] values are positive. *)
Definition errno_of (a : Answer) : Z :=
  if 0 <? ans_errno a then ans_errno a else EIO.

(** *** The descriptor table *)

Definition fd_in_use (fd : Z) (t : list (Z * File)) : bool :=
  existsb (fun e => fst e =? fd) t.

Definition top_fd (t : list (Z * File)) : Z :=
  fold_right (fun e m => Z.max (fst e) m) 2 t.

(** The environment proposes the number of a new descriptor; a number that is
    still in use is never handed out, the kernel then takes the one above
    every descriptor in use. *)
Definition alloc_fd (want : Z) (t : list (Z * File)) : Z :=
  if fd_in_use want t then top_fd t + 1 else want.

Fixpoint file_of (fd : Z) (t : list (Z * File)) : option File :=
  match t with
  | [] => None
  | (fd', f) :: t' => if fd' =? fd then Some f else file_of fd t'
  end.

Fixpoint release (fd : Z) (t : list (Z * File)) : list (Z * File) :=
  match t with
  | [] => []
  | (fd', f) :: t' => if fd' =? fd then t' else (fd', f) :: release fd t'
  end.

(** *** System calls *)

Definition sys_opendir (path : string) (w : World) : option DIR * World :=
  let a := answer w in
  if failed a then
    (None, step (errno_of a) (fds w) (EvOpendir path (-1)) w)
  else
    let fd := alloc_fd (ans_ret a) (fds w) in
    (Some (mkDIR fd path),
     step (errno w) ((fd, Dir path) :: fds w) (EvOpendir path fd) w).

Definition sys_closedir (d : DIR) (w : World) : World :=
  let a := answer w in
  step (if failed a then errno_of a else errno w)
       (release (dirfd d) (fds w)) (EvClosedir (dirfd d)) w.

Definition sys_open (f : File) (oflag : Z) (w : World) : Z * World :=
  let a := answer w in
  if failed a then
    (-1, step (errno_of a) (fds w) (EvOpen f oflag (-1)) w)
  else
    let fd := alloc_fd (ans_ret a) (fds w) in
    (fd, step (errno w) ((fd, f) :: fds w) (EvOpen f oflag fd) w).

(** [read] hands over at most [nbyte] bytes of what the file holds. *)
Definition sys_read (fd : Z) (nbyte : nat) (w : World) : Z * bytes * World :=
  let a := answer w in
  if failed a then
    (-1, [],
     step (errno_of a) (fds w)
          (EvRead fd (file_of fd (fds w)) nbyte (-1) (errno_of a) []) w)
  else
    let data := firstn nbyte (ans_data a) in
    let n := Z.of_nat (List.length data) in
    (n, data,
     step (errno w) (fds w)
          (EvRead fd (file_of fd (fds w)) nbyte n (errno w) data) w).

(** [write] takes at most the bytes it is given. *)
Definition sys_write (fd : Z) (buf : bytes) (w : World) : Z * World :=
  let a := answer w in
  if failed a then
    (-1, step (errno_of a) (fds w)
              (EvWrite fd (file_of fd (fds w)) buf (-1) (errno_of a)) w)
  else
    let k := Z.min (ans_ret a) (Z.of_nat (List.length buf)) in
    (k, step (errno w) (fds w)
             (EvWrite fd (file_of fd (fds w)) buf k (errno w)) w).

(** [close] releases the descriptor whatever it reports. *)
Definition sys_close (fd : Z) (w : World) : Z * World :=
  let a := answer w in
  let r := if failed a then -1 else 0 in
  (r, step (if failed a then errno_of a else errno w)
           (release fd (fds w)) (EvClose fd (file_of fd (fds w)) r) w).

(** *** The manager's helpers *)

(** Modelled from the spec: [tb_manager_ensure_key] of [manager.c], which is
    not part of the sources at hand.  It hands back the key file of the
    device and tells whether it has just been created, or fails. *)
Definition tb_manager_ensure_key (mgr : TbManager) (dev : TbDevice)
  (replace : bool) (created : bool) (error : option GError) (w : World)
  : option GFile * bool * option GError * World :=
  let a := answer w in
  match ans_key a with
  | None =>
      (None, created,
       g_set_error error G_IO_ERROR_FAILED Key_store_failure,
       step (errno w) (fds w) (EvEnsureKey (uid dev) replace None created) w)
  | Some k =>
      (Some k, ans_created a, error,
       step (errno w) (fds w)
            (EvEnsureKey (uid dev) replace (Some k) (ans_created a)) w)
  end.

(** Modelled from the spec: [tb_manager_store] of [manager.c], which is not
    part of the sources at hand; [store(device) -> Result]. *)
Definition tb_manager_store (mgr : TbManager) (dev : TbDevice)
  (error : option GError) (w : World) : gboolean * option GError * World :=
  let a := answer w in
  if failed a then
    (FALSE, g_set_error error G_IO_ERROR_FAILED Device_store_failure,
     step (errno w) (fds w) (EvStore dev false) w)
  else
    (TRUE, error, step (errno w) (fds w) (EvStore dev true) w).

Definition g_print (t : Text) (w : World) : World := emit (EvPrint Stdout t) w.
Definition g_printerr (t : Text) (w : World) : World := emit (EvPrint Stderr t) w.

(** ** The functions of [auth.c] *)

(** A call returns, or the process is stopped on the spot ([g_assert], or a
    [NULL] error that is dereferenced). *)
Inductive Outcome (A : Type) :=
| Returned (a : A) (w : World)
| Aborted (w : World).

Arguments Returned {A} a w.
Arguments Aborted {A} w.

Definition tb_close (fd : Z) (error : option GError) (w : World)
  : gboolean * option GError * World :=
  let '(r, w) := sys_close fd w in
  if r =? 0 then (TRUE, error, w)
  else
    (FALSE,
     g_set_error error (g_io_error_from_errno (errno w))
                 (Could_not_close_file (errno w)),
     w).

(** The [retry:] loop of [tb_write_char].  Every turn consumes one answer of
    the script and only an answer of the script can be [EINTR], so
    [tb_write_char] gives the loop one turn more than the script is long:
    the case [O] is not reached and more fuel would change nothing
    ([tb_write_char_retry_fuel]). *)
Fixpoint tb_write_char_retry (fuel : nat) (fd : Z) (data : ascii)
  (error : option GError) (w : World) : gboolean * option GError * World :=
  match fuel with
  | O => (FALSE, error, w)
  | S fuel' =>
      let '(n, w1) := sys_write fd [data] w in
      if n =? -1 then
        let errsv := errno w1 in
        if errsv =? EINTR then tb_write_char_retry fuel' fd data error w1
        else
          (0 <? n,
           g_set_error error (g_io_error_from_errno errsv)
                       (Could_not_write_data (errno w1)),
           w1)
      else (0 <? n, error, w1)
  end.

Definition tb_write_char (fd : Z) (data : ascii) (error : option GError)
  (w : World) : gboolean * option GError * World :=
  tb_write_char_retry (S (List.length (script w))) fd data error w.

Definition tb_openat (d : DIR) (path : string) (oflag : Z)
  (error : option GError) (w : World) : Z * option GError * World :=
  let '(fd, w) := sys_open (Attr (dirname d) path) oflag w in
  if fd <? 0 then
    (fd,
     g_set_error error (g_io_error_from_errno (errno w))
                 (Could_not_open_file path (errno w)),
     w)
  else (fd, error, w).

(** The [retry:] loop of [tb_verify_uid]; fuel as in [tb_write_char_retry]. *)
Fixpoint tb_verify_uid_retry (fuel : nat) (fd : Z) (uid : string)
  (error : option GError) (w : World) : gboolean * option GError * World :=
  let len := String.length uid in
  match fuel with
  | O => (FALSE, error, w)
  | S fuel' =>
      let '(n, buffer, w1) := sys_read fd len w in
      if n <? 0 then
        if errno w1 =? EINTR then tb_verify_uid_retry fuel' fd uid error w1
        else
          (FALSE,
           g_set_error error (g_io_error_from_errno (errno w1))
                       Could_not_read_from_file,
           w1)
      else if negb (Z.of_nat len =? n) then
        (FALSE, g_set_error error G_IO_ERROR_FAILED Could_not_read_full_uid, w1)
      else if negb (memcmp buffer (list_ascii_of_string uid) len =? 0) then
        (FALSE,
         g_set_error error G_IO_ERROR_FAILED
                     (Unique_id_verification_failed buffer uid),
         w1)
      else (TRUE, error, w1)
  end.

Definition tb_verify_uid (fd : Z) (uid : string) (error : option GError)
  (w : World) : gboolean * option GError * World :=
  tb_verify_uid_retry (S (List.length (script w))) fd uid error w.

(** Storing [data] at [buffer + ptr]. *)
Definition blit (buffer : bytes) (ptr : nat) (data : bytes) : bytes :=
  firstn ptr buffer ++ data ++ skipn (ptr + List.length data) buffer.

(** The [do ... while (nbyte > 0)] loop of [tb_read_all]; [continue] jumps to
    the test of the loop.  Fuel as in [tb_write_char_retry]. *)
Fixpoint tb_read_all_loop (fuel : nat) (fd : Z) (buffer : bytes) (ptr : nat)
  (nread : Z) (nbyte : nat) (error : option GError) (w : World)
  : Z * bytes * option GError * World :=
  match fuel with
  | O => (nread, buffer, error, w)
  | S fuel' =>
      let '(n, data, w1) := sys_read fd nbyte w in
      if n <? 0 then
        let errsv := errno w1 in
        if errsv =? EINTR then
          if (0 <? nbyte)%nat then
            tb_read_all_loop fuel' fd buffer ptr nread nbyte error w1
          else (nread, buffer, error, w1)
        else
          (if 0 <? n then n else - errsv,
           buffer,
           g_set_error error (g_io_error_from_errno errsv)
                       (Input_error_while_reading errsv),
           w1)
      else if n =? 0 then (nread, buffer, error, w1)
      else
        let buffer := blit buffer ptr data in
        let ptr := (ptr + Z.to_nat n)%nat in
        let nread := nread + n in
        let nbyte := (nbyte - Z.to_nat n)%nat in
        if (0 <? nbyte)%nat then
          tb_read_all_loop fuel' fd buffer ptr nread nbyte error w1
        else (nread, buffer, error, w1)
  end.

Definition tb_read_all (fd : Z) (buffer : bytes) (nbyte : nat)
  (error : option GError) (w : World) : Z * bytes * option GError * World :=
  tb_read_all_loop (S (List.length (script w))) fd buffer 0 0 nbyte error w.

(** The [do k = write (...) while (k < 0 && errno == EINTR)] loop of
    [copy_key]; fuel as in [tb_write_char_retry]. *)
Fixpoint copy_key_write (fuel : nat) (to : Z) (buffer : bytes) (w : World)
  : Z * World :=
  match fuel with
  | O => (-1, w)
  | S fuel' =>
      let '(k, w1) := sys_write to buffer w in
      if (k <? 0) && (errno w1 =? EINTR) then copy_key_write fuel' to buffer w1
      else (k, w1)
  end.

Section Auth.

(** The length of a key, a macro of [store.h], which is not part of the
    sources at hand. *)
Variable TB_KEY_CHARS : nat.

Definition copy_key (key : GFile) (to : Z) (error : option GError) (w : World)
  : gboolean * option GError * World :=
  let buffer := repeat zero TB_KEY_CHARS in
  let path := key in
  let '(from, w) := sys_open (Path path) O_RDONLY w in
  if from <? 0 then
    (FALSE,
     g_set_error error (g_io_error_from_errno (errno w)) Could_not_open_key_file,
     w)
  else
    let '(n, buffer, error, w) := tb_read_all from buffer TB_KEY_CHARS error w in
    if n <? 0 then (FALSE, error, w)
    else if negb (n =? Z.of_nat TB_KEY_CHARS) then
      (FALSE, g_set_error error G_IO_ERROR_FAILED Could_not_read_entire_key, w)
    else
      let '(k, w) :=
        copy_key_write (S (List.length (script w))) to
                       (firstn (Z.to_nat n) buffer) w in
      if negb (k =? n) then
        (FALSE,
         g_set_error error (g_io_error_from_errno (errno w))
                     Io_error_while_writing_key,
         w)
      else (TRUE, error, w).

(** Lines 306 to 318 of [tb_device_authorize]: the grant. *)
Definition write_grant (d : DIR) (security : Z) (error : option GError)
  (w : World) : gboolean * option GError * World :=
  let '(fd, error, w) := tb_openat d "authorized" O_WRONLY error w in
  if fd <? 0 then (FALSE, error, w)
  else
    let '(ok, error, w) := tb_write_char fd (char_of_int security) error w in
    if negb ok then
      let '(_, w) := sys_close fd w in
      (FALSE, error, w)
    else tb_close fd error w.

(** Lines 262 to 318 of [tb_device_authorize]: what happens while the
    directory [d] is open. *)
Definition authorize_in_dir (mgr : TbManager) (dev : TbDevice) (u : string)
  (security : Z) (d : DIR) (error : option GError) (w : World)
  : gboolean * option GError * World :=
  let '(fd, error, w) := tb_openat d "unique_id" O_RDONLY error w in
  if fd <? 0 then (FALSE, error, w)
  else
    let '(ok, error, w) := tb_verify_uid fd u error w in
    if negb ok then
      let '(_, w) := sys_close fd w in
      (FALSE, error, w)
    else
      let '(_, w) := sys_close fd w in
      if security =? char_code "2" then
        let '(key, created, error, w) :=
          tb_manager_ensure_key mgr dev FALSE FALSE error w in
        match key with
        | None => (FALSE, error, w)
        | Some key =>
            let '(keyfd, error, w) := tb_openat d "key" O_WRONLY error w in
            if keyfd <? 0 then (FALSE, error, w)
            else
              let '(ok, error, w) := copy_key key keyfd error w in
              if negb ok then
                let '(_, w) := sys_close fd w in
                (FALSE, error, w)
              else
                let '(ok, error, w) := tb_close keyfd error w in
                if negb ok then (FALSE, error, w)
                else
                  let security :=
                    if created then char_code "1" else security in
                  write_grant d security error w
        end
      else write_grant d security error w.

(** [tb_device_authorize].  Both callers pass a device they have just looked
    up, so [dev] is a record; the directory is closed by the cleanup of
    [g_autoptr(DIR)] on every way out of its scope.  The result carries the
    device as the call leaves it. *)
Definition tb_device_authorize (mgr : TbManager) (dev : TbDevice)
  (error : option GError) (w : World)
  : Outcome (gboolean * TbDevice * option GError) :=
  match uid dev with
  | None => Returned (FALSE, dev, error) w
  | Some u =>
      let security := tb_manager_get_security_level mgr in
      if security <? 1 then Returned (TRUE, dev, error) w
      else
        match tb_device_get_sysfs_path dev with
        | None => Aborted w
        | Some sysfs =>
            let '(d, w) := sys_opendir sysfs w in
            match d with
            | None =>
                Returned
                  (FALSE, dev,
                   g_set_error error (g_io_error_from_errno (errno w))
                               Could_not_open_directory)
                  w
            | Some d =>
                let '(ok, error, w) :=
                  authorize_in_dir mgr dev u security d error w in
                Returned (ok, dev, error) (sys_closedir d w)
            end
        end
  end.

End Auth.

(** ** The commands *)

Definition g_object_set_policy (dev : TbDevice) (p : TbPolicy) : TbDevice :=
  mkDevice (uid dev) (sysfs dev) p (in_store dev) (status dev).

Section Commands.

(** [g_option_context_parse] of GLib: given whether [authorize_opts] are
    registered and the arguments, it fails or hands back the arguments that
    are left and whether [--store] and [--auto] were seen. *)
Variable g_option_context_parse :
  bool -> list string -> option (list string * (bool * bool)).

(** The authorization engine the commands call; it is [tb_device_authorize]
    in [authorize_device] and [auto_device] below. *)
Variable engine :
  TbManager -> TbDevice -> option GError -> World ->
  Outcome (gboolean * TbDevice * option GError).

(** [authorize_device]; [do_store] and [do_auto] are the values of the two
    static flags on entry.  The result carries the exit status and the device
    as the command leaves it. *)
Definition authorize_device_with (mgr : TbManager) (do_store do_auto : gboolean)
  (argv : list string) (w : World) : Outcome (Z * option TbDevice) :=
  match g_option_context_parse true argv with
  | None => Returned (EXIT_FAILURE, None) (g_printerr Failed_to_parse w)
  | Some (argv, (seen_store, seen_auto)) =>
      let do_store := do_store || seen_store in
      let do_auto := do_auto || seen_auto in
      if (List.length argv <? 2)%nat then
        Returned (EXIT_FAILURE, None) (g_printerr Need_device_id w)
      else
        let uid := nth 1 argv EmptyString in
        match tb_manager_lookup mgr uid with
        | None =>
            Returned (EXIT_FAILURE, None) (g_printerr Could_not_find_device w)
        | Some dev =>
            match engine mgr dev None w with
            | Aborted w => Aborted w
            | Returned (ok, dev, error) w =>
                if negb ok then
                  match error with
                  | None => Aborted w
                  | Some e =>
                      Returned
                        (EXIT_FAILURE, Some dev)
                        (g_printerr (Could_not_authorize (message e) (code e)) w)
                  end
                else
                  let '(do_store, dev) :=
                    if do_auto then (TRUE, g_object_set_policy dev TB_POLICY_AUTO)
                    else (do_store, dev) in
                  if do_store then
                    let '(ok, error, w) := tb_manager_store mgr dev error w in
                    if negb ok then
                      match error with
                      | None => Aborted w
                      | Some e =>
                          Returned (EXIT_FAILURE, Some dev)
                                   (emit (EvPrint Stderr (Could_not_store (message e))) w)
                      end
                    else Returned (EXIT_SUCCESS, Some dev) w
                  else Returned (EXIT_SUCCESS, Some dev) w
            end
        end
  end.

(** [auto_device]. *)
Definition auto_device_with (mgr : TbManager) (argv : list string) (w : World)
  : Outcome (Z * option TbDevice) :=
  match g_option_context_parse false argv with
  | None => Returned (EXIT_FAILURE, None) (g_printerr Failed_to_parse w)
  | Some (argv, _) =>
      if (List.length argv <? 2)%nat then
        Returned (EXIT_FAILURE, None) (g_printerr Need_device_id w)
      else
        let uid := nth 1 argv EmptyString in
        match tb_manager_lookup mgr uid with
        | None =>
            Returned (EXIT_FAILURE, None) (g_printerr Could_not_find_device w)
        | Some dev =>
            if negb (tb_device_in_store dev) then
              Returned (EXIT_SUCCESS, Some dev)
                       (g_print (Not_in_store (tb_device_get_uid dev)) w)
            else if negb (TbPolicy_eqb (tb_device_get_policy dev) TB_POLICY_AUTO) then
              Returned (EXIT_SUCCESS, Some dev)
                       (g_print (Not_setup_for_auto (tb_device_get_uid dev)) w)
            else
              match engine mgr dev None w with
              | Aborted w => Aborted w
              | Returned (ok, dev, error) w =>
                  if negb ok then
                    match error with
                    | None => Aborted w
                    | Some e =>
                        Returned
                          (EXIT_FAILURE, Some dev)
                          (g_printerr (Could_not_authorize (message e) (code e)) w)
                    end
                  else Returned (EXIT_SUCCESS, Some dev) w
              end
        end
  end.

End Commands.

Definition authorize_device (TB_KEY_CHARS : nat)
  (parse : bool -> list string -> option (list string * (bool * bool))) :=
  authorize_device_with parse (tb_device_authorize TB_KEY_CHARS).

Definition auto_device (TB_KEY_CHARS : nat)
  (parse : bool -> list string -> option (list string * (bool * bool))) :=
  auto_device_with parse (tb_device_authorize TB_KEY_CHARS).

(** ** What a run logs

    The properties below are about the log of a run.  These are the kinds of
    events they speak of, and the ways the functions can go: what each one
    logs and what it returns. *)

Definition interrupted_read (fd : Z) (f : option File) (nbyte : nat) : Event :=
  EvRead fd f nbyte (-1) EINTR [].

Definition interrupted_write (fd : Z) (f : option File) (buf : bytes) : Event :=
  EvWrite fd f buf (-1) EINTR.

(** The number of bytes the reads of a log have delivered. *)
Definition bytes_read (evs : list Event) : Z :=
  fold_right
    (fun ev acc =>
       match ev with
       | EvRead _ _ _ _ _ d => Z.of_nat (List.length d) + acc
       | _ => acc
       end) 0 evs.

Definition is_read_of (fd : Z) (f : option File) (ev : Event) : Prop :=
  match ev with
  | EvRead fd' f' _ _ _ _ => fd' = fd /\ f' = f
  | _ => False
  end.

Definition is_write (ev : Event) : bool :=
  match ev with
  | EvWrite _ _ _ _ _ => true
  | _ => false
  end.

Definition opens_attr (name : string) (ev : Event) : bool :=
  match ev with
  | EvOpen (Attr _ n) _ _ => String.eqb n name
  | _ => false
  end.

Definition writes_attr (name : string) (ev : Event) : bool :=
  match ev with
  | EvWrite _ (Some (Attr _ n)) _ _ _ => String.eqb n name
  | _ => false
  end.

Definition no_grant_write (ev : Event) : Prop :=
  writes_attr "authorized" ev = false.

(** What can be logged once the key file is known, or the grant begun. *)
Inductive late_event (dir : string) : Event -> Prop :=
| late_open_key fl fd : late_event dir (EvOpen (Attr dir "key") fl fd)
| late_open_authorized fl fd :
    late_event dir (EvOpen (Attr dir "authorized") fl fd)
| late_open_path p fl fd : late_event dir (EvOpen (Path p) fl fd)
| late_read fd p n r e d : late_event dir (EvRead fd (Some (Path p)) n r e d)
| late_write_key fd b r e :
    late_event dir (EvWrite fd (Some (Attr dir "key")) b r e)
| late_write_authorized fd b r e :
    late_event dir (EvWrite fd (Some (Attr dir "authorized")) b r e)
| late_close fd f c : late_event dir (EvClose fd f c).

(** The ways lines 306 to 318 can go: what is logged, what is returned. *)
Definition grant_run (dir : string) (security : Z) (error : option GError)
  (evs : list Event) (ok : gboolean) (err : option GError) : Prop :=
  let A := Attr dir "authorized" in
  (exists e,
      evs = [EvOpen A O_WRONLY (-1)] /\ ok = FALSE
      /\ err = g_set_error error (g_io_error_from_errno e)
                           (Could_not_open_file "authorized" e))
  \/ (exists fd j r e c,
         0 <= fd
         /\ evs = EvOpen A O_WRONLY fd
                  :: repeat (interrupted_write fd (Some A) [char_of_int security]) j
                  ++ [EvWrite fd (Some A) [char_of_int security] r e;
                      EvClose fd (Some A) c]
         /\ ((r = -1 /\ e <> EINTR /\ ok = FALSE
              /\ err = g_set_error error (g_io_error_from_errno e)
                                   (Could_not_write_data e))
             \/ (r = 0 /\ ok = FALSE /\ err = error)
             \/ (r = 1 /\ c = -1 /\ ok = FALSE
                 /\ exists e',
                   err = g_set_error error (g_io_error_from_errno e')
                                     (Could_not_close_file e'))
             \/ (r = 1 /\ c = 0 /\ ok = TRUE /\ err = error))).

Section Runs.

Variable TB_KEY_CHARS : nat.

(** The ways [copy_key] can go when [to] refers to [tag]. *)
Definition copy_run (key : GFile) (to : Z) (tag : option File)
  (error : option GError) (evs : list Event) (ok : gboolean)
  (err : option GError) : Prop :=
  exists from reads writes,
    evs = EvOpen (Path key) O_RDONLY from :: reads ++ writes
    /\ Forall (is_read_of from (Some (Path key))) reads
    /\ bytes_read reads <= Z.of_nat TB_KEY_CHARS
    /\ ((from = -1 /\ reads = [] /\ writes = [] /\ ok = FALSE
         /\ exists e,
           err = g_set_error error (g_io_error_from_errno e)
                             Could_not_open_key_file)
        \/ (0 <= from /\ writes = [] /\ ok = FALSE
            /\ ((exists e,
                   err = g_set_error error (g_io_error_from_errno e)
                                     (Input_error_while_reading e))
                \/ (bytes_read reads < Z.of_nat TB_KEY_CHARS
                    /\ err = g_set_error error G_IO_ERROR_FAILED
                                         Could_not_read_entire_key)))
        \/ (0 <= from /\ bytes_read reads = Z.of_nat TB_KEY_CHARS
            /\ exists j buf r e,
              List.length buf = TB_KEY_CHARS
              /\ writes = repeat (interrupted_write to tag buf) j
                          ++ [EvWrite to tag buf r e]
              /\ -1 <= r <= Z.of_nat TB_KEY_CHARS
              /\ (r = -1 -> e <> EINTR)
              /\ ((r = Z.of_nat TB_KEY_CHARS /\ ok = TRUE /\ err = error)
                  \/ (r <> Z.of_nat TB_KEY_CHARS /\ ok = FALSE
                      /\ err = g_set_error error (g_io_error_from_errno e)
                                           Io_error_while_writing_key)))).

(** The ways lines 287 to 318 can go once the key file [kf] is known; [fd] is
    the descriptor [unique_id] was read through. *)
Definition provision_run (dir : string) (security fd : Z) (kf : GFile)
  (created : bool) (error : option GError) (evs : list Event) (ok : gboolean)
  (err : option GError) : Prop :=
  let K := Attr dir "key" in
  (exists e,
      evs = [EvOpen K O_WRONLY (-1)] /\ ok = FALSE
      /\ err = g_set_error error (g_io_error_from_errno e)
                           (Could_not_open_file "key" e))
  \/ (exists keyfd cevs okc errc rest,
         0 <= keyfd
         /\ evs = EvOpen K O_WRONLY keyfd :: cevs ++ rest
         /\ copy_run kf keyfd (Some K) error cevs okc errc
         /\ ((okc = FALSE /\ ok = FALSE /\ err = errc
              /\ exists stale c, rest = [EvClose fd stale c])
             \/ (okc = TRUE
                 /\ exists c rest2,
                   rest = EvClose keyfd (Some K) c :: rest2
                   /\ ((c = -1 /\ rest2 = [] /\ ok = FALSE
                        /\ exists e,
                          err = g_set_error errc (g_io_error_from_errno e)
                                            (Could_not_close_file e))
                       \/ (c = 0
                           /\ grant_run dir
                                (if created then char_code "1" else security)
                                errc rest2 ok err))))).

(** The ways lines 278 to 318 can go. *)
Definition after_verify (dev : TbDevice) (dir : string) (security fd : Z)
  (error : option GError) (evs : list Event) (ok : gboolean)
  (err : option GError) : Prop :=
  (security <> char_code "2" /\ grant_run dir security error evs ok err)
  \/ (security = char_code "2"
      /\ exists key created rest,
        evs = EvEnsureKey (uid dev) FALSE key created :: rest
        /\ ((key = None /\ rest = [] /\ ok = FALSE
             /\ err = g_set_error error G_IO_ERROR_FAILED Key_store_failure)
            \/ (exists kf,
                   key = Some kf
                   /\ provision_run dir security fd kf created error rest ok err))).

(** The ways lines 262 to 318 can go. *)
Definition authorize_run (dev : TbDevice) (u : string) (dir : string)
  (security : Z) (error : option GError) (evs : list Event) (ok : gboolean)
  (err : option GError) : Prop :=
  let U := Attr dir "unique_id" in
  (exists e,
      evs = [EvOpen U O_RDONLY (-1)] /\ ok = FALSE
      /\ err = g_set_error error (g_io_error_from_errno e)
                           (Could_not_open_file "unique_id" e))
  \/ (exists fd k r e data c rest,
         0 <= fd
         /\ evs = EvOpen U O_RDONLY fd
                  :: repeat (interrupted_read fd (Some U) (String.length u)) k
                  ++ EvRead fd (Some U) (String.length u) r e data
                  :: EvClose fd (Some U) c :: rest
         /\ ((r = -1 /\ e <> EINTR /\ rest = [] /\ ok = FALSE
              /\ err = g_set_error error (g_io_error_from_errno e)
                                   Could_not_read_from_file)
             \/ (0 <= r /\ data <> list_ascii_of_string u /\ rest = []
                 /\ ok = FALSE
                 /\ (err = g_set_error error G_IO_ERROR_FAILED
                                       Could_not_read_full_uid
                     \/ err = g_set_error error G_IO_ERROR_FAILED
                                (Unique_id_verification_failed data u)))
             \/ (0 <= r /\ data = list_ascii_of_string u
                 /\ after_verify dev dir security fd error rest ok err))).

(** The ways [tb_device_authorize] can go for a device that has a uid. *)
Definition device_run (dev : TbDevice) (u : string) (security : Z)
  (error : option GError) (evs : list Event) (ok : gboolean)
  (err : option GError) : Prop :=
  (security < 1 /\ evs = [] /\ ok = TRUE /\ err = error)
  \/ (1 <= security
      /\ exists dir,
        sysfs dev = Some dir
        /\ ((evs = [EvOpendir dir (-1)] /\ ok = FALSE
             /\ exists e,
               err = g_set_error error (g_io_error_from_errno e)
                                 Could_not_open_directory)
            \/ (exists dfd body,
                   0 <= dfd
                   /\ evs = EvOpendir dir dfd :: body ++ [EvClosedir dfd]
                   /\ authorize_run dev u dir security error body ok err))).

(** A log in which no write to [authorized] comes before a write of a whole
    key to [key] and the faultless close of that descriptor. *)
Definition keyed (dir : string) (evs : list Event) : Prop :=
  Forall no_grant_write evs
  \/ exists head keyfd buf e rest,
      evs = head
            ++ EvWrite keyfd (Some (Attr dir "key")) buf (Z.of_nat TB_KEY_CHARS) e
            :: EvClose keyfd (Some (Attr dir "key")) 0 :: rest
      /\ List.length buf = TB_KEY_CHARS
      /\ Forall no_grant_write head.

End Runs.

(** Whether two byte strings are the same. *)
Definition bytes_eqb (a b : bytes) : bool :=
  if list_eq_dec ascii_dec a b then true else false.

(** Whether the call an event logs is one that makes a run of
    [tb_device_authorize] for the uid [u] fail: an open that fails; a read
    or a write in error, other than an interrupted one; a read of
    [unique_id] that delivers something else than the uid; a read of the
    key file that finds its end; a write that does not take all it is
    given; a close that fails, unless it is the [close] of [unique_id],
    whose result is not looked at; a key store that has no key. *)
Definition step_failed (u : string) (ev : Event) : bool :=
  match ev with
  | EvOpendir _ r => r <? 0
  | EvOpen _ _ r => r <? 0
  | EvRead _ (Some (Attr _ _)) _ r e data =>
      if r <? 0 then negb (e =? EINTR)
      else negb (bytes_eqb data (list_ascii_of_string u))
  | EvRead _ _ nbyte r e _ =>
      if r <? 0 then negb (e =? EINTR) else (r =? 0) && (0 <? nbyte)%nat
  | EvWrite _ _ buf r e =>
      if r <? 0 then negb (e =? EINTR)
      else negb (r =? Z.of_nat (List.length buf))
  | EvClose _ (Some (Attr _ n)) r => (r <? 0) && negb (String.eqb n "unique_id")
  | EvEnsureKey _ _ None _ => true
  | _ => false
  end.

(** The error [auth.c] sets when the call that [ev] logs has failed; [a] is
    the answer of the environment to that call, which holds the [errno] of
    the calls whose event does not.  A write to [authorized] that takes no
    byte sets none. *)
Definition step_error (u : string) (a : Answer) (ev : Event) : option GError :=
  let e := errno_of a in
  match ev with
  | EvOpendir _ _ =>
      Some (mkGError (g_io_error_from_errno e) Could_not_open_directory)
  | EvOpen (Attr _ n) _ _ =>
      Some (mkGError (g_io_error_from_errno e) (Could_not_open_file n e))
  | EvOpen _ _ _ =>
      Some (mkGError (g_io_error_from_errno e) Could_not_open_key_file)
  | EvRead _ (Some (Attr _ _)) len r e' data =>
      Some (if r <? 0 then
              mkGError (g_io_error_from_errno e') Could_not_read_from_file
            else if negb (Z.of_nat len =? r) then
              mkGError G_IO_ERROR_FAILED Could_not_read_full_uid
            else
              mkGError G_IO_ERROR_FAILED (Unique_id_verification_failed data u))
  | EvRead _ _ _ r e' _ =>
      Some (if r <? 0 then
              mkGError (g_io_error_from_errno e') (Input_error_while_reading e')
            else mkGError G_IO_ERROR_FAILED Could_not_read_entire_key)
  | EvWrite _ (Some (Attr _ n)) _ r e' =>
      if String.eqb n "authorized" then
        if r <? 0 then
          Some (mkGError (g_io_error_from_errno e') (Could_not_write_data e'))
        else None
      else Some (mkGError (g_io_error_from_errno e') Io_error_while_writing_key)
  | EvWrite _ _ _ _ e' =>
      Some (mkGError (g_io_error_from_errno e') Io_error_while_writing_key)
  | EvClose _ _ _ =>
      Some (mkGError (g_io_error_from_errno e) (Could_not_close_file e))
  | EvEnsureKey _ _ _ _ => Some (mkGError G_IO_ERROR_FAILED Key_store_failure)
  | _ => None
  end.

(** The first call of a log that has failed, with its place in the log. *)
Fixpoint first_failed (u : string) (evs : list Event) : option (nat * Event) :=
  match evs with
  | [] => None
  | ev :: evs' =>
      if step_failed u ev then Some (0%nat, ev)
      else option_map (fun p => (S (fst p), snd p)) (first_failed u evs')
  end.



Definition outcome_world {A} (o : Outcome A) : World :=
  match o with
  | Returned _ w => w
  | Aborted w => w
  end.

(** The process ends with a status other than success. *)
Definition ends_in_failure {A} (o : Outcome (Z * A)) : Prop :=
  match o with
  | Returned (st, _) _ => st = EXIT_FAILURE
  | Aborted _ => True
  end.

Definition device_left (o : Outcome (Z * option TbDevice)) : option TbDevice :=
  match o with
  | Returned (_, d) _ => d
  | Aborted _ => None
  end.

(** ** Scenarios

    Concrete devices, managers and environments on which the model is run. *)

Module Scenario.

Local Open Scope string_scope.

(** Answers of the environment: a call that succeeds, a call that fails with
    an [errno], a read that finds bytes, the answer of the key store. *)
Definition ans (r : Z) : Answer := mkAnswer r 0 [] None false.
Definition err (e : Z) : Answer := mkAnswer (-1) e [] None false.
Definition rd (s : string) : Answer :=
  mkAnswer 0 0 (list_ascii_of_string s) None false.
Definition key (f : GFile) (c : bool) : Answer := mkAnswer 0 0 [] (Some f) c.

Definition stdio : list (Z * File) :=
  [(2, Path "/dev/tty"); (1, Path "/dev/tty"); (0, Path "/dev/tty")].

(** A process that has its three standard descriptors and has logged
    nothing. *)
Definition boot (s : list Answer) : World := mkWorld s 0 stdio [].

Definition sys0 : string := "/sys/bus/thunderbolt/devices/0-1".
Definition keyfile : GFile := "/var/lib/tb/keys/AA11".
Definition key64 : string :=
  "0123456789abcdef0123456789abcdef0123456789abcdef0123456789abcdef".

(** The device of the scenarios of the spec: known to the store, policy not
    auto, connected. *)
Definition dev1 : TbDevice :=
  mkDevice (Some "AA11") (Some sys0) TB_POLICY_MANUAL true Connected.

Definition mgr (level : Z) : TbManager := mkManager level [dev1].

Definition KEY : nat := 64.

(** A parser that finds no option. *)
Definition parse_plain (_ : bool) (argv : list string)
  : option (list string * (bool * bool)) :=
  Some (argv, (false, false)).

(** Level User, the live uid is the one of the device: the run succeeds. *)
Definition user_ok : World :=
  boot [ans 3; ans 4; rd "AA11"; ans 0; ans 4; ans 1; ans 0; ans 0].

(** Level User, the live uid is another one. *)
Definition mismatch : World :=
  boot [ans 3; ans 4; rd "BB22"; ans 0; ans 0].

(** Level Secure, the key has just been created: the run succeeds. *)
Definition secure_first : World :=
  boot [ans 3; ans 4; rd "AA11"; ans 0; key keyfile true; ans 4; ans 5;
        rd key64; ans 64; ans 0; ans 4; ans 1; ans 0; ans 0].

(** Level Secure, the key file holds ten bytes only; the kernel numbers the
    descriptor of [key] 5 and that of the key file 6, and answers [EBADF] to
    the close of descriptor 4, which is closed already. *)
Definition short_key : World :=
  boot [ans 3; ans 4; rd "AA11"; ans 0; key keyfile false; ans 5; ans 6;
        rd "0123456789"; rd ""; err 9; ans 0].

(** The same, the kernel handing out the lowest free number each time: the
    descriptor of [key] gets number 4 again. *)
Definition short_key_reuse : World :=
  boot [ans 3; ans 4; rd "AA11"; ans 0; key keyfile false; ans 4; ans 5;
        rd "0123456789"; rd ""; ans 0; ans 0].

(** Level Secure, the key exists, everything succeeds. *)
Definition secure_again : World :=
  boot [ans 3; ans 4; rd "AA11"; ans 0; key keyfile false; ans 4; ans 5;
        rd key64; ans 64; ans 0; ans 4; ans 1; ans 0; ans 0].

(** [copy_key] on its own: descriptor 5 is the [key] attribute. *)
Definition key_open (s : list Answer) : World :=
  mkWorld s 0 ((5, Attr sys0 "key") :: stdio) [].

Definition copy_short_read : World := key_open [ans 6; rd "0123456789"; rd ""].
Definition copy_short_write : World := key_open [ans 6; rd key64; ans 10].

(** The errors the scenarios end in. *)
Definition mismatch_error : option GError :=
  Some (mkGError G_IO_ERROR_FAILED
                 (Unique_id_verification_failed (list_ascii_of_string "BB22")
                                                "AA11")).

Definition short_read_error : GError :=
  mkGError G_IO_ERROR_FAILED Could_not_read_entire_key.


End Scenario.

(** ** The rest of [auth.c] *)

(** [args[i] = s]: a store into an array of pointers, some of them not yet
    set; there is no store past the end of the array. *)
Definition store_arg (args : list (option string)) (i : nat) (s : string)
  : option (list (option string)) :=
  if (i <? List.length args)%nat then
    Some (firstn i args ++ Some s :: skipn (S i) args)
  else None.

(** The loop [for (i = 1; i < argc; i++) args[i - 1] = g_strdup (argv[i])] of
    [make_args], with [n] turns left. *)
Fixpoint make_args_loop (n : nat) (i : nat) (argv : list string)
  (args : list (option string)) : option (list (option string)) :=
  match n with
  | O => Some args
  | S n' =>
      match nth_error argv i with
      | None => None
      | Some s =>
          match store_arg args (i - 1) s with
          | None => None
          | Some args' => make_args_loop n' (S i) argv args'
          end
      end
  end.

(** [make_args]: [g_new (char *, argc - 1)] gives an array of [argc - 1]
    pointers that are not set; [args[0]] gets [argv[0]], then the loop
    runs.  The result is [None] when a store or a load falls outside its
    array. *)
Definition make_args (argc : nat) (argv : list string)
  : option (list (option string)) :=
  let args := repeat (@None string) (argc - 1) in
  match nth_error argv 0 with
  | None => None
  | Some s0 =>
      match store_arg args 0 s0 with
      | None => None
      | Some args => make_args_loop (argc - 1) 1 argv args
      end
  end.

(** ** More about logs *)

(** The bytes the reads of a log have delivered, in order. *)
Definition data_read (evs : list Event) : bytes :=
  flat_map (fun ev => match ev with
                      | EvRead _ _ _ _ _ d => d
                      | _ => []
                      end) evs.

(** An answer that interrupts a call. *)
Definition interrupts (a : Answer) : Prop :=
  failed a = true /\ errno_of a = EINTR.

(** The events that close a descriptor. *)
Definition is_close (ev : Event) : bool :=
  match ev with
  | EvClose _ _ _ => true
  | _ => false
  end.

(** Events of the provisioning of a key: the call of the key store, the
    opening of [key] or of a key file, a read or a write through such a
    descriptor. *)
Definition touches_key (ev : Event) : bool :=
  match ev with
  | EvEnsureKey _ _ _ _ => true
  | EvOpen (Attr _ n) _ _ => String.eqb n "key"
  | EvOpen (Path _) _ _ => true
  | EvRead _ (Some (Path _)) _ _ _ _ => true
  | EvWrite _ (Some (Attr _ n)) _ _ _ => String.eqb n "key"
  | _ => false
  end.

(** Events that come after the verification of the uid in the source: all
    but the opening of the directory and of [unique_id], the reads of
    [unique_id] and the closes. *)
Definition acts (ev : Event) : bool :=
  match ev with
  | EvEnsureKey _ _ _ _ => true
  | EvOpen (Attr _ n) _ _ => negb (String.eqb n "unique_id")
  | EvOpen (Path _) _ _ => true
  | EvRead _ (Some (Path _)) _ _ _ _ => true
  | EvWrite _ _ _ _ _ => true
  | _ => false
  end.

(** Events other than the opening and closing of a directory, the storing
    of a device and printing. *)
Definition inner_event (ev : Event) : bool :=
  match ev with
  | EvOpendir _ _ | EvClosedir _ | EvStore _ _ | EvPrint _ _ => false
  | _ => true
  end.

(** A log of a run that has failed without a write to [authorized], or one
    in which the writes to [authorized] are those of one run of the grant. *)
Definition grant_part (dir : string) (security : Z) (error : option GError)
  (evs : list Event) (ok : gboolean) (err : option GError) : Prop :=
  (ok = FALSE /\ Forall no_grant_write evs)
  \/ exists head g rest sec',
      evs = head ++ g ++ rest
      /\ Forall no_grant_write head /\ Forall no_grant_write rest
      /\ grant_run dir sec' error g ok err
      /\ (security <> char_code "2" -> sec' = security).

(** What the commands refuse: arguments that cannot be parsed, that name no
    device, or that name a device the manager does not know. *)
Definition bad_arguments (parsed : option (list string * (bool * bool)))
  (mgr : TbManager) : Prop :=
  match parsed with
  | None => True
  | Some (argv, _) =>
      (List.length argv < 2)%nat
      \/ tb_manager_lookup mgr (nth 1 argv EmptyString) = None
  end.

(** The events that store a device. *)
Definition is_store (ev : Event) : bool :=
  match ev with
  | EvStore _ _ => true
  | _ => false
  end.

(** More scenarios. *)
Module Cases.

Import Scenario.

Local Open Scope string_scope.

(** The live attribute holds the uid and a newline. *)
Definition uid_newline : World :=
  boot [ans 3; ans 4; rd (String.append "AA11" (String (ascii_of_nat 10) ""));
        ans 0; ans 4; ans 1; ans 0; ans 0].

(** Level User, the write of the grant takes no byte. *)
Definition grant_zero : World :=
  boot [ans 3; ans 4; rd "AA11"; ans 0; ans 4; ans 0; ans 0; ans 0].

(** The key comes in two reads, the second one interrupted once. *)
Definition copy_chunks : World :=
  key_open [ans 6; rd "0123456789abcdef0123456789abcdef"; err EINTR;
            rd "0123456789abcdef0123456789abcdef"; ans 64].

(** A read that is interrupted twice before it delivers. *)
Definition interrupted_twice : list Answer := [err EINTR; err EINTR].

(** A read of [unique_id] on its own; the attribute holds the uid and a
    newline. *)
Definition uid_read : World :=
  boot [rd (String.append "AA11" (String (ascii_of_nat 10) ""))].

(** A file of six bytes that comes in two pieces, the second read
    interrupted once. *)
Definition read_chunks : World :=
  boot [rd "0123"; err EINTR; rd "45"; rd ""].

(** Level User, the run succeeds, and so does the store after it. *)
Definition user_then_store : World :=
  boot [ans 3; ans 4; rd "AA11"; ans 0; ans 4; ans 1; ans 0; ans 0; ans 0].

(** A parser that sees [--auto]. *)
Definition parse_auto (_ : bool) (argv : list string)
  : option (list string * (bool * bool)) :=
  Some (argv, (false, true)).

(** A parser that fails. *)
Definition parse_fails (_ : bool) (_ : list string)
  : option (list string * (bool * bool)) := None.

(** The device of the scenarios, with the policy auto. *)
Definition dev_auto : TbDevice :=
  mkDevice (Some "AA11") (Some sys0) TB_POLICY_AUTO true Connected.

Definition mgr_auto (level : Z) : TbManager := mkManager level [dev_auto].

End Cases.

(** ** Tactics *)

Lemma Forall_repeat {A} (P : A -> Prop) (a : A) (n : nat) :
  P a -> Forall P (repeat a n).
Proof. intros H. induction n; simpl; constructor; assumption. Qed.

Ltac in_cases H :=
  cbn [In app] in H; rewrite ?in_app_iff in H; cbn [In] in H;
  repeat match type of H with
         | _ \/ _ => destruct H as [H|H]
         end;
  try discriminate H; try contradiction H;
  try (apply repeat_spec in H; discriminate H).

Ltac each_event :=
  repeat first
    [ apply Forall_nil
    | apply Forall_cons
    | apply Forall_app; split
    | apply Forall_repeat ].

(** Membership of an event in a log that is written out. *)
Ltac here :=
  repeat (progress (cbn [In app]; rewrite ?in_app_iff)); cbn [In]; eauto 12.

(** ** Facts about the environment *)

Lemma errno_of_pos (a : Answer) : 0 < errno_of a.
Proof.
  unfold errno_of. destruct (0 <? ans_errno a) eqn:E.
  - now apply Z.ltb_lt in E.
  - unfold EIO. lia.
Qed.

(** An interrupted call is an answer of the script. *)
Lemma interrupted_consumes (w : World) :
  failed (answer w) = true -> errno_of (answer w) = EINTR ->
  (List.length (tl (script w)) < List.length (script w))%nat.
Proof.
  unfold answer. destruct (script w) as [|a s]; simpl.
  - intros _ H. discriminate H.
  - lia.
Qed.

(** So is a read that delivers something. *)
Lemma delivery_consumes (w : World) :
  failed (answer w) = false ->
  (List.length (tl (script w)) < List.length (script w))%nat.
Proof.
  unfold answer. destruct (script w) as [|a s]; simpl.
  - intros H. discriminate H.
  - lia.
Qed.

Lemma top_fd_bound (t : list (Z * File)) (fd : Z) :
  fd_in_use fd t = true -> fd <= top_fd t.
Proof.
  induction t as [|[x f] t IH]; simpl; [discriminate|].
  destruct (x =? fd) eqn:E; simpl.
  - apply Z.eqb_eq in E. lia.
  - intros H. specialize (IH H). lia.
Qed.

(** A new descriptor is not one that is in use. *)
Lemma alloc_fd_fresh (want : Z) (t : list (Z * File)) :
  fd_in_use (alloc_fd want t) t = false.
Proof.
  unfold alloc_fd. destruct (fd_in_use want t) eqn:E; [|exact E].
  destruct (fd_in_use (top_fd t + 1) t) eqn:F; [|reflexivity].
  apply top_fd_bound in F. lia.
Qed.


(** ** Facts about bytes *)

Lemma char_code_inj (x y : ascii) : char_code x = char_code y -> x = y.
Proof.
  unfold char_code. intros H. apply N2Z.inj in H.
  rewrite <- (ascii_N_embedding x), <- (ascii_N_embedding y). now rewrite H.
Qed.

Lemma memcmp_zero (a b : bytes) :
  List.length a = List.length b ->
  (memcmp a b (List.length a) = 0 <-> a = b).
Proof.
  revert b. induction a as [|x a IH]; intros [|y b]; simpl; try discriminate.
  - intros _. split; reflexivity.
  - intros L. injection L as L. destruct (char_code x =? char_code y) eqn:E.
    + apply Z.eqb_eq, char_code_inj in E. subst y. rewrite (IH b L).
      split; [now intros ->|]. intros H. now injection H.
    + apply Z.eqb_neq in E. split.
      * intros H. lia.
      * intros H. injection H as -> _. now contradiction E.
Qed.

Lemma length_list_ascii_of_string (s : string) :
  List.length (list_ascii_of_string s) = String.length s.
Proof. induction s; simpl; congruence. Qed.

(** ** The loops *)

Lemma firstn_length_le_Z {A} (n : nat) (l : list A) :
  (List.length (firstn n l) <= n)%nat.
Proof. rewrite length_firstn. lia. Qed.

(** *** Fuel

    Every turn of a loop consumes an answer of the script: a loop that has
    more fuel than the script is long never runs out of it, and more fuel
    changes nothing. *)

Lemma tb_write_char_retry_fuel (f1 f2 : nat) (fd : Z) (c : ascii)
  (error : option GError) (w : World) :
  (List.length (script w) < f1)%nat -> (List.length (script w) < f2)%nat ->
  tb_write_char_retry f1 fd c error w = tb_write_char_retry f2 fd c error w.
Proof.
  revert f2 w. induction f1 as [|f1 IH]; intros [|f2] w H1 H2; try lia.
  cbn [tb_write_char_retry]. unfold sys_write.
  destruct (failed (answer w)) eqn:Fa.
  - cbn [Z.eqb Pos.eqb step errno].
    destruct (errno_of (answer w) =? EINTR) eqn:Ee; [|reflexivity].
    apply Z.eqb_eq in Ee. pose proof (interrupted_consumes w Fa Ee).
    apply IH; cbn [step script]; lia.
  - unfold failed in Fa. apply Z.ltb_ge in Fa.
    assert (Hn : (Z.min (ans_ret (answer w)) (Z.of_nat (List.length [c])) =? -1)
                 = false) by (apply Z.eqb_neq; cbn [List.length]; lia).
    rewrite Hn. reflexivity.
Qed.

Lemma tb_verify_uid_retry_fuel (f1 f2 : nat) (fd : Z) (u : string)
  (error : option GError) (w : World) :
  (List.length (script w) < f1)%nat -> (List.length (script w) < f2)%nat ->
  tb_verify_uid_retry f1 fd u error w = tb_verify_uid_retry f2 fd u error w.
Proof.
  revert f2 w. induction f1 as [|f1 IH]; intros [|f2] w H1 H2; try lia.
  cbn [tb_verify_uid_retry]. unfold sys_read.
  destruct (failed (answer w)) eqn:Fa.
  - cbn [Z.ltb Z.compare step errno].
    destruct (errno_of (answer w) =? EINTR) eqn:Ee; [|reflexivity].
    apply Z.eqb_eq in Ee. pose proof (interrupted_consumes w Fa Ee).
    apply IH; cbn [step script]; lia.
  - set (data := firstn (String.length u) (ans_data (answer w))).
    assert (Hn : (Z.of_nat (List.length data) <? 0) = false)
      by (apply Z.ltb_ge; lia).
    rewrite Hn. reflexivity.
Qed.

Lemma copy_key_write_fuel (f1 f2 : nat) (to : Z) (buf : bytes) (w : World) :
  (List.length (script w) < f1)%nat -> (List.length (script w) < f2)%nat ->
  copy_key_write f1 to buf w = copy_key_write f2 to buf w.
Proof.
  revert f2 w. induction f1 as [|f1 IH]; intros [|f2] w H1 H2; try lia.
  cbn [copy_key_write]. unfold sys_write.
  destruct (failed (answer w)) eqn:Fa.
  - cbn [Z.ltb Z.compare step errno andb].
    destruct (errno_of (answer w) =? EINTR) eqn:Ee; [|reflexivity].
    apply Z.eqb_eq in Ee. pose proof (interrupted_consumes w Fa Ee).
    apply IH; cbn [step script]; lia.
  - unfold failed in Fa. apply Z.ltb_ge in Fa.
    assert (Hn : (Z.min (ans_ret (answer w)) (Z.of_nat (List.length buf)) <? 0)
                 = false) by (apply Z.ltb_ge; lia).
    rewrite Hn. reflexivity.
Qed.

Lemma tb_read_all_loop_fuel (f1 : nat) (fd : Z) :
  forall (f2 : nat) (buffer : bytes) (ptr : nat) (nread : Z) (nbyte : nat)
         (error : option GError) (w : World),
  (List.length (script w) < f1)%nat -> (List.length (script w) < f2)%nat ->
  tb_read_all_loop f1 fd buffer ptr nread nbyte error w
  = tb_read_all_loop f2 fd buffer ptr nread nbyte error w.
Proof.
  induction f1 as [|f1 IH]; intros [|f2] buffer ptr nread nbyte error w H1 H2;
    try lia.
  cbn [tb_read_all_loop]. unfold sys_read.
  destruct (failed (answer w)) eqn:Fa.
  - cbn [Z.ltb Z.compare step errno].
    destruct (errno_of (answer w) =? EINTR) eqn:Ee; [|reflexivity].
    apply Z.eqb_eq in Ee. pose proof (interrupted_consumes w Fa Ee).
    destruct (0 <? nbyte)%nat; [|reflexivity].
    apply IH; cbn [step script]; lia.
  - pose proof (delivery_consumes w Fa).
    set (data := firstn nbyte (ans_data (answer w))).
    assert (Hn : (Z.of_nat (List.length data) <? 0) = false)
      by (apply Z.ltb_ge; lia).
    rewrite Hn. destruct (_ =? 0); [reflexivity|].
    destruct (0 <? _)%nat; [|reflexivity].
    apply IH; cbn [step script]; lia.
Qed.

(** What one run of [tb_verify_uid] logs and answers: reads of the
    descriptor, all interrupted but the last; the last one decides. *)
Lemma tb_verify_uid_retry_spec (fuel : nat) (fd : Z) (u : string)
  (error : option GError) (w w' : World) (ok : gboolean) (err : option GError) :
  (List.length (script w) < fuel)%nat ->
  tb_verify_uid_retry fuel fd u error w = (ok, err, w') ->
  exists k r e data,
    trace w' = trace w
               ++ repeat (interrupted_read fd (file_of fd (fds w)) (String.length u)) k
               ++ [EvRead fd (file_of fd (fds w)) (String.length u) r e data]
    /\ fds w' = fds w
    /\ ((r = -1 /\ e <> EINTR /\ ok = FALSE
         /\ err = g_set_error error (g_io_error_from_errno e)
                              Could_not_read_from_file)
        \/ (0 <= r /\ data = list_ascii_of_string u /\ ok = TRUE /\ err = error)
        \/ (0 <= r /\ data <> list_ascii_of_string u /\ ok = FALSE
            /\ (err = g_set_error error G_IO_ERROR_FAILED Could_not_read_full_uid
                \/ err = g_set_error error G_IO_ERROR_FAILED
                                     (Unique_id_verification_failed data u)))).
Proof.
  revert w. induction fuel as [|fuel IH]; intros w Hf H; [lia|].
  cbn [tb_verify_uid_retry] in H. unfold sys_read in H.
  destruct (failed (answer w)) eqn:Fa.
  - (* the read fails *)
    cbn [Z.ltb Z.compare step errno] in H.
    destruct (errno_of (answer w) =? EINTR) eqn:Ee.
    + apply Z.eqb_eq in Ee.
      pose proof (interrupted_consumes w Fa Ee) as Hl.
      apply IH in H; [|cbn [step script]; lia].
      destruct H as (k & r & e & data & Ht & Hfd & Hres).
      cbn [step trace fds] in Ht, Hfd.
      exists (S k), r, e, data. split; [|split; [exact Hfd|exact Hres]].
      rewrite Ht, <- app_assoc. cbn [repeat app]. unfold interrupted_read.
      now rewrite Ee.
    + apply Z.eqb_neq in Ee. injection H as <- <- <-.
      exists 0%nat, (-1), (errno_of (answer w)), [].
      cbn [step trace fds repeat app]. auto 10.
  - (* the read delivers *)
    set (data := firstn (String.length u) (ans_data (answer w))) in *.
    assert (Hn : (Z.of_nat (List.length data) <? 0) = false)
      by (apply Z.ltb_ge; lia).
    rewrite Hn in H.
    exists 0%nat, (Z.of_nat (List.length data)), (errno w), data.
    cbn [repeat app].
    destruct (Z.of_nat (String.length u) =? Z.of_nat (List.length data)) eqn:El;
      cbn [negb] in H.
    + apply Z.eqb_eq, Nat2Z.inj in El.
      assert (Hm : memcmp data (list_ascii_of_string u) (String.length u) = 0
                   <-> data = list_ascii_of_string u).
      { rewrite El. apply memcmp_zero.
        now rewrite length_list_ascii_of_string. }
      destruct (memcmp data (list_ascii_of_string u) (String.length u) =? 0)
        eqn:Em; cbn [negb] in H; injection H as <- <- <-;
        cbn [step trace fds]; (split; [reflexivity|split; [reflexivity|]]).
      * apply Z.eqb_eq in Em. right; left. repeat split; [lia|now apply Hm].
      * apply Z.eqb_neq in Em. right; right.
        repeat split; [lia|now rewrite <- Hm|now right].
    + apply Z.eqb_neq in El. injection H as <- <- <-.
      cbn [step trace fds]. split; [reflexivity|split; [reflexivity|]].
      right; right. repeat split; [lia| |now left].
      intros Hd. apply El. rewrite Hd, length_list_ascii_of_string. reflexivity.
Qed.

(** What one run of [tb_write_char] logs and answers: writes of the one
    byte, all interrupted but the last. *)
Lemma tb_write_char_retry_spec (fuel : nat) (fd : Z) (c : ascii)
  (error : option GError) (w w' : World) (ok : gboolean) (err : option GError) :
  (List.length (script w) < fuel)%nat ->
  tb_write_char_retry fuel fd c error w = (ok, err, w') ->
  exists k r e,
    trace w' = trace w
               ++ repeat (interrupted_write fd (file_of fd (fds w)) [c]) k
               ++ [EvWrite fd (file_of fd (fds w)) [c] r e]
    /\ fds w' = fds w
    /\ ok = (0 <? r)
    /\ ((r = -1 /\ e <> EINTR
         /\ err = g_set_error error (g_io_error_from_errno e)
                              (Could_not_write_data e))
        \/ (0 <= r <= 1 /\ err = error)).
Proof.
  revert w. induction fuel as [|fuel IH]; intros w Hf H; [lia|].
  cbn [tb_write_char_retry] in H. unfold sys_write in H.
  destruct (failed (answer w)) eqn:Fa.
  - cbn [Z.eqb Pos.eqb step errno] in H.
    destruct (errno_of (answer w) =? EINTR) eqn:Ee.
    + apply Z.eqb_eq in Ee.
      pose proof (interrupted_consumes w Fa Ee) as Hl.
      apply IH in H; [|cbn [step script]; lia].
      destruct H as (k & r & e & Ht & Hfd & Hres).
      cbn [step trace fds] in Ht, Hfd.
      exists (S k), r, e. split; [|split; [exact Hfd|exact Hres]].
      rewrite Ht, <- app_assoc. cbn [repeat app]. unfold interrupted_write.
      now rewrite Ee.
    + apply Z.eqb_neq in Ee. injection H as <- <- <-.
      exists 0%nat, (-1), (errno_of (answer w)).
      cbn [step trace fds repeat app]. auto 10.
  - unfold failed in Fa. apply Z.ltb_ge in Fa.
    cbn [List.length] in H.
    set (k := Z.min (ans_ret (answer w)) (Z.of_nat 1)) in *.
    assert (Hk : 0 <= k <= 1) by (unfold k; lia).
    assert (Hn : (k =? -1) = false) by (apply Z.eqb_neq; lia).
    rewrite Hn in H. injection H as <- <- <-.
    exists 0%nat, k, (errno w). cbn [step trace fds repeat app]. auto 10.
Qed.

(** What the write loop of [copy_key] logs and answers. *)
Lemma copy_key_write_spec (fuel : nat) (to : Z) (buf : bytes)
  (w w' : World) (k : Z) :
  (List.length (script w) < fuel)%nat ->
  copy_key_write fuel to buf w = (k, w') ->
  exists j,
    trace w' = trace w
               ++ repeat (interrupted_write to (file_of to (fds w)) buf) j
               ++ [EvWrite to (file_of to (fds w)) buf k (errno w')]
    /\ fds w' = fds w
    /\ -1 <= k <= Z.of_nat (List.length buf)
    /\ (k = -1 -> errno w' <> EINTR).
Proof.
  revert w. induction fuel as [|fuel IH]; intros w Hf H; [lia|].
  cbn [copy_key_write] in H. unfold sys_write in H.
  destruct (failed (answer w)) eqn:Fa.
  - cbn [Z.ltb Z.compare step errno andb] in H.
    destruct (errno_of (answer w) =? EINTR) eqn:Ee.
    + apply Z.eqb_eq in Ee.
      pose proof (interrupted_consumes w Fa Ee) as Hl.
      apply IH in H; [|cbn [step script]; lia].
      destruct H as (j & Ht & Hfd & Hres).
      cbn [step trace fds] in Ht, Hfd.
      exists (S j). split; [|split; [exact Hfd|exact Hres]].
      rewrite Ht, <- app_assoc. cbn [repeat app]. unfold interrupted_write.
      now rewrite Ee.
    + apply Z.eqb_neq in Ee. injection H as <- <-.
      exists 0%nat. cbn [step trace fds errno repeat app].
      repeat split; lia.
  - unfold failed in Fa. apply Z.ltb_ge in Fa.
    set (r := Z.min (ans_ret (answer w)) (Z.of_nat (List.length buf))) in *.
    assert (Hr : 0 <= r <= Z.of_nat (List.length buf)) by (unfold r; lia).
    assert (Hn : (r <? 0) = false) by (apply Z.ltb_ge; lia).
    rewrite Hn in H. cbn [andb] in H. injection H as <- <-.
    exists 0%nat. cbn [step trace fds errno repeat app].
    repeat split; try lia.
Qed.

Lemma bytes_read_app (a b : list Event) :
  bytes_read (a ++ b) = bytes_read a + bytes_read b.
Proof.
  induction a as [|ev a IH]; simpl; [reflexivity|].
  destruct ev; rewrite ?IH; lia.
Qed.

Lemma bytes_read_nonneg (a : list Event) : 0 <= bytes_read a.
Proof. induction a as [|ev a IH]; simpl; [lia|]. destruct ev; lia. Qed.

Lemma blit_length (buffer : bytes) (ptr : nat) (data : bytes) :
  (ptr + List.length data <= List.length buffer)%nat ->
  List.length (blit buffer ptr data) = List.length buffer.
Proof.
  intros H. unfold blit.
  rewrite !length_app, length_firstn, length_skipn. lia.
Qed.

(** What one run of [tb_read_all] logs and answers: reads of the descriptor;
    the result is negative after an error and else counts the bytes
    delivered, never more than were asked for. *)
Lemma tb_read_all_loop_spec (fuel : nat) (fd : Z) :
  forall (buffer : bytes) (ptr : nat) (nread : Z) (nbyte : nat)
         (error : option GError) (w w' : World) (n : Z) (buf' : bytes)
         (err : option GError),
  (List.length (script w) < fuel)%nat ->
  tb_read_all_loop fuel fd buffer ptr nread nbyte error w = (n, buf', err, w') ->
  exists evs,
    trace w' = trace w ++ evs
    /\ fds w' = fds w
    /\ Forall (is_read_of fd (file_of fd (fds w))) evs
    /\ ((n < 0 /\ exists e,
           err = g_set_error error (g_io_error_from_errno e)
                             (Input_error_while_reading e))
        \/ (n = nread + bytes_read evs /\ err = error))
    /\ bytes_read evs <= Z.of_nat nbyte
    /\ ((ptr + nbyte <= List.length buffer)%nat ->
        List.length buf' = List.length buffer).
Proof.
  induction fuel as [|fuel IH]; intros buffer ptr nread nbyte error w w' n buf'
    err Hf H; [lia|].
  cbn [tb_read_all_loop] in H. unfold sys_read in H.
  destruct (failed (answer w)) eqn:Fa.
  - cbn [Z.ltb Z.compare step errno] in H.
    destruct (errno_of (answer w) =? EINTR) eqn:Ee.
    + apply Z.eqb_eq in Ee.
      pose proof (interrupted_consumes w Fa Ee) as Hl.
      destruct (0 <? nbyte)%nat eqn:Eb.
      * apply IH in H; [|cbn [step script]; lia].
        destruct H as (evs & Ht & Hfd & Hall & Hres & Hb & Hlen).
        cbn [step trace fds] in Ht, Hfd, Hall.
        eexists (_ :: evs). rewrite Ht, <- app_assoc. cbn [app].
        split; [reflexivity|]. split; [exact Hfd|].
        split; [constructor; [split; reflexivity|exact Hall]|].
        cbn [bytes_read fold_right List.length]. fold (bytes_read evs).
        split; [|split; [lia|exact Hlen]].
        destruct Hres as [Hres|[-> ->]]; [now left|right; split; [lia|reflexivity]].
      * injection H as <- <- <- <-. eexists [_].
        cbn [step trace fds]. split; [reflexivity|]. split; [reflexivity|].
        split; [constructor; [split; reflexivity|constructor]|].
        cbn. split; [right; split; [lia|reflexivity]|]. split; [lia|reflexivity].
    + injection H as <- <- <- <-. eexists [_].
      cbn [step trace fds]. split; [reflexivity|]. split; [reflexivity|].
      split; [constructor; [split; reflexivity|constructor]|].
      cbn. pose proof (errno_of_pos (answer w)).
      split; [left; split; [lia|eexists; reflexivity]|].
      split; [lia|reflexivity].
  - set (data := firstn nbyte (ans_data (answer w))) in *.
    pose proof (firstn_length_le_Z nbyte (ans_data (answer w))) as Hd.
    fold data in Hd.
    assert (Hn : (Z.of_nat (List.length data) <? 0) = false)
      by (apply Z.ltb_ge; lia).
    rewrite Hn in H. rewrite Nat2Z.id in H.
    destruct (Z.of_nat (List.length data) =? 0) eqn:E0.
    + apply Z.eqb_eq in E0. injection H as <- <- <- <-. eexists [_].
      cbn [step trace fds]. split; [reflexivity|]. split; [reflexivity|].
      split; [constructor; [split; reflexivity|constructor]|].
      cbn. split; [right; split; [lia|reflexivity]|]. split; [lia|reflexivity].
    + apply Z.eqb_neq in E0.
      pose proof (delivery_consumes w Fa) as Hl.
      destruct (0 <? nbyte - List.length data)%nat eqn:Eb.
      * apply IH in H; [|cbn [step script]; lia].
        destruct H as (evs & Ht & Hfd & Hall & Hres & Hb & Hlen).
        cbn [step trace fds] in Ht, Hfd, Hall.
        eexists (_ :: evs). rewrite Ht, <- app_assoc. cbn [app].
        split; [reflexivity|]. split; [exact Hfd|].
        split; [constructor; [split; reflexivity|exact Hall]|].
        cbn [bytes_read fold_right]. fold (bytes_read evs).
        split; [|split; [lia|]].
        -- destruct Hres as [Hres|[-> ->]]; [now left|].
           right; split; [lia|reflexivity].
        -- intros Hp. rewrite Hlen; [apply blit_length; lia|].
           rewrite blit_length; lia.
      * injection H as <- <- <- <-. eexists [_].
        cbn [step trace fds]. split; [reflexivity|]. split; [reflexivity|].
        split; [constructor; [split; reflexivity|constructor]|].
        cbn. split; [right; split; [lia|reflexivity]|]. split; [lia|].
        intros Hp. apply blit_length. lia.
Qed.

Lemma top_fd_ge (t : list (Z * File)) : 2 <= top_fd t.
Proof. induction t as [|[x f] t IH]; simpl; lia. Qed.

Lemma alloc_fd_nonneg (want : Z) (t : list (Z * File)) :
  0 <= want -> 0 <= alloc_fd want t.
Proof.
  intros H. unfold alloc_fd. destruct (fd_in_use want t); [|exact H].
  pose proof (top_fd_ge t). lia.
Qed.

Lemma file_of_other (fd fd' : Z) (f : File) (t : list (Z * File)) :
  fd_in_use fd t = true -> fd_in_use fd' t = false ->
  file_of fd ((fd', f) :: t) = file_of fd t.
Proof.
  intros Hu Hf. cbn [file_of]. destruct (fd' =? fd) eqn:E; [|reflexivity].
  apply Z.eqb_eq in E. subst fd'. congruence.
Qed.

(** ** [copy_key] *)

Section CopyKey.

Variable TB_KEY_CHARS : nat.

(** What one run of [copy_key] logs and answers: the key file is opened, read
    through the new descriptor and, when the whole key has come, written to
    [to] with writes of the whole key, all interrupted but the last. *)
Lemma copy_key_spec (key : GFile) (to : Z) (error : option GError)
  (w w' : World) (ok : gboolean) (err : option GError) :
  copy_key TB_KEY_CHARS key to error w = (ok, err, w') ->
  exists from reads writes,
    trace w' = trace w ++ EvOpen (Path key) O_RDONLY from :: reads ++ writes
    /\ Forall (is_read_of from (Some (Path key))) reads
    /\ bytes_read reads <= Z.of_nat TB_KEY_CHARS
    /\ ((from = -1 /\ fds w' = fds w /\ reads = [] /\ writes = []
         /\ ok = FALSE
         /\ err = g_set_error error (g_io_error_from_errno (errno w'))
                              Could_not_open_key_file)
        \/ (0 <= from /\ fd_in_use from (fds w) = false
            /\ fds w' = (from, Path key) :: fds w
            /\ ((writes = [] /\ ok = FALSE
                 /\ ((exists e,
                        err = g_set_error error (g_io_error_from_errno e)
                                          (Input_error_while_reading e))
                     \/ (bytes_read reads < Z.of_nat TB_KEY_CHARS
                         /\ err = g_set_error error G_IO_ERROR_FAILED
                                              Could_not_read_entire_key)))
                \/ (bytes_read reads = Z.of_nat TB_KEY_CHARS
                    /\ exists j buf r e,
                      List.length buf = TB_KEY_CHARS
                      /\ writes =
                           repeat (interrupted_write
                                     to (file_of to ((from, Path key) :: fds w))
                                     buf) j
                           ++ [EvWrite to (file_of to ((from, Path key) :: fds w))
                                       buf r e]
                      /\ -1 <= r <= Z.of_nat TB_KEY_CHARS
                      /\ (r = -1 -> e <> EINTR)
                      /\ ((r = Z.of_nat TB_KEY_CHARS /\ ok = TRUE /\ err = error)
                          \/ (r <> Z.of_nat TB_KEY_CHARS /\ ok = FALSE
                              /\ err = g_set_error
                                         error (g_io_error_from_errno e)
                                         Io_error_while_writing_key)))))).
Proof.
  unfold copy_key, sys_open. intros H.
  destruct (failed (answer w)) eqn:Fa.
  - cbn [Z.ltb Z.compare] in H. injection H as <- <- <-.
    exists (-1), [], []. cbn [step trace fds errno app bytes_read fold_right].
    split; [reflexivity|]. split; [constructor|]. split; [lia|]. left. auto 10.
  - unfold failed in Fa. apply Z.ltb_ge in Fa.
    set (from := alloc_fd (ans_ret (answer w)) (fds w)) in *.
    pose proof (alloc_fd_nonneg _ (fds w) Fa) as Hfrom. fold from in Hfrom.
    pose proof (alloc_fd_fresh (ans_ret (answer w)) (fds w)) as Hfresh.
    fold from in Hfresh.
    assert (Hn : (from <? 0) = false) by (apply Z.ltb_ge; lia).
    rewrite Hn in H. unfold tb_read_all in H.
    set (w1 := step (errno w) ((from, Path key) :: fds w)
                    (EvOpen (Path key) O_RDONLY from) w) in *.
    destruct (tb_read_all_loop _ from _ 0 0 TB_KEY_CHARS error w1)
      as [[[n buffer] error1] w2] eqn:Er.
    apply tb_read_all_loop_spec in Er; [|lia].
    destruct Er as (reads & Ht & Hfd & Hall & Hres & Hb & Hlen).
    cbn [step trace fds w1] in Ht, Hfd, Hall.
    assert (Htag : file_of from ((from, Path key) :: fds w) = Some (Path key)).
    { cbn [file_of]. now rewrite Z.eqb_refl. }
    rewrite Htag in Hall.
    specialize (Hlen ltac:(rewrite repeat_length; lia)).
    rewrite repeat_length in Hlen.
    destruct (n <? 0) eqn:En.
    + injection H as <- <- <-. exists from, reads, [].
      rewrite app_nil_r, Ht, <- app_assoc. cbn [app].
      split; [reflexivity|]. split; [exact Hall|]. split; [exact Hb|].
      right. split; [exact Hfrom|]. split; [exact Hfresh|]. split; [exact Hfd|].
      left. split; [reflexivity|]. split; [reflexivity|]. left.
      apply Z.ltb_lt in En. destruct Hres as [[_ He]|[Hres _]]; [exact He|].
      pose proof (bytes_read_nonneg reads). lia.
    + apply Z.ltb_ge in En.
      destruct Hres as [[Hneg _]|[Hn' ->]]; [lia|].
      destruct (n =? Z.of_nat TB_KEY_CHARS) eqn:Ek; cbn [negb] in H.
      * apply Z.eqb_eq in Ek.
        destruct (copy_key_write _ to _ w2) as [k w3] eqn:Ew.
        apply copy_key_write_spec in Ew; [|lia].
        destruct Ew as (j & Ht3 & Hfd3 & Hk & Hint).
        assert (Hbl : List.length (firstn (Z.to_nat n) buffer) = TB_KEY_CHARS).
        { rewrite length_firstn, Hlen. lia. }
        rewrite Hbl in Hk. rewrite Hfd in Ht3.
        exists from, reads, (repeat (interrupted_write
                                        to (file_of to ((from, Path key) :: fds w))
                                        (firstn (Z.to_nat n) buffer)) j
                             ++ [EvWrite to (file_of to ((from, Path key) :: fds w))
                                         (firstn (Z.to_nat n) buffer) k (errno w3)]).
        assert (Htr : trace w3 = trace w ++ EvOpen (Path key) O_RDONLY from
                                 :: reads ++ repeat (interrupted_write
                                        to (file_of to ((from, Path key) :: fds w))
                                        (firstn (Z.to_nat n) buffer)) j
                             ++ [EvWrite to (file_of to ((from, Path key) :: fds w))
                                         (firstn (Z.to_nat n) buffer) k (errno w3)]).
        { rewrite Ht3, Ht, <- !app_assoc. reflexivity. }
        assert (Hfds3 : fds w3 = (from, Path key) :: fds w) by congruence.
        destruct (k =? n) eqn:Ekn; cbn [negb] in H; injection H as <- <- <-.
        -- apply Z.eqb_eq in Ekn.
           split; [exact Htr|]. split; [exact Hall|]. split; [exact Hb|].
           right. split; [exact Hfrom|]. split; [exact Hfresh|].
           split; [exact Hfds3|]. right. split; [lia|].
           exists j, (firstn (Z.to_nat n) buffer), k, (errno w3).
           split; [exact Hbl|]. split; [reflexivity|]. split; [lia|].
           split; [exact Hint|]. left. split; [lia|]. split; reflexivity.
        -- apply Z.eqb_neq in Ekn.
           split; [exact Htr|]. split; [exact Hall|]. split; [exact Hb|].
           right. split; [exact Hfrom|]. split; [exact Hfresh|].
           split; [exact Hfds3|]. right. split; [lia|].
           exists j, (firstn (Z.to_nat n) buffer), k, (errno w3).
           split; [exact Hbl|]. split; [reflexivity|]. split; [lia|].
           split; [exact Hint|]. right. split; [lia|]. split; reflexivity.
      * apply Z.eqb_neq in Ek. injection H as <- <- <-.
        exists from, reads, []. rewrite app_nil_r, Ht, <- app_assoc. cbn [app].
        split; [reflexivity|]. split; [exact Hall|]. split; [exact Hb|].
        right. split; [exact Hfrom|]. split; [exact Hfresh|]. split; [exact Hfd|].
        left. split; [reflexivity|]. split; [reflexivity|]. right.
        split; [lia|reflexivity].
Qed.

End CopyKey.

(** ** The calls that do not loop *)

Lemma tb_openat_spec (d : DIR) (name : string) (oflag : Z)
  (error : option GError) (w w' : World) (fd : Z) (err : option GError) :
  tb_openat d name oflag error w = (fd, err, w') ->
  trace w' = trace w ++ [EvOpen (Attr (dirname d) name) oflag fd]
  /\ ((fd = -1 /\ fds w' = fds w
       /\ exists e,
         err = g_set_error error (g_io_error_from_errno e)
                           (Could_not_open_file name e))
      \/ (0 <= fd /\ fd_in_use fd (fds w) = false
          /\ fds w' = (fd, Attr (dirname d) name) :: fds w /\ err = error)).
Proof.
  unfold tb_openat, sys_open. intros H.
  destruct (failed (answer w)) eqn:Fa.
  - cbn [Z.ltb Z.compare] in H. injection H as <- <- <-.
    cbn [step trace fds errno]. split; [reflexivity|]. left. eauto.
  - unfold failed in Fa. apply Z.ltb_ge in Fa.
    pose proof (alloc_fd_nonneg _ (fds w) Fa) as Hfd.
    pose proof (alloc_fd_fresh (ans_ret (answer w)) (fds w)) as Hfresh.
    assert (Hn : (alloc_fd (ans_ret (answer w)) (fds w) <? 0) = false)
      by (apply Z.ltb_ge; lia).
    rewrite Hn in H. injection H as <- <- <-.
    cbn [step trace fds]. split; [reflexivity|]. right. auto.
Qed.

Lemma sys_close_spec (fd : Z) (w w' : World) (r : Z) :
  sys_close fd w = (r, w') ->
  trace w' = trace w ++ [EvClose fd (file_of fd (fds w)) r]
  /\ fds w' = release fd (fds w)
  /\ (r = 0 \/ r = -1).
Proof.
  unfold sys_close. intros H. injection H as <- <-. cbn [step trace fds].
  split; [reflexivity|]. split; [reflexivity|].
  destruct (failed (answer w)); auto.
Qed.

Lemma tb_close_spec (fd : Z) (error : option GError) (w w' : World)
  (ok : gboolean) (err : option GError) :
  tb_close fd error w = (ok, err, w') ->
  exists c,
    trace w' = trace w ++ [EvClose fd (file_of fd (fds w)) c]
    /\ fds w' = release fd (fds w)
    /\ ((c = 0 /\ ok = TRUE /\ err = error)
        \/ (c = -1 /\ ok = FALSE
            /\ exists e,
              err = g_set_error error (g_io_error_from_errno e)
                                (Could_not_close_file e))).
Proof.
  unfold tb_close. destruct (sys_close fd w) as [r w1] eqn:Ec. intros H.
  apply sys_close_spec in Ec. destruct Ec as (Ht & Hf & [-> | ->]);
    cbn [Z.eqb] in H; injection H as <- <- <-; eexists;
    (split; [exact Ht|]); (split; [exact Hf|]); eauto 10.
Qed.

Lemma tb_manager_ensure_key_spec (mgr : TbManager) (dev : TbDevice)
  (replace created0 : bool) (error : option GError) (w w' : World)
  (key : option GFile) (created : bool) (err : option GError) :
  tb_manager_ensure_key mgr dev replace created0 error w
  = (key, created, err, w') ->
  trace w' = trace w ++ [EvEnsureKey (uid dev) replace key created]
  /\ fds w' = fds w
  /\ ((key = None
       /\ err = g_set_error error G_IO_ERROR_FAILED Key_store_failure)
      \/ ((exists kf, key = Some kf) /\ err = error)).
Proof.
  unfold tb_manager_ensure_key. intros H.
  destruct (ans_key (answer w)) as [kf|]; injection H as <- <- <- <-;
    cbn [step trace fds]; (split; [reflexivity|]); (split; [reflexivity|]);
    eauto.
Qed.

(** ** The grant *)

Lemma release_head (fd : Z) (f : File) (t : list (Z * File)) :
  release fd ((fd, f) :: t) = t.
Proof. cbn [release]. now rewrite Z.eqb_refl. Qed.

Lemma file_of_head (fd : Z) (f : File) (t : list (Z * File)) :
  file_of fd ((fd, f) :: t) = Some f.
Proof. cbn [file_of]. now rewrite Z.eqb_refl. Qed.

Lemma write_grant_spec (d : DIR) (security : Z) (error : option GError)
  (w w' : World) (ok : gboolean) (err : option GError) :
  write_grant d security error w = (ok, err, w') ->
  exists evs,
    trace w' = trace w ++ evs /\ fds w' = fds w
    /\ grant_run (dirname d) security error evs ok err.
Proof.
  unfold write_grant, tb_openat, sys_open. intros H.
  destruct (failed (answer w)) eqn:Fa.
  - cbn [Z.ltb Z.compare] in H. injection H as <- <- <-.
    eexists. cbn [step trace fds errno]. split; [reflexivity|].
    split; [reflexivity|]. left. eexists. auto.
  - unfold failed in Fa. apply Z.ltb_ge in Fa. cbv beta iota zeta in H.
    set (fd := alloc_fd (ans_ret (answer w)) (fds w)) in *.
    pose proof (alloc_fd_nonneg _ (fds w) Fa) as Hfd. fold fd in Hfd.
    assert (Hn : (fd <? 0) = false) by (apply Z.ltb_ge; lia).
    rewrite Hn in H. cbv beta iota zeta in H. rewrite Hn in H.
    unfold tb_write_char in H.
    set (A := Attr (dirname d) "authorized") in *.
    set (w1 := step (errno w) ((fd, A) :: fds w) (EvOpen A O_WRONLY fd) w) in *.
    destruct (tb_write_char_retry _ fd (char_of_int security) error w1)
      as [[ok1 err1] w2] eqn:Ew.
    apply tb_write_char_retry_spec in Ew; [|lia].
    destruct Ew as (j & r & e & Ht & Hfds & Hok & Hres).
    cbn [step trace fds w1] in Ht, Hfds. rewrite file_of_head in Ht.
    assert (Hshape : forall c w3,
               trace w3 = trace w2 ++ [EvClose fd (Some A) c] ->
               trace w3 = trace w ++ EvOpen A O_WRONLY fd
                  :: repeat (interrupted_write fd (Some A) [char_of_int security]) j
                  ++ [EvWrite fd (Some A) [char_of_int security] r e;
                      EvClose fd (Some A) c]).
    { intros c w3 ->. rewrite Ht, <- !app_assoc. reflexivity. }
    subst ok1. destruct (0 <? r) eqn:Er; cbn [negb] in H.
    + apply Z.ltb_lt in Er. destruct Hres as [[Hr _]|[Hr ->]]; [lia|].
      assert (r = 1) by lia. subst r.
      unfold tb_close, sys_close in H.
      destruct (failed (answer w2)) eqn:Fc.
      * cbv beta iota zeta in H. cbn [Z.eqb] in H. injection H as <- <- <-.
        eexists. split; [apply Hshape; cbn [step trace]; rewrite Hfds,
                         file_of_head; reflexivity|].
        cbn [step fds]. rewrite Hfds, release_head. split; [reflexivity|].
        right. exists fd, j, 1, e, (-1). split; [exact Hfd|].
        split; [reflexivity|]. right; right; left.
        cbn [step errno]. eauto 10.
      * cbv beta iota zeta in H. cbn [Z.eqb] in H. injection H as <- <- <-.
        eexists. split; [apply Hshape; cbn [step trace]; rewrite Hfds,
                         file_of_head; reflexivity|].
        cbn [step fds]. rewrite Hfds, release_head. split; [reflexivity|].
        right. exists fd, j, 1, e, 0. split; [exact Hfd|].
        split; [reflexivity|]. right; right; right. auto.
    + apply Z.ltb_ge in Er. unfold sys_close in H. cbv beta iota zeta in H.
      injection H as <- <- <-.
      eexists. split; [apply Hshape; cbn [step trace]; rewrite Hfds,
                       file_of_head; reflexivity|].
      cbn [step fds]. rewrite Hfds, release_head. split; [reflexivity|].
      right. exists fd, j, r, e, (if failed (answer w2) then -1 else 0).
      split; [exact Hfd|]. split; [reflexivity|].
      destruct Hres as [(-> & He & ->)|[Hr ->]].
      * left. auto.
      * right; left. repeat split; lia.
Qed.

(** ** The engine

    Every run of a function of the engine goes one of the ways listed for
    it. *)

Section Engine.

Variable TB_KEY_CHARS : nat.

Lemma copy_key_run (key : GFile) (to : Z) (error : option GError)
  (w w' : World) (ok : gboolean) (err : option GError) :
  copy_key TB_KEY_CHARS key to error w = (ok, err, w') ->
  fd_in_use to (fds w) = true ->
  exists evs,
    trace w' = trace w ++ evs
    /\ copy_run TB_KEY_CHARS key to (file_of to (fds w)) error evs ok err
    /\ (fds w' = fds w
        \/ exists from,
          fd_in_use from (fds w) = false /\ fds w' = (from, Path key) :: fds w).
Proof.
  intros H Hto. apply copy_key_spec in H.
  destruct H as (from & reads & writes & Ht & Hall & Hb & Hres).
  exists (EvOpen (Path key) O_RDONLY from :: reads ++ writes).
  split; [exact Ht|]. split.
  - exists from, reads, writes. split; [reflexivity|]. split; [exact Hall|].
    split; [exact Hb|].
    destruct Hres as [(-> & _ & -> & -> & -> & ->)
                     |(Hfrom & Hfresh & _ & [(-> & -> & He)|(Hk & Hw)])].
    + left. eauto 10.
    + right; left. auto.
    + right; right. rewrite (file_of_other _ _ _ _ Hto Hfresh) in Hw. auto.
  - destruct Hres as [(_ & Hf & _)|(_ & Hfresh & Hf & _)]; eauto.
Qed.

Lemma authorize_in_dir_spec (mgr : TbManager) (dev : TbDevice) (u : string)
  (security : Z) (d : DIR) (error : option GError) (w w' : World)
  (ok : gboolean) (err : option GError) :
  authorize_in_dir TB_KEY_CHARS mgr dev u security d error w = (ok, err, w') ->
  exists evs,
    trace w' = trace w ++ evs
    /\ authorize_run TB_KEY_CHARS dev u (dirname d) security error evs ok err.
Proof.
  unfold authorize_in_dir. intros H.
  destruct (tb_openat d "unique_id" O_RDONLY error w) as [[fd err0] w1] eqn:Eo.
  apply tb_openat_spec in Eo.
  destruct Eo as (Ht1 & [(-> & _ & e0 & ->)|(Hfd & _ & Hfds1 & ->)]).
  { cbn [Z.ltb Z.compare] in H. injection H as <- <- <-.
    eexists. split; [exact Ht1|]. left. eauto. }
  assert (Hn : (fd <? 0) = false) by (apply Z.ltb_ge; lia).
  rewrite Hn in H. set (U := Attr (dirname d) "unique_id") in *.
  unfold tb_verify_uid in H.
  destruct (tb_verify_uid_retry _ fd u error w1) as [[ok1 err1] w2] eqn:Ev.
  apply tb_verify_uid_retry_spec in Ev; [|lia].
  destruct Ev as (k & r & e & data & Ht2 & Hfds2 & Hres).
  rewrite Hfds1, file_of_head in Ht2. rewrite Hfds1 in Hfds2.
  destruct (sys_close fd w2) as [c w3] eqn:Ec.
  apply sys_close_spec in Ec. destruct Ec as (Ht3 & Hfds3 & _).
  rewrite Hfds2, file_of_head in Ht3. rewrite Hfds2, release_head in Hfds3.
  assert (Hshape : forall rest w9,
             trace w9 = trace w3 ++ rest ->
             trace w9 = trace w ++ EvOpen U O_RDONLY fd
                  :: repeat (interrupted_read fd (Some U) (String.length u)) k
                  ++ EvRead fd (Some U) (String.length u) r e data
                  :: EvClose fd (Some U) c :: rest).
  { intros rest w9 ->. rewrite Ht3, Ht2, Ht1, <- !app_assoc. reflexivity. }
  destruct Hres as [(-> & He & -> & ->)
                   |[(Hr & -> & -> & ->)|(Hr & Hd & -> & Herr)]];
    cbn [negb] in H.
  { injection H as <- <- <-. eexists. split; [apply Hshape; symmetry;
                                              apply app_nil_r|].
    right. exists fd, k, (-1), e, data, c, []. split; [exact Hfd|].
    split; [reflexivity|]. left. auto 10. }
  2:{ injection H as <- <- <-. eexists. split; [apply Hshape; symmetry;
                                                apply app_nil_r|].
      right. exists fd, k, r, e, data, c, []. split; [exact Hfd|].
      split; [reflexivity|]. right; left. auto 10. }
  (* the uid is verified *)
  assert (Hdone : forall rest,
             trace w' = trace w3 ++ rest ->
             after_verify TB_KEY_CHARS dev (dirname d) security fd error rest ok err ->
             exists evs,
               trace w' = trace w ++ evs
               /\ authorize_run TB_KEY_CHARS dev u (dirname d) security error evs ok err).
  { intros rest Ht Ha. eexists. split; [apply Hshape; exact Ht|].
    right. exists fd, k, r, e, (list_ascii_of_string u), c, rest.
    split; [exact Hfd|]. split; [reflexivity|]. right; right. auto. }
  destruct (security =? char_code "2") eqn:Es.
  2:{ apply Z.eqb_neq in Es. apply write_grant_spec in H.
      destruct H as (evs & Ht & _ & Hg). apply (Hdone evs Ht). left. auto. }
  apply Z.eqb_eq in Es.
  destruct (tb_manager_ensure_key mgr dev FALSE FALSE error w3)
    as [[[key created] err4] w4] eqn:Ek.
  apply tb_manager_ensure_key_spec in Ek.
  destruct Ek as (Ht4 & Hfds4 & [(-> & ->)|([kf ->] & ->)]).
  { injection H as <- <- <-. apply (Hdone _ Ht4). right. split; [exact Es|].
    eexists _, _, []. split; [reflexivity|]. left. auto. }
  assert (Hprov : forall rest,
             trace w' = trace w4 ++ rest ->
             provision_run TB_KEY_CHARS (dirname d) security fd kf created error rest ok err ->
             exists evs,
               trace w' = trace w ++ evs
               /\ authorize_run TB_KEY_CHARS dev u (dirname d) security error evs ok err).
  { intros rest Ht Hp.
    apply (Hdone (EvEnsureKey (uid dev) FALSE (Some kf) created :: rest)).
    - rewrite Ht, Ht4, <- app_assoc. reflexivity.
    - right. split; [exact Es|]. eexists _, _, rest. split; [reflexivity|].
      right. eauto. }
  destruct (tb_openat d "key" O_WRONLY error w4) as [[keyfd err5] w5] eqn:Eo.
  apply tb_openat_spec in Eo.
  destruct Eo as (Ht5 & [(-> & _ & e5 & ->)|(Hkfd & Hkfresh & Hfds5 & ->)]).
  { cbn [Z.ltb Z.compare] in H. injection H as <- <- <-.
    apply (Hprov _ Ht5). left. eauto. }
  assert (Hkn : (keyfd <? 0) = false) by (apply Z.ltb_ge; lia).
  rewrite Hkn in H. set (K := Attr (dirname d) "key") in *.
  destruct (copy_key TB_KEY_CHARS kf keyfd error w5) as [[okc errc] w6] eqn:Ecp.
  apply copy_key_run in Ecp;
    [|rewrite Hfds5; cbn [fd_in_use existsb fst]; now rewrite Z.eqb_refl].
  destruct Ecp as (cevs & Ht6 & Hcr & Hfds6).
  rewrite Hfds5, file_of_head in Hcr.
  assert (Hcopy : forall rest,
             trace w' = trace w6 ++ rest ->
             (okc = FALSE /\ ok = FALSE /\ err = errc
              /\ exists stale c, rest = [EvClose fd stale c])
             \/ (okc = TRUE
                 /\ exists c rest2,
                   rest = EvClose keyfd (Some K) c :: rest2
                   /\ ((c = -1 /\ rest2 = [] /\ ok = FALSE
                        /\ exists e,
                          err = g_set_error errc (g_io_error_from_errno e)
                                            (Could_not_close_file e))
                       \/ (c = 0
                           /\ grant_run (dirname d)
                                (if created then char_code "1" else security)
                                errc rest2 ok err))) ->
             exists evs,
               trace w' = trace w ++ evs
               /\ authorize_run TB_KEY_CHARS dev u (dirname d) security error evs ok err).
  { intros rest Ht Hr'.
    apply (Hprov (EvOpen K O_WRONLY keyfd :: cevs ++ rest)).
    - rewrite Ht, Ht6, Ht5, <- !app_assoc. reflexivity.
    - right. exists keyfd, cevs, okc, errc, rest. auto. }
  destruct okc; cbn [negb] in H.
  2:{ destruct (sys_close fd w6) as [c' w7] eqn:Ec'.
      apply sys_close_spec in Ec'. destruct Ec' as (Ht7 & _ & _).
      injection H as <- <- <-. apply (Hcopy _ Ht7). left. eauto 10. }
  destruct (tb_close keyfd errc w6) as [[ok7 err7] w7] eqn:Ec'.
  apply tb_close_spec in Ec'. destruct Ec' as (c' & Ht7 & _ & Hc').
  assert (Htag : file_of keyfd (fds w6) = Some K).
  { destruct Hfds6 as [->|(from & Hfresh & ->)]; rewrite Hfds5 in *.
    - apply file_of_head.
    - rewrite file_of_other; [apply file_of_head| |exact Hfresh].
      cbn [fd_in_use existsb fst]. now rewrite Z.eqb_refl. }
  rewrite Htag in Ht7.
  destruct Hc' as [(-> & -> & ->)|(-> & -> & e7 & ->)]; cbn [negb] in H.
  - apply write_grant_spec in H. destruct H as (gevs & Ht8 & _ & Hg).
    apply (Hcopy (EvClose keyfd (Some K) 0 :: gevs)).
    + rewrite Ht8, Ht7, <- app_assoc. reflexivity.
    + right. split; [reflexivity|]. eexists _, _. split; [reflexivity|].
      right. auto.
  - injection H as <- <- <-. apply (Hcopy _ Ht7). right.
    split; [reflexivity|]. eexists _, []. split; [reflexivity|]. left. eauto 10.
Qed.

Lemma tb_device_authorize_spec (mgr : TbManager) (dev dev' : TbDevice)
  (u : string) (error : option GError) (w w' : World) (ok : gboolean)
  (err : option GError) :
  uid dev = Some u ->
  tb_device_authorize TB_KEY_CHARS mgr dev error w = Returned (ok, dev', err) w' ->
  dev' = dev
  /\ exists evs,
    trace w' = trace w ++ evs
    /\ device_run TB_KEY_CHARS dev u (tb_manager_get_security_level mgr) error evs ok err.
Proof.
  unfold tb_device_authorize. intros -> H.
  destruct (tb_manager_get_security_level mgr <? 1) eqn:Es.
  - apply Z.ltb_lt in Es. injection H as <- <- <- <-. split; [reflexivity|].
    exists []. rewrite app_nil_r. split; [reflexivity|]. left. auto.
  - apply Z.ltb_ge in Es. unfold tb_device_get_sysfs_path in H.
    destruct (sysfs dev) as [dir|] eqn:Ed; [|discriminate H].
    unfold sys_opendir in H. destruct (failed (answer w)) eqn:Fa.
    + injection H as <- <- <- <-. split; [reflexivity|]. eexists.
      cbn [step trace errno]. split; [reflexivity|]. right.
      split; [exact Es|]. exists dir. split; [exact Ed|]. left. eauto.
    + unfold failed in Fa. apply Z.ltb_ge in Fa.
      pose proof (alloc_fd_nonneg _ (fds w) Fa) as Hd.
      set (dfd := alloc_fd (ans_ret (answer w)) (fds w)) in *.
      destruct (authorize_in_dir _ _ _ _ _ _ _ _) as [[ok1 err1] w1] eqn:Ea.
      apply authorize_in_dir_spec in Ea. destruct Ea as (body & Ht & Hrun).
      injection H as <- <- <- <-. split; [reflexivity|].
      exists (EvOpendir dir dfd :: body ++ [EvClosedir dfd]).
      unfold sys_closedir. cbn [step trace dirfd dirname] in *.
      split; [rewrite Ht, <- !app_assoc; reflexivity|].
      right. split; [exact Es|]. exists dir. split; [exact Ed|]. right.
      exists dfd, body. auto.
Qed.

End Engine.

(** ** What is logged once the uid is verified *)

Section Late.

Variable TB_KEY_CHARS : nat.

Lemma grant_run_late (dir : string) (security : Z) (error : option GError)
  (evs : list Event) (ok : gboolean) (err : option GError) :
  grant_run dir security error evs ok err -> Forall (late_event dir) evs.
Proof.
  intros [(e & -> & _)|(fd & j & r & e & c & _ & -> & _)];
    each_event; constructor.
Qed.

Lemma copy_run_late (dir : string) (key : GFile) (to : Z)
  (error : option GError) (evs : list Event) (ok : gboolean)
  (err : option GError) :
  copy_run TB_KEY_CHARS key to (Some (Attr dir "key")) error evs ok err ->
  Forall (late_event dir) evs.
Proof.
  intros (from & reads & writes & -> & Hall & _ & Hres).
  each_event; [constructor| |].
  - eapply Forall_impl; [|exact Hall]. intros [] Hr; try contradiction.
    destruct Hr as [_ ->]. constructor.
  - destruct Hres as [(_ & _ & -> & _)
                     |[(_ & -> & _)|(_ & _ & j & buf & r & e & _ & -> & _)]];
      each_event; constructor.
Qed.

Lemma provision_run_late (dir : string) (security fd : Z) (kf : GFile)
  (created : bool) (error : option GError) (evs : list Event) (ok : gboolean)
  (err : option GError) :
  provision_run TB_KEY_CHARS dir security fd kf created error evs ok err ->
  Forall (late_event dir) evs.
Proof.
  intros [(e & -> & _)|(keyfd & cevs & okc & errc & rest & _ & -> & Hc & Hr)].
  - each_event; constructor.
  - each_event; [constructor|eapply copy_run_late; exact Hc|].
    destruct Hr as [(_ & _ & _ & stale & c & ->)
                   |(_ & c & rest2 & -> & [(_ & -> & _)|(_ & Hg)])];
      each_event; try constructor.
    eapply grant_run_late; exact Hg.
Qed.

Lemma after_verify_late (dev : TbDevice) (dir : string) (security fd : Z)
  (error : option GError) (evs : list Event) (ok : gboolean)
  (err : option GError) :
  after_verify TB_KEY_CHARS dev dir security fd error evs ok err ->
  Forall (late_event dir) evs
  \/ exists key created rest,
      evs = EvEnsureKey (uid dev) FALSE key created :: rest
      /\ Forall (late_event dir) rest.
Proof.
  intros [(_ & Hg)|(_ & key & created & rest & -> & Hr)].
  - left. eapply grant_run_late; exact Hg.
  - right. exists key, created, rest. split; [reflexivity|].
    destruct Hr as [(_ & -> & _)|(kf & _ & Hp)]; [constructor|].
    eapply provision_run_late; exact Hp.
Qed.

End Late.

(** ** Properties of the engine *)

Section EngineProperties.

Variable TB_KEY_CHARS : nat.

(** C5: at the security level None (and at any level below 1)
    [tb_device_authorize] succeeds at once for a device that has a uid and
    makes no external call at all: the world is handed back as it was found,
    no directory opened, nothing read, nothing written. *)
Theorem authorize_none_is_noop (mgr : TbManager) (dev : TbDevice) (u : string)
  (error : option GError) (w : World) :
  uid dev = Some u ->
  tb_manager_get_security_level mgr <= TB_SECURITY_NONE ->
  tb_device_authorize TB_KEY_CHARS mgr dev error w
  = Returned (TRUE, dev, error) w.
Proof.
  intros Hu Hs. unfold tb_device_authorize. rewrite Hu.
  unfold TB_SECURITY_NONE in Hs.
  destruct (tb_manager_get_security_level mgr <? 1) eqn:E; [reflexivity|].
  apply Z.ltb_ge in E. lia.
Qed.

(** C1: when a read of [unique_id] delivers bytes that are not exactly the
    uid of the device (too few of them, or different ones),
    [tb_device_authorize] returns [FALSE] with the error of the verification
    ([G_IO_ERROR_FAILED], "could not read full uid" or "unique id
    verification failed"), and the run makes no write at all and opens
    neither [key] nor [authorized]. *)
Theorem verify_uid_mismatch_fails (mgr : TbManager) (dev dev' : TbDevice)
  (u : string) (w w' : World) (ok : gboolean) (err : option GError)
  (evs : list Event) (fd : Z) (dir : string) (nbyte : nat) (r e : Z)
  (data : bytes) :
  uid dev = Some u ->
  tb_device_authorize TB_KEY_CHARS mgr dev None w = Returned (ok, dev', err) w' ->
  trace w' = trace w ++ evs ->
  In (EvRead fd (Some (Attr dir "unique_id")) nbyte r e data) evs ->
  0 <= r ->
  data <> list_ascii_of_string u ->
  ok = FALSE
  /\ (err = Some (mkGError G_IO_ERROR_FAILED Could_not_read_full_uid)
      \/ err = Some (mkGError G_IO_ERROR_FAILED
                              (Unique_id_verification_failed data u)))
  /\ Forall (fun ev => is_write ev = false
                       /\ opens_attr "key" ev = false
                       /\ opens_attr "authorized" ev = false) evs.
Proof.
  intros Hu H Ht Hin Hr Hd.
  destruct (tb_device_authorize_spec _ _ _ _ _ _ _ _ _ _ Hu H)
    as (_ & evs' & Ht' & Hrun).
  rewrite Ht' in Ht. apply app_inv_head in Ht. subst evs'.
  destruct Hrun as [(_ & -> & _)|(_ & sd & _ & [(-> & _)|(dfd & body & _ & -> & Ha)])].
  - contradiction.
  - in_cases Hin.
  - destruct Ha as [(e0 & -> & _)|(ufd & k & r' & e' & data' & c & rest & _ & -> & Hv)].
    + in_cases Hin.
    + in_cases Hin.
      * apply repeat_spec in Hin. unfold interrupted_read in Hin.
        injection Hin as _ _ _ Hr' _ _. lia.
      * injection Hin as -> -> -> -> -> ->.
        destruct Hv as [(-> & _)|[(_ & _ & -> & -> & Herr)|(_ & -> & _)]];
          [lia| |contradiction].
        split; [reflexivity|]. split; [exact Herr|].
        each_event; repeat split; reflexivity.
      * destruct Hv as [(_ & _ & -> & _)|[(_ & _ & -> & _)|(_ & _ & Hav)]];
          try contradiction.
        apply after_verify_late in Hav.
        destruct Hav as [Hav|(key & created & rest' & -> & Hav)];
          [|destruct Hin as [Hin|Hin]; [discriminate Hin|]];
          rewrite Forall_forall in Hav; apply Hav in Hin; inversion Hin.
Qed.

(** *** The byte of the grant *)

Lemma grant_run_writes (dir : string) (security : Z) (error : option GError)
  (evs : list Event) (ok : gboolean) (err : option GError)
  (fd : Z) (f : option File) (data : bytes) (r e : Z) :
  grant_run dir security error evs ok err ->
  In (EvWrite fd f data r e) evs ->
  data = [char_of_int security].
Proof.
  intros [(e0 & -> & _)|(gfd & j & r' & e' & c & _ & -> & _)] Hin;
    in_cases Hin.
  - apply repeat_spec in Hin. now injection Hin.
  - now injection Hin.
Qed.

Lemma grant_run_success (dir : string) (security : Z) (error : option GError)
  (evs : list Event) (err : option GError) :
  grant_run dir security error evs TRUE err ->
  err = error
  /\ exists fd e,
    In (EvWrite fd (Some (Attr dir "authorized")) [char_of_int security] 1 e) evs.
Proof.
  intros [(e0 & _ & Hf & _)|(gfd & j & r' & e' & c & _ & -> & Hr)];
    [discriminate Hf|].
  destruct Hr as [(_ & _ & Hf & _)|[(_ & Hf & _)|[(_ & _ & Hf & _)|(-> & _ & _ & ->)]]];
    try discriminate Hf.
  split; [reflexivity|]. exists gfd, e'. right. apply in_or_app. right. now left.
Qed.

Lemma copy_run_writes (key : GFile) (to : Z) (tag : option File)
  (error : option GError) (evs : list Event) (ok : gboolean)
  (err : option GError) (fd : Z) (f : option File) (data : bytes) (r e : Z) :
  copy_run TB_KEY_CHARS key to tag error evs ok err ->
  In (EvWrite fd f data r e) evs ->
  fd = to /\ f = tag /\ List.length data = TB_KEY_CHARS.
Proof.
  intros (from & reads & writes & -> & Hall & _ & Hres) Hin. in_cases Hin.
  - rewrite Forall_forall in Hall. apply Hall in Hin. contradiction Hin.
  - destruct Hres as [(_ & _ & -> & _)
                     |[(_ & -> & _)|(_ & _ & j & buf & r' & e' & Hl & -> & _)]];
      in_cases Hin.
    + apply repeat_spec in Hin. injection Hin as <- <- <- _ _. auto.
    + injection Hin as <- <- <- _ _. auto.
Qed.




(** *** The key comes before the grant *)

Lemma keyed_app_l (dir : string) (l1 l2 : list Event) :
  Forall no_grant_write l1 -> keyed TB_KEY_CHARS dir l2 -> keyed TB_KEY_CHARS dir (l1 ++ l2).
Proof.
  intros H1 [H2|(head & keyfd & buf & e & rest & -> & Hl & Hh)].
  - left. apply Forall_app. auto.
  - right. exists (l1 ++ head), keyfd, buf, e, rest.
    rewrite <- app_assoc. split; [reflexivity|]. split; [exact Hl|].
    apply Forall_app. auto.
Qed.

Lemma keyed_app_r (dir : string) (l1 l2 : list Event) :
  keyed TB_KEY_CHARS dir l1 -> Forall no_grant_write l2 -> keyed TB_KEY_CHARS dir (l1 ++ l2).
Proof.
  intros [H1|(head & keyfd & buf & e & rest & -> & Hl & Hh)] H2.
  - left. apply Forall_app. auto.
  - right. exists head, keyfd, buf, e, (rest ++ l2).
    rewrite <- app_assoc. auto.
Qed.

Lemma keyed_cons (dir : string) (ev : Event) (l : list Event) :
  no_grant_write ev -> keyed TB_KEY_CHARS dir l -> keyed TB_KEY_CHARS dir (ev :: l).
Proof.
  intros H. apply (keyed_app_l dir [ev] l). constructor; [exact H|constructor].
Qed.

Lemma copy_run_no_grant (dir : string) (key : GFile) (to : Z)
  (error : option GError) (evs : list Event) (ok : gboolean)
  (err : option GError) :
  copy_run TB_KEY_CHARS key to (Some (Attr dir "key")) error evs ok err ->
  Forall no_grant_write evs.
Proof.
  intros Hc. apply Forall_forall. intros ev Hin.
  destruct ev; try reflexivity.
  apply (copy_run_writes _ _ _ _ _ _ _ _ _ _ _ _ Hc) in Hin.
  destruct Hin as (_ & -> & _). reflexivity.
Qed.

Lemma copy_run_complete (key : GFile) (to : Z) (tag : option File)
  (error : option GError) (evs : list Event) (err : option GError) :
  copy_run TB_KEY_CHARS key to tag error evs TRUE err ->
  err = error
  /\ exists head buf e,
    evs = head ++ [EvWrite to tag buf (Z.of_nat TB_KEY_CHARS) e]
    /\ List.length buf = TB_KEY_CHARS.
Proof.
  intros (from & reads & writes & -> & _ & _ & Hres).
  destruct Hres as [(_ & _ & _ & Hf & _)
                   |[(_ & _ & Hf & _)
                    |(_ & _ & j & buf & r & e & Hl & -> & _ & _ & Hr)]];
    try discriminate Hf.
  destruct Hr as [(-> & _ & ->)|(_ & Hf & _)]; [|discriminate Hf].
  split; [reflexivity|].
  exists (EvOpen (Path key) O_RDONLY from
          :: reads ++ repeat (interrupted_write to tag buf) j), buf, e.
  split; [|exact Hl]. cbn [app]. now rewrite <- !app_assoc.
Qed.

Lemma provision_run_keyed (dir : string) (security ufd : Z) (kf : GFile)
  (created : bool) (error : option GError) (evs : list Event) (ok : gboolean)
  (err : option GError) :
  provision_run TB_KEY_CHARS dir security ufd kf created error evs ok err ->
  keyed TB_KEY_CHARS dir evs.
Proof.
  intros [(e0 & -> & _)|(keyfd & cevs & okc & errc & rest & _ & -> & Hc & Hr)].
  - left. each_event; reflexivity.
  - pose proof (copy_run_no_grant _ _ _ _ _ _ _ Hc) as Hng.
    apply keyed_cons; [reflexivity|].
    destruct Hr as [(_ & _ & _ & stale & c & ->)
                   |(-> & c & rest2 & -> & [(_ & -> & _)|(-> & _)])].
    + left. each_event; [exact Hng|reflexivity].
    + left. each_event; [exact Hng|reflexivity].
    + apply copy_run_complete in Hc.
      destruct Hc as (_ & head & buf & e & -> & Hl).
      apply Forall_app in Hng. destruct Hng as [Hh _].
      right. exists head, keyfd, buf, e, rest2.
      rewrite <- app_assoc. auto.
Qed.

Lemma split_after {A} (P : A -> Prop) (l1 l2 pre post : list A) (x : A) :
  l1 ++ l2 = pre ++ x :: post ->
  Forall (fun y => ~ P y) l1 -> P x ->
  exists pre', pre = l1 ++ pre'.
Proof.
  revert pre. induction l1 as [|a l1 IH]; intros pre He Hall Hx.
  - exists pre. reflexivity.
  - inversion Hall as [|? ? Ha Hall']; subst.
    destruct pre as [|b pre]; cbn [app] in He; injection He as -> He.
    + contradiction.
    + destruct (IH pre He Hall' Hx) as (pre' & ->). exists pre'. reflexivity.
Qed.

(** C3: in a run at the security level Secure, whatever precedes a write to
    [authorized] contains the write of a whole key ([TB_KEY_CHARS] bytes,
    all of them taken) to [key], followed by the faultless close of that
    descriptor.  A run in which the key is not provisioned that far writes
    no grant. *)
Theorem key_before_grant (mgr : TbManager) (dev dev' : TbDevice) (u : string)
  (w w' : World) (ok : gboolean) (err : option GError) (evs : list Event)
  (pre post : list Event) (fd : Z) (dir : string) (data : bytes) (r e : Z) :
  uid dev = Some u ->
  tb_manager_get_security_level mgr = TB_SECURITY_SECURE ->
  tb_device_authorize TB_KEY_CHARS mgr dev None w = Returned (ok, dev', err) w' ->
  trace w' = trace w ++ evs ->
  evs = pre ++ EvWrite fd (Some (Attr dir "authorized")) data r e :: post ->
  exists p1 p2 keyfd buf e',
    pre = p1
          ++ EvWrite keyfd (Some (Attr dir "key")) buf (Z.of_nat TB_KEY_CHARS) e'
          :: EvClose keyfd (Some (Attr dir "key")) 0 :: p2
    /\ List.length buf = TB_KEY_CHARS.
Proof.
  intros Hu Hs H Ht Hsplit.
  destruct (tb_device_authorize_spec _ _ _ _ _ _ _ _ _ _ Hu H)
    as (_ & evs' & Ht' & Hrun).
  rewrite Ht' in Ht. apply app_inv_head in Ht. subst evs'.
  rewrite Hs in Hrun. unfold TB_SECURITY_SECURE in *.
  assert (Hin : In (EvWrite fd (Some (Attr dir "authorized")) data r e) evs)
    by (rewrite Hsplit; apply in_elt).
  assert (Hno : forall l, Forall no_grant_write l ->
                 ~ In (EvWrite fd (Some (Attr dir "authorized")) data r e) l).
  { intros l Hl Hi. rewrite Forall_forall in Hl. apply Hl in Hi.
    discriminate Hi. }
  destruct Hrun as [(Hlt & _)|(_ & sd & _ & [(-> & _)|(dfd & body & _ & -> & Ha)])].
  { vm_compute in Hlt. discriminate Hlt. }
  { in_cases Hin. }
  destruct Ha as [(e0 & -> & _)
                 |(ufd & k & r' & e' & data' & c & rest & _ & -> & Hv)].
  { in_cases Hin. }
  destruct Hv as [(_ & _ & -> & _)
                 |[(_ & _ & -> & _)|(_ & _ & [(Hne & _)|(_ & Hav)])]];
    try solve [in_cases Hin].
  { now contradiction Hne. }
  destruct Hav as (key & created & prest & -> & Hp).
  destruct Hp as [(_ & -> & _)|(kf & -> & Hp)].
  { in_cases Hin. }
  pose proof (provision_run_late _ _ _ _ _ _ _ _ _ _ Hp) as Hlate.
  rewrite Forall_forall in Hlate.
  in_cases Hin. pose proof (Hlate _ Hin) as Hl. inversion Hl; subst.
  apply provision_run_keyed in Hp.
  assert (Hk : keyed TB_KEY_CHARS dir
                 (EvOpendir dir dfd
                  :: (EvOpen (Attr dir "unique_id") O_RDONLY ufd
                      :: repeat (interrupted_read
                                   ufd (Some (Attr dir "unique_id"))
                                   (String.length u)) k
                      ++ EvRead ufd (Some (Attr dir "unique_id"))
                                (String.length u) r' e' data'
                      :: EvClose ufd (Some (Attr dir "unique_id")) c
                      :: EvEnsureKey (uid dev) FALSE (Some kf) created :: prest)
                  ++ [EvClosedir dfd])).
  { apply keyed_cons; [reflexivity|].
    apply keyed_app_r; [|each_event; reflexivity].
    apply keyed_cons; [reflexivity|].
    apply keyed_app_l; [each_event; reflexivity|].
    repeat (apply keyed_cons; [reflexivity|]). exact Hp. }
  destruct Hk as [Hk|(head & keyfd & buf & e1 & tl' & Hk & Hlen & Hh)].
  { exfalso. apply (Hno _ Hk). rewrite Hsplit. apply in_elt. }
  rewrite Hk in Hsplit.
  change (head ++ EvWrite keyfd (Some (Attr dir "key")) buf
                          (Z.of_nat TB_KEY_CHARS) e1
               :: EvClose keyfd (Some (Attr dir "key")) 0 :: tl')
    with (head ++ [EvWrite keyfd (Some (Attr dir "key")) buf
                           (Z.of_nat TB_KEY_CHARS) e1;
                   EvClose keyfd (Some (Attr dir "key")) 0] ++ tl') in Hsplit.
  rewrite app_assoc in Hsplit.
  apply (split_after (fun ev => writes_attr "authorized" ev = true)) in Hsplit.
  - destruct Hsplit as (pre' & ->). exists head, pre', keyfd, buf, e1.
    rewrite <- app_assoc. auto.
  - apply Forall_app. split.
    + eapply Forall_impl; [|exact Hh]. intros ev Hev. unfold no_grant_write in Hev.
      congruence.
    + each_event; discriminate.
  - reflexivity.
Qed.

(** *** What a run reports *)

End EngineProperties.

(** ** Properties of [copy_key] *)

Section CopyKeyProperties.

Variable TB_KEY_CHARS : nat.

Lemma reads_are_not_writes (fd : Z) (f : option File) (l : list Event) :
  Forall (is_read_of fd f) l -> filter is_write l = [].
Proof.
  induction 1 as [|ev l Hev _ IH]; [reflexivity|].
  destruct ev; try contradiction. exact IH.
Qed.


Lemma bytes_read_interrupted_writes (fd : Z) (f : option File) (buf : bytes)
  (j : nat) :
  bytes_read (repeat (interrupted_write fd f buf) j) = 0.
Proof. induction j as [|j IH]; cbn; [reflexivity|]. exact IH. Qed.

(** C7: [copy_key] reads the key with one call of [tb_read_all] for
    [TB_KEY_CHARS] bytes and goes on only when exactly that many have come.
    When the reads deliver fewer, it returns [FALSE] with an error set and
    makes no write; if the key file could be opened, the error is that of
    the reading ("could not read entire key", or the input error), not one
    that takes the key for absent. *)
Theorem copy_key_short_read (key : GFile) (to : Z) (w w' : World)
  (ok : gboolean) (err : option GError) (evs : list Event) :
  copy_key TB_KEY_CHARS key to None w = (ok, err, w') ->
  trace w' = trace w ++ evs ->
  bytes_read evs <= Z.of_nat TB_KEY_CHARS
  /\ (ok = TRUE -> bytes_read evs = Z.of_nat TB_KEY_CHARS)
  /\ (bytes_read evs < Z.of_nat TB_KEY_CHARS ->
      ok = FALSE
      /\ filter is_write evs = []
      /\ exists ge,
        err = Some ge
        /\ forall from,
          In (EvOpen (Path key) O_RDONLY from) evs -> 0 <= from ->
          ge = mkGError G_IO_ERROR_FAILED Could_not_read_entire_key
          \/ exists e,
            ge = mkGError (g_io_error_from_errno e) (Input_error_while_reading e)).
Proof.
  intros H Ht. apply copy_key_spec in H.
  destruct H as (from & reads & writes & Ht' & Hall & Hb & Hres).
  rewrite Ht' in Ht. apply app_inv_head in Ht. subst evs.
  cbn [bytes_read fold_right filter is_write]. fold (bytes_read (reads ++ writes)).
  rewrite bytes_read_app, filter_app, (reads_are_not_writes _ _ _ Hall).
  destruct Hres as [(-> & _ & -> & -> & -> & ->)
                   |(Hfrom & _ & _ & [(-> & -> & Herr)|(Hk & Hw)])].
  - cbn. split; [lia|]. split; [discriminate|]. intros _.
    split; [reflexivity|]. split; [reflexivity|]. eexists. split; [reflexivity|].
    intros from' Hin Hpos. in_cases Hin. injection Hin as <-. lia.
  - cbn [bytes_read fold_right app filter]. rewrite Z.add_0_r.
    split; [exact Hb|]. split; [discriminate|]. intros _.
    split; [reflexivity|]. split; [reflexivity|].
    destruct Herr as [(e & ->)|(_ & ->)]; eexists; (split; [reflexivity|]);
      intros _ _ _; eauto.
  - destruct Hw as (j & buf & r & e & _ & -> & _ & _ & Hr).
    rewrite bytes_read_app, bytes_read_interrupted_writes. cbn [bytes_read fold_right].
    split; [lia|]. split; [lia|]. intros Hlt. lia.
Qed.

End CopyKeyProperties.

(** ** Properties of the commands *)

Section CommandProperties.

Variable g_option_context_parse :
  bool -> list string -> option (list string * (bool * bool)).

Variable engine :
  TbManager -> TbDevice -> option GError -> World ->
  Outcome (gboolean * TbDevice * option GError).

(** C9: when the device that [auto] looks up is not in the store, or its
    policy is not [TB_POLICY_AUTO], [auto_device] returns [EXIT_SUCCESS] and
    all it has done is print one line: no answer of the environment is
    consumed, no descriptor opened, the device is as it was found.  This
    holds whatever the engine would do, so the engine is not called. *)
Theorem auto_skips_engine (mgr : TbManager) (argv argv' : list string)
  (flags : bool * bool) (dev : TbDevice) (w : World) :
  g_option_context_parse false argv = Some (argv', flags) ->
  (2 <= List.length argv')%nat ->
  tb_manager_lookup mgr (nth 1 argv' EmptyString) = Some dev ->
  tb_device_in_store dev = false \/ tb_device_get_policy dev <> TB_POLICY_AUTO ->
  auto_device_with g_option_context_parse engine mgr argv w
  = Returned (EXIT_SUCCESS, Some dev)
             (g_print (if tb_device_in_store dev
                       then Not_setup_for_auto (tb_device_get_uid dev)
                       else Not_in_store (tb_device_get_uid dev)) w).
Proof.
  intros Hp Hl Hd Hc. unfold auto_device_with. rewrite Hp.
  destruct (List.length argv' <? 2)%nat eqn:E;
    [apply Nat.ltb_lt in E; lia|].
  rewrite Hd. destruct (tb_device_in_store dev); cbn [negb]; [|reflexivity].
  destruct Hc as [Hc|Hc]; [discriminate Hc|].
  destruct (tb_device_get_policy dev); cbn [TbPolicy_eqb negb];
    try reflexivity.
  now contradiction Hc.
Qed.

(** C10: when the engine reports failure, [authorize_device] ends in failure:
    it returns [EXIT_FAILURE] when the engine has set an error, and the
    process is stopped where it prints the error when none is set.  After
    the return of the engine it does nothing but print to the error stream:
    no answer of the environment is consumed, so [tb_manager_store] is not
    called, and the device is left as the engine returned it, its policy not
    set. *)
Theorem authorize_stores_only_after_success (mgr : TbManager)
  (do_store do_auto : gboolean) (argv argv' : list string)
  (flags : bool * bool) (dev dev1 : TbDevice) (w w1 : World)
  (err : option GError) :
  g_option_context_parse true argv = Some (argv', flags) ->
  (2 <= List.length argv')%nat ->
  tb_manager_lookup mgr (nth 1 argv' EmptyString) = Some dev ->
  engine mgr dev None w = Returned (FALSE, dev1, err) w1 ->
  let out :=
    authorize_device_with g_option_context_parse engine mgr do_store do_auto
                          argv w in
  ends_in_failure out
  /\ script (outcome_world out) = script w1
  /\ fds (outcome_world out) = fds w1
  /\ (exists evs,
         trace (outcome_world out) = trace w1 ++ evs
         /\ Forall (fun ev => exists t, ev = EvPrint Stderr t) evs)
  /\ (forall d, device_left out = Some d -> d = dev1)
  /\ (forall e,
         err = Some e ->
         out = Returned (EXIT_FAILURE, Some dev1)
                        (g_printerr (Could_not_authorize (message e) (code e))
                                    w1)).
Proof.
  intros Hp Hl Hd He out. subst out. unfold authorize_device_with.
  rewrite Hp. destruct flags as [s a].
  destruct (List.length argv' <? 2)%nat eqn:E;
    [apply Nat.ltb_lt in E; lia|].
  rewrite Hd, He. cbn [negb FALSE].
  destruct err as [e|]; cbn.
  - repeat split; try reflexivity.
    + eexists. split; [reflexivity|]. each_event. eexists. reflexivity.
    + intros d Hd'. now injection Hd'.
    + intros e' He'. now injection He' as <-.
  - repeat split; try reflexivity.
    + exists []. rewrite app_nil_r. split; [reflexivity|constructor].
    + intros d Hd'. discriminate Hd'.
    + intros e' He'. discriminate He'.
Qed.

End CommandProperties.

(** ** The properties on the scenarios *)

Section OnScenarios.

Import Scenario.

Local Open Scope string_scope.

Lemma authorize_none_is_noop_witness :
  tb_manager_get_security_level (mgr TB_SECURITY_NONE) <= TB_SECURITY_NONE
  /\ tb_device_authorize KEY (mgr TB_SECURITY_NONE) dev1 None user_ok
     = Returned (TRUE, dev1, None) user_ok.
Proof.
  assert (H : tb_manager_get_security_level (mgr TB_SECURITY_NONE)
              <= TB_SECURITY_NONE) by (simpl; lia).
  split; [exact H|].
  exact (authorize_none_is_noop KEY (mgr TB_SECURITY_NONE) dev1 "AA11" None
                                user_ok eq_refl H).
Defined.

Lemma verify_uid_mismatch_fails_witness :
  let out := tb_device_authorize KEY (mgr TB_SECURITY_USER) dev1 None mismatch in
  out = Returned (FALSE, dev1, mismatch_error) (outcome_world out)
  /\ In (EvRead 4 (Some (Attr sys0 "unique_id")) 4 4 0
                (list_ascii_of_string "BB22"))
        (trace (outcome_world out))
  /\ FALSE = FALSE
  /\ (mismatch_error = Some (mkGError G_IO_ERROR_FAILED Could_not_read_full_uid)
      \/ mismatch_error = mismatch_error)
  /\ Forall (fun ev => is_write ev = false
                       /\ opens_attr "key" ev = false
                       /\ opens_attr "authorized" ev = false)
            (trace (outcome_world out)).
Proof.
  intros out.
  assert (H1 : out = Returned (FALSE, dev1, mismatch_error) (outcome_world out))
    by (vm_compute; reflexivity).
  assert (H2 : trace (outcome_world out)
               = (trace mismatch ++ trace (outcome_world out))%list)
    by (vm_compute; reflexivity).
  assert (H3 : In (EvRead 4 (Some (Attr sys0 "unique_id")) 4 4 0
                          (list_ascii_of_string "BB22"))
                  (trace (outcome_world out)))
    by (vm_compute; right; right; left; reflexivity).
  assert (H4 : list_ascii_of_string "BB22" <> list_ascii_of_string "AA11")
    by (vm_compute; discriminate).
  split; [exact H1|]. split; [exact H3|].
  exact (verify_uid_mismatch_fails
           KEY (mgr TB_SECURITY_USER) dev1 dev1 "AA11" mismatch
           (outcome_world out) FALSE mismatch_error
           (trace (outcome_world out)) 4 sys0 4%nat 4 0
           (list_ascii_of_string "BB22")
           eq_refl H1 H2 H3 ltac:(lia) H4).
Defined.


Lemma key_before_grant_witness :
  let out := tb_device_authorize KEY (mgr TB_SECURITY_SECURE) dev1 None secure_again in
  let evs := trace (outcome_world out) in
  out = Returned (TRUE, dev1, None) (outcome_world out)
  /\ evs = (firstn 11 evs
            ++ EvWrite 4 (Some (Attr sys0 "authorized")) ["2"%char] 1 0
            :: skipn 12 evs)%list
  /\ exists p1 p2 keyfd buf e',
      firstn 11 evs
      = (p1 ++ EvWrite keyfd (Some (Attr sys0 "key")) buf (Z.of_nat KEY) e'
            :: EvClose keyfd (Some (Attr sys0 "key")) 0 :: p2)%list
      /\ List.length buf = KEY.
Proof.
  intros out evs.
  assert (H1 : out = Returned (TRUE, dev1, None) (outcome_world out))
    by (vm_compute; reflexivity).
  assert (H2 : evs = (firstn 11 evs
                      ++ EvWrite 4 (Some (Attr sys0 "authorized")) ["2"%char] 1 0
                      :: skipn 12 evs)%list)
    by (vm_compute; reflexivity).
  assert (Ht : trace (outcome_world out) = (trace secure_again ++ evs)%list)
    by (vm_compute; reflexivity).
  split; [exact H1|]. split; [exact H2|].
  exact (key_before_grant
           KEY (mgr TB_SECURITY_SECURE) dev1 dev1 "AA11" secure_again
           (outcome_world out) TRUE None evs (firstn 11 evs) (skipn 12 evs)
           4 sys0 ["2"%char] 1 0 eq_refl eq_refl H1 Ht H2).
Defined.


(** C6 fails on the code: at the security level Secure, when [copy_key]
    fails (here the key file is short), [tb_device_authorize] closes [fd],
    the descriptor of [unique_id] that is closed already, and returns with
    the descriptor of [key] and that of the key file still open. *)
Theorem key_descriptor_left_open :
  exists w',
    tb_device_authorize KEY (mgr TB_SECURITY_SECURE) dev1 None short_key
    = Returned (FALSE, dev1,
                Some (mkGError G_IO_ERROR_FAILED Could_not_read_entire_key)) w'
    /\ fds w' = ((6, Path keyfile) :: (5, Attr sys0 "key") :: stdio)%list
    /\ In (EvClose 4 None (-1)) (trace w')
    /\ ~ In 5 (map (fun ev => match ev with EvClose fd _ _ => fd | _ => -1 end)
                   (trace w')).
Proof.
  eexists. split; [vm_compute; reflexivity|]. split; [reflexivity|].
  split.
  - cbn. do 9 right. left. reflexivity.
  - cbn. intros H. repeat destruct H as [H|H]; try discriminate H; exact H.
Qed.

(** When the kernel hands out number 4 again for [key], the close of [fd]
    happens to hit it; the descriptor of the key file stays open. *)
Example stale_close_hits_reused_number :
  exists w',
    tb_device_authorize KEY (mgr TB_SECURITY_SECURE) dev1 None short_key_reuse
    = Returned (FALSE, dev1,
                Some (mkGError G_IO_ERROR_FAILED Could_not_read_entire_key)) w'
    /\ fds w' = ((5, Path keyfile) :: stdio)%list
    /\ In (EvClose 4 (Some (Attr sys0 "key")) 0) (trace w').
Proof.
  eexists. split; [vm_compute; reflexivity|]. split; [reflexivity|].
  cbn. do 9 right. left. reflexivity.
Qed.

(** The descriptor of the key file stays open after a run that succeeds,
    too: [copy_key] never closes [from]. *)
Example key_file_left_open_on_success :
  exists w',
    tb_device_authorize KEY (mgr TB_SECURITY_SECURE) dev1 None secure_again
    = Returned (TRUE, dev1, None) w'
    /\ fds w' = ((5, Path keyfile) :: stdio)%list.
Proof.
  eexists. split; [vm_compute; reflexivity|reflexivity].
Qed.

Lemma copy_key_short_read_witness :
  let evs := trace (snd (copy_key KEY keyfile 5 None copy_short_read)) in
  copy_key KEY keyfile 5 None copy_short_read
  = (FALSE, Some short_read_error, snd (copy_key KEY keyfile 5 None copy_short_read))
  /\ bytes_read evs < Z.of_nat KEY
  /\ bytes_read evs <= Z.of_nat KEY
  /\ (FALSE = TRUE -> bytes_read evs = Z.of_nat KEY)
  /\ (bytes_read evs < Z.of_nat KEY ->
      FALSE = FALSE
      /\ filter is_write evs = []
      /\ exists ge,
        Some short_read_error = Some ge
        /\ forall from,
          In (EvOpen (Path keyfile) O_RDONLY from) evs -> 0 <= from ->
          ge = mkGError G_IO_ERROR_FAILED Could_not_read_entire_key
          \/ exists e,
            ge = mkGError (g_io_error_from_errno e) (Input_error_while_reading e)).
Proof.
  intros evs.
  assert (H1 : copy_key KEY keyfile 5 None copy_short_read
               = (FALSE, Some short_read_error, snd (copy_key KEY keyfile 5 None copy_short_read)))
    by (vm_compute; reflexivity).
  assert (H2 : bytes_read evs < Z.of_nat KEY) by (vm_compute; reflexivity).
  assert (Ht : trace (snd (copy_key KEY keyfile 5 None copy_short_read))
               = (trace copy_short_read ++ evs)%list)
    by (vm_compute; reflexivity).
  split; [exact H1|]. split; [exact H2|].
  exact (copy_key_short_read KEY keyfile 5 copy_short_read
                             (snd (copy_key KEY keyfile 5 None copy_short_read)) FALSE
                             (Some short_read_error) evs H1 Ht).
Defined.

Example short_write_is_not_resumed :
  filter is_write (trace (snd (copy_key KEY keyfile 5 None copy_short_write)))
  = [EvWrite 5 (Some (Attr sys0 "key")) (list_ascii_of_string key64) 10 0].
Proof. vm_compute. reflexivity. Qed.

Lemma auto_skips_engine_witness :
  tb_device_get_policy dev1 <> TB_POLICY_AUTO
  /\ auto_device_with parse_plain (tb_device_authorize KEY) (mgr TB_SECURITY_USER)
                      ["auto"; "AA11"] user_ok
     = Returned (EXIT_SUCCESS, Some dev1)
                (g_print (Not_setup_for_auto (Some "AA11")) user_ok).
Proof.
  assert (H : tb_device_get_policy dev1 <> TB_POLICY_AUTO) by discriminate.
  split; [exact H|].
  exact (auto_skips_engine parse_plain (tb_device_authorize KEY) (mgr TB_SECURITY_USER)
                           ["auto"; "AA11"] ["auto"; "AA11"] (false, false)
                           dev1 user_ok eq_refl (le_n 2) eq_refl (or_intror H)).
Defined.

Lemma authorize_stores_only_after_success_witness :
  let eng := tb_device_authorize KEY (mgr TB_SECURITY_USER) dev1 None mismatch in
  let out := authorize_device_with parse_plain (tb_device_authorize KEY) (mgr TB_SECURITY_USER)
                                   TRUE TRUE ["authorize"; "AA11"] mismatch in
  eng = Returned (FALSE, dev1, mismatch_error) (outcome_world eng)
  /\ ends_in_failure out
  /\ script (outcome_world out) = script (outcome_world eng)
  /\ fds (outcome_world out) = fds (outcome_world eng)
  /\ (exists evs,
         trace (outcome_world out) = (trace (outcome_world eng) ++ evs)%list
         /\ Forall (fun ev => exists t, ev = EvPrint Stderr t) evs)
  /\ (forall d, device_left out = Some d -> d = dev1)
  /\ (forall e,
         mismatch_error = Some e ->
         out = Returned (EXIT_FAILURE, Some dev1)
                        (g_printerr (Could_not_authorize (message e) (code e))
                                    (outcome_world eng))).
Proof.
  intros eng out.
  assert (H1 : eng = Returned (FALSE, dev1, mismatch_error) (outcome_world eng))
    by (vm_compute; reflexivity).
  split; [exact H1|].
  exact (authorize_stores_only_after_success
           parse_plain (tb_device_authorize KEY) (mgr TB_SECURITY_USER) TRUE TRUE
           ["authorize"; "AA11"] ["authorize"; "AA11"] (false, false)
           dev1 dev1 mismatch (outcome_world eng) mismatch_error
           eq_refl (le_n 2) eq_refl H1).
Defined.

End OnScenarios.

(** ** Interrupted calls

    A call that is interrupted is made again, until it is answered. *)

Lemma interrupts_nonempty (a : Answer) (rest : list Answer) (w : World) :
  interrupts a -> script w = a :: rest ->
  failed (answer w) = true /\ errno_of (answer w) = EINTR.
Proof. intros H Hs. unfold answer. rewrite Hs. exact H. Qed.

Lemma tb_verify_uid_interrupt (fd : Z) (u : string) (error : option GError)
  (a : Answer) (rest : list Answer) (w : World) :
  interrupts a -> script w = a :: rest ->
  tb_verify_uid fd u error w
  = tb_verify_uid fd u error
      (step EINTR (fds w)
            (interrupted_read fd (file_of fd (fds w)) (String.length u)) w).
Proof.
  intros Ha Hs. destruct (interrupts_nonempty a _ w Ha Hs) as [Hf He].
  unfold tb_verify_uid at 1. rewrite Hs. cbn [List.length tb_verify_uid_retry].
  unfold sys_read. rewrite Hf, He.
  cbn [Z.ltb Z.compare step errno Z.eqb Pos.eqb EINTR].
  unfold tb_verify_uid. cbn [step script]. rewrite Hs. reflexivity.
Qed.

(** X2: [tb_verify_uid] reads again after every read that is interrupted:
    when the environment interrupts the read any number of times and then
    delivers, the log holds one interrupted read for every interruption and
    then the read that delivers, every answer is consumed, and the result
    is that of the read that delivers: [TRUE] exactly when it delivers the
    uid. *)
Theorem tb_verify_uid_interrupted (ints : list Answer) (a : Answer)
  (rest : list Answer) (fd : Z) (u : string) (error : option GError)
  (w : World) :
  Forall interrupts ints ->
  script w = ints ++ a :: rest ->
  failed a = false ->
  let len := String.length u in
  let tag := file_of fd (fds w) in
  let data := firstn len (ans_data a) in
  exists ok err w',
    tb_verify_uid fd u error w = (ok, err, w')
    /\ trace w'
       = trace w ++ repeat (interrupted_read fd tag len) (List.length ints)
         ++ [EvRead fd tag len (Z.of_nat (List.length data)) (errno w') data]
    /\ script w' = rest
    /\ (ok = TRUE <-> data = list_ascii_of_string u)
    /\ (ok = TRUE -> err = error).
Proof.
  intros Hall. revert w. induction Hall as [|i ints Hi _ IH]; intros w Hs Hfa.
  - cbn [app] in Hs. cbn zeta. cbn [List.length repeat app].
    assert (Ha : answer w = a) by (unfold answer; now rewrite Hs).
    unfold tb_verify_uid. rewrite Hs. cbn [List.length tb_verify_uid_retry].
    unfold sys_read. rewrite Ha, Hfa.
    set (data := firstn (String.length u) (ans_data a)).
    assert (Hn : (Z.of_nat (List.length data) <? 0) = false)
      by (apply Z.ltb_ge; lia).
    rewrite Hn.
    destruct (Z.of_nat (String.length u) =? Z.of_nat (List.length data)) eqn:El;
      cbn [negb].
    + apply Z.eqb_eq, Nat2Z.inj in El.
      assert (Hm : memcmp data (list_ascii_of_string u) (String.length u) = 0
                   <-> data = list_ascii_of_string u).
      { rewrite El. apply memcmp_zero.
        now rewrite length_list_ascii_of_string. }
      destruct (memcmp data (list_ascii_of_string u) (String.length u) =? 0)
        eqn:Em; cbn [negb]; eexists _, _, _; (split; [reflexivity|]);
        cbn [step trace script errno]; rewrite Hs; cbn [tl];
        (split; [reflexivity|]); (split; [reflexivity|]).
      * apply Z.eqb_eq in Em. split; [|reflexivity].
        split; [intros _; now apply Hm|reflexivity].
      * apply Z.eqb_neq in Em. split; [|intros Hx; discriminate Hx].
        split; [intros Hx; discriminate Hx|].
        intros Hd. apply Hm in Hd. contradiction.
    + apply Z.eqb_neq in El. eexists _, _, _. split; [reflexivity|].
      cbn [step trace script errno]. rewrite Hs. cbn [tl].
      split; [reflexivity|]. split; [reflexivity|].
      split; [|intros Hx; discriminate Hx].
      split; [intros Hx; discriminate Hx|].
      intros Hd. exfalso. apply El.
      now rewrite Hd, length_list_ascii_of_string.
  - cbn [app] in Hs.
    rewrite (tb_verify_uid_interrupt fd u error i _ w Hi Hs).
    set (w1 := step EINTR (fds w)
                    (interrupted_read fd (file_of fd (fds w)) (String.length u))
                    w).
    destruct (IH w1) as (ok & err & w' & He & Ht & Hs' & Hok);
      [cbn [w1 step script]; now rewrite Hs|exact Hfa|].
    exists ok, err, w'. split; [exact He|].
    cbn [w1 step trace fds] in Ht. cbn zeta.
    split; [rewrite Ht, <- app_assoc; reflexivity|]. auto.
Qed.

Lemma tb_write_char_interrupt (fd : Z) (c : ascii) (error : option GError)
  (a : Answer) (rest : list Answer) (w : World) :
  interrupts a -> script w = a :: rest ->
  tb_write_char fd c error w
  = tb_write_char fd c error
      (step EINTR (fds w) (interrupted_write fd (file_of fd (fds w)) [c]) w).
Proof.
  intros Ha Hs. destruct (interrupts_nonempty a _ w Ha Hs) as [Hf He].
  unfold tb_write_char at 1. rewrite Hs. cbn [List.length tb_write_char_retry].
  unfold sys_write. rewrite Hf, He.
  cbn [Z.ltb Z.compare step errno Z.eqb Pos.eqb EINTR].
  unfold tb_write_char. cbn [step script]. rewrite Hs. reflexivity.
Qed.

(** X1: [tb_write_char] writes again after every write that is interrupted:
    when the environment interrupts the write any number of times and then
    takes [k] bytes, the log holds one interrupted write for every
    interruption and then the write that is answered, every answer is
    consumed, and the result is that of the last write: [TRUE] exactly when
    it has taken the byte, with the error left alone. *)
Theorem tb_write_char_interrupted (ints : list Answer) (a : Answer)
  (rest : list Answer) (fd : Z) (c : ascii) (error : option GError)
  (w : World) :
  Forall interrupts ints ->
  script w = ints ++ a :: rest ->
  failed a = false ->
  let tag := file_of fd (fds w) in
  let k := Z.min (ans_ret a) 1 in
  exists w',
    tb_write_char fd c error w = (0 <? k, error, w')
    /\ trace w'
       = trace w ++ repeat (interrupted_write fd tag [c]) (List.length ints)
         ++ [EvWrite fd tag [c] k (errno w')]
    /\ script w' = rest.
Proof.
  intros Hall. revert w. induction Hall as [|i ints Hi _ IH]; intros w Hs Hfa.
  - cbn [app] in Hs. cbn zeta. cbn [List.length repeat app].
    assert (Ha : answer w = a) by (unfold answer; now rewrite Hs).
    unfold tb_write_char. rewrite Hs. cbn [List.length tb_write_char_retry].
    unfold sys_write. rewrite Ha, Hfa. cbn [List.length].
    unfold failed in Hfa. apply Z.ltb_ge in Hfa.
    assert (Hn : (Z.min (ans_ret a) (Z.of_nat 1) =? -1) = false)
      by (apply Z.eqb_neq; lia).
    rewrite Hn. eexists. split; [reflexivity|].
    cbn [step trace script errno]. rewrite Hs. cbn [tl]. auto.
  - cbn [app] in Hs.
    rewrite (tb_write_char_interrupt fd c error i _ w Hi Hs).
    set (w1 := step EINTR (fds w)
                    (interrupted_write fd (file_of fd (fds w)) [c]) w).
    destruct (IH w1) as (w' & He & Ht & Hs');
      [cbn [w1 step script]; now rewrite Hs|exact Hfa|].
    exists w'. split; [exact He|].
    cbn [w1 step trace fds] in Ht. cbn zeta.
    split; [rewrite Ht, <- app_assoc; reflexivity|exact Hs'].
Qed.

Lemma tb_read_all_loop_interrupt (fuel : nat) (fd : Z) (buffer : bytes)
  (ptr : nat) (nread : Z) (nbyte : nat) (error : option GError) (w : World) :
  (0 < nbyte)%nat ->
  failed (answer w) = true -> errno_of (answer w) = EINTR ->
  tb_read_all_loop (S fuel) fd buffer ptr nread nbyte error w
  = tb_read_all_loop fuel fd buffer ptr nread nbyte error
      (step EINTR (fds w) (EvRead fd (file_of fd (fds w)) nbyte (-1) EINTR [])
            w).
Proof.
  intros Hpos Hf He. cbn [tb_read_all_loop]. unfold sys_read.
  rewrite Hf, He. cbn [Z.ltb Z.compare step errno Z.eqb Pos.eqb EINTR].
  apply Nat.ltb_lt in Hpos. now rewrite Hpos.
Qed.

(** X4: [tb_read_all], asked for at least one byte, reads again after every
    read that is interrupted: when the environment interrupts the read any
    number of times and then delivers all [nbyte] bytes, the log holds one
    interrupted read for every interruption and then the read that
    delivers, every answer is consumed, and [tb_read_all] returns [nbyte]
    with the bytes at the start of the buffer and the error left alone. *)
Theorem tb_read_all_interrupted (ints : list Answer) (a : Answer)
  (rest : list Answer) (fd : Z) (buffer : bytes) (nbyte : nat)
  (error : option GError) (w : World) :
  (0 < nbyte)%nat ->
  Forall interrupts ints ->
  script w = ints ++ a :: rest ->
  failed a = false ->
  (nbyte <= List.length (ans_data a))%nat ->
  let tag := file_of fd (fds w) in
  let data := firstn nbyte (ans_data a) in
  exists w',
    tb_read_all fd buffer nbyte error w
    = (Z.of_nat nbyte, blit buffer 0 data, error, w')
    /\ trace w'
       = trace w ++ repeat (interrupted_read fd tag nbyte) (List.length ints)
         ++ [EvRead fd tag nbyte (Z.of_nat nbyte) (errno w') data]
    /\ script w' = rest.
Proof.
  intros Hpos Hall. revert w.
  induction Hall as [|i ints Hi _ IH]; intros w Hs Hfa Hlen.
  - cbn [app] in Hs. cbn zeta. cbn [List.length repeat app].
    assert (Ha : answer w = a) by (unfold answer; now rewrite Hs).
    unfold tb_read_all. rewrite Hs. cbn [List.length tb_read_all_loop].
    unfold sys_read. rewrite Ha, Hfa.
    set (data := firstn nbyte (ans_data a)).
    assert (Hd : List.length data = nbyte)
      by (unfold data; rewrite length_firstn; lia).
    rewrite Hd.
    assert (Hn : (Z.of_nat nbyte <? 0) = false) by (apply Z.ltb_ge; lia).
    assert (H0 : (Z.of_nat nbyte =? 0) = false) by (apply Z.eqb_neq; lia).
    rewrite Hn, H0, Nat2Z.id, Nat.sub_diag. cbn [Nat.ltb Nat.leb Z.add].
    eexists. split; [reflexivity|].
    cbn [step trace script errno]. rewrite Hs. cbn [tl]. auto.
  - cbn [app] in Hs. destruct (interrupts_nonempty i _ w Hi Hs) as [Hf He].
    unfold tb_read_all. rewrite Hs. cbn [List.length].
    rewrite (tb_read_all_loop_interrupt _ _ _ _ _ _ _ _ Hpos Hf He).
    set (w1 := step EINTR (fds w)
                    (EvRead fd (file_of fd (fds w)) nbyte (-1) EINTR []) w).
    destruct (IH w1) as (w' & Hr & Ht & Hs');
      [cbn [w1 step script]; now rewrite Hs|exact Hfa|exact Hlen|].
    unfold tb_read_all in Hr. cbn [w1 step script] in Hr. rewrite Hs in Hr.
    cbn [tl] in Hr. exists w'. split; [exact Hr|].
    cbn [w1 step trace fds] in Ht. cbn zeta.
    split; [rewrite Ht, <- app_assoc; reflexivity|exact Hs'].
Qed.

(** ** What [tb_verify_uid] compares *)

(** X3: [tb_verify_uid] asks for as many bytes as the uid is long and compares
    those: when the read is not in error, it returns [TRUE] exactly when
    the first [strlen (uid)] bytes the attribute holds are the uid; what
    follows them in the attribute is not looked at.  A [TRUE] leaves the
    error as it was. *)
Theorem tb_verify_uid_compares_prefix (fd : Z) (u : string)
  (error : option GError) (w : World) :
  failed (answer w) = false ->
  let '(ok, err, _) := tb_verify_uid fd u error w in
  (ok = TRUE
   <-> firstn (String.length u) (ans_data (answer w)) = list_ascii_of_string u)
  /\ (ok = TRUE -> err = error).
Proof.
  intros Hf. unfold tb_verify_uid. cbn [tb_verify_uid_retry]. unfold sys_read.
  rewrite Hf.
  set (data := firstn (String.length u) (ans_data (answer w))).
  assert (Hn : (Z.of_nat (List.length data) <? 0) = false)
    by (apply Z.ltb_ge; lia).
  rewrite Hn.
  destruct (Z.of_nat (String.length u) =? Z.of_nat (List.length data)) eqn:El;
    cbn [negb].
  - apply Z.eqb_eq, Nat2Z.inj in El.
    assert (Hm : memcmp data (list_ascii_of_string u) (String.length u) = 0
                 <-> data = list_ascii_of_string u).
    { rewrite El. apply memcmp_zero. now rewrite length_list_ascii_of_string. }
    destruct (memcmp data (list_ascii_of_string u) (String.length u) =? 0)
      eqn:Em; cbn [negb].
    + apply Z.eqb_eq in Em. split; [|reflexivity].
      split; [intros _; now apply Hm|reflexivity].
    + apply Z.eqb_neq in Em. split; [|discriminate].
      split; [discriminate|]. intros Hd. now apply Hm in Hd.
  - apply Z.eqb_neq in El. split; [|discriminate].
    split; [discriminate|]. intros Hd. exfalso. apply El.
    now rewrite Hd, length_list_ascii_of_string.
Qed.

(** ** What [tb_read_all] puts in the buffer *)

Lemma data_read_app (a b : list Event) :
  data_read (a ++ b) = data_read a ++ data_read b.
Proof. unfold data_read. apply flat_map_app. Qed.

Lemma blit_firstn (buffer : bytes) (ptr : nat) (data : bytes) :
  (ptr <= List.length buffer)%nat ->
  firstn (ptr + List.length data) (blit buffer ptr data)
  = firstn ptr buffer ++ data.
Proof.
  intros H. unfold blit.
  assert (Hl : List.length (firstn ptr buffer) = ptr)
    by (rewrite length_firstn; lia).
  rewrite firstn_app, Hl.
  replace (ptr + List.length data - ptr)%nat with (List.length data) by lia.
  rewrite firstn_all2 by lia.
  rewrite firstn_app, Nat.sub_diag, firstn_all. cbn [firstn].
  now rewrite app_nil_r.
Qed.

Lemma blit_skipn (buffer : bytes) (ptr k : nat) (data : bytes) :
  (ptr <= List.length buffer)%nat ->
  skipn (ptr + List.length data + k) (blit buffer ptr data)
  = skipn (ptr + List.length data + k) buffer.
Proof.
  intros H. unfold blit.
  assert (Hl : List.length (firstn ptr buffer) = ptr)
    by (rewrite length_firstn; lia).
  rewrite skipn_app, Hl.
  rewrite (skipn_all2 (firstn ptr buffer)) by lia. cbn [app].
  replace (ptr + List.length data + k - ptr)%nat with (List.length data + k)%nat
    by lia.
  rewrite skipn_app.
  rewrite (skipn_all2 data) by lia. cbn [app].
  replace (List.length data + k - List.length data)%nat with k by lia.
  rewrite skipn_skipn. f_equal. lia.
Qed.

Lemma tb_read_all_loop_content (fuel : nat) (fd : Z) :
  forall (buffer : bytes) (ptr : nat) (nread : Z) (nbyte : nat)
         (error : option GError) (w w' : World) (n : Z) (buf' : bytes)
         (err : option GError),
  (List.length (script w) < fuel)%nat ->
  (ptr + nbyte <= List.length buffer)%nat ->
  tb_read_all_loop fuel fd buffer ptr nread nbyte error w = (n, buf', err, w') ->
  exists evs,
    trace w' = trace w ++ evs
    /\ buf' = firstn ptr buffer ++ data_read evs
              ++ skipn (ptr + List.length (data_read evs)) buffer
    /\ Z.of_nat (List.length (data_read evs)) = bytes_read evs
    /\ (List.length (data_read evs) <= nbyte)%nat.
Proof.
  assert (Hsame : forall (buffer : bytes) (ptr : nat),
             buffer = firstn ptr buffer ++ [] ++ skipn (ptr + 0) buffer).
  { intros buffer ptr. cbn [app]. rewrite Nat.add_0_r.
    symmetry. apply firstn_skipn. }
  induction fuel as [|fuel IH]; intros buffer ptr nread nbyte error w w' n buf'
    err Hf Hfit H; [lia|].
  cbn [tb_read_all_loop] in H. unfold sys_read in H.
  destruct (failed (answer w)) eqn:Fa.
  - cbn [Z.ltb Z.compare step errno] in H.
    destruct (errno_of (answer w) =? EINTR) eqn:Ee.
    + apply Z.eqb_eq in Ee.
      pose proof (interrupted_consumes w Fa Ee) as Hl.
      destruct (0 <? nbyte)%nat eqn:Eb.
      * apply IH in H; [|cbn [step script]; lia|exact Hfit].
        destruct H as (evs & Ht & Hbuf & Hlen & Hle).
        cbn [step trace] in Ht.
        eexists (_ :: evs). rewrite Ht, <- app_assoc. cbn [app].
        split; [reflexivity|]. cbn [data_read flat_map app bytes_read fold_right
                                     List.length].
        fold (data_read evs). fold (bytes_read evs). auto.
      * injection H as <- <- <- <-. eexists [_]. cbn [step trace].
        split; [reflexivity|]. cbn. split; [apply Hsame|]. split; [reflexivity|lia].
    + injection H as <- <- <- <-. eexists [_]. cbn [step trace].
      split; [reflexivity|]. cbn. split; [apply Hsame|]. split; [reflexivity|lia].
  - set (data := firstn nbyte (ans_data (answer w))) in *.
    pose proof (firstn_length_le_Z nbyte (ans_data (answer w))) as Hd.
    fold data in Hd.
    assert (Hn : (Z.of_nat (List.length data) <? 0) = false)
      by (apply Z.ltb_ge; lia).
    rewrite Hn in H. rewrite Nat2Z.id in H.
    destruct (Z.of_nat (List.length data) =? 0) eqn:E0.
    + apply Z.eqb_eq in E0. injection H as <- <- <- <-. eexists [_].
      cbn [step trace]. split; [reflexivity|].
      assert (data = []) as -> by (apply length_zero_iff_nil; lia).
      cbn. split; [apply Hsame|]. split; [reflexivity|lia].
    + apply Z.eqb_neq in E0.
      pose proof (delivery_consumes w Fa) as Hl.
      destruct (0 <? nbyte - List.length data)%nat eqn:Eb.
      * apply IH in H;
          [|cbn [step script]; lia|rewrite blit_length; lia].
        destruct H as (evs & Ht & Hbuf & Hlen & Hle).
        cbn [step trace] in Ht.
        eexists (_ :: evs). rewrite Ht, <- app_assoc. cbn [app].
        split; [reflexivity|].
        cbn [data_read flat_map bytes_read fold_right].
        fold (data_read evs). fold (bytes_read evs).
        rewrite length_app. split; [|split; lia].
        rewrite Hbuf, blit_firstn by lia.
        rewrite Nat.add_assoc, blit_skipn by lia.
        now rewrite <- !app_assoc.
      * injection H as <- <- <- <-. eexists [_]. cbn [step trace].
        split; [reflexivity|]. cbn [data_read flat_map bytes_read fold_right].
        rewrite !app_nil_r. split; [reflexivity|]. split; lia.
Qed.

Lemma tb_read_all_loop_result (fuel : nat) (fd : Z) :
  forall (buffer : bytes) (ptr : nat) (nread : Z) (nbyte : nat)
         (error : option GError) (w w' : World) (n : Z) (buf' : bytes)
         (err : option GError),
  (List.length (script w) < fuel)%nat ->
  tb_read_all_loop fuel fd buffer ptr nread nbyte error w = (n, buf', err, w') ->
  exists evs,
    trace w' = trace w ++ evs
    /\ ((n = - errno w' /\ 0 < errno w'
         /\ err = g_set_error error (g_io_error_from_errno (errno w'))
                              (Input_error_while_reading (errno w')))
        \/ (n = nread + bytes_read evs /\ err = error
            /\ (bytes_read evs < Z.of_nat nbyte ->
                exists pre f nb e, evs = pre ++ [EvRead fd f nb 0 e []]))).
Proof.
  induction fuel as [|fuel IH]; intros buffer ptr nread nbyte error w w' n buf'
    err Hf H; [lia|].
  cbn [tb_read_all_loop] in H. unfold sys_read in H.
  destruct (failed (answer w)) eqn:Fa.
  - cbn [Z.ltb Z.compare step errno] in H.
    destruct (errno_of (answer w) =? EINTR) eqn:Ee.
    + apply Z.eqb_eq in Ee.
      pose proof (interrupted_consumes w Fa Ee) as Hl.
      destruct (0 <? nbyte)%nat eqn:Eb.
      * apply IH in H; [|cbn [step script]; lia].
        destruct H as (evs & Ht & Hres). cbn [step trace] in Ht.
        eexists (_ :: evs). rewrite Ht, <- app_assoc. cbn [app].
        split; [reflexivity|]. cbn [bytes_read fold_right List.length].
        fold (bytes_read evs).
        destruct Hres as [Hres|(-> & -> & Heof)]; [now left|right].
        split; [lia|]. split; [reflexivity|]. intros Hlt.
        destruct Heof as (pre & f & nb & e & ->); [lia|].
        eexists (_ :: pre), f, nb, e. reflexivity.
      * apply Nat.ltb_ge in Eb. injection H as <- <- <- <-. eexists [_].
        cbn [step trace]. split; [reflexivity|]. right. cbn.
        split; [lia|]. split; [reflexivity|]. lia.
    + injection H as <- <- <- <-. eexists [_]. cbn [step trace errno].
      split; [reflexivity|]. left. pose proof (errno_of_pos (answer w)).
      cbn. auto.
  - set (data := firstn nbyte (ans_data (answer w))) in *.
    pose proof (firstn_length_le_Z nbyte (ans_data (answer w))) as Hd.
    fold data in Hd.
    assert (Hn : (Z.of_nat (List.length data) <? 0) = false)
      by (apply Z.ltb_ge; lia).
    rewrite Hn in H. rewrite Nat2Z.id in H.
    destruct (Z.of_nat (List.length data) =? 0) eqn:E0.
    + apply Z.eqb_eq in E0. injection H as <- <- <- <-. eexists [_].
      cbn [step trace]. split; [reflexivity|]. right.
      assert (Hnil : data = []) by (apply length_zero_iff_nil; lia).
      cbn [bytes_read fold_right]. split; [lia|]. split; [reflexivity|].
      intros _. exists [], (file_of fd (fds w)), nbyte, (errno w).
      cbn [app]. rewrite Hnil. reflexivity.
    + apply Z.eqb_neq in E0.
      pose proof (delivery_consumes w Fa) as Hl.
      destruct (0 <? nbyte - List.length data)%nat eqn:Eb.
      * apply IH in H; [|cbn [step script]; lia].
        destruct H as (evs & Ht & Hres). cbn [step trace] in Ht.
        eexists (_ :: evs). rewrite Ht, <- app_assoc. cbn [app].
        split; [reflexivity|]. cbn [bytes_read fold_right].
        fold (bytes_read evs).
        destruct Hres as [Hres|(-> & -> & Heof)]; [now left|right].
        split; [lia|]. split; [reflexivity|]. intros Hlt.
        destruct Heof as (pre & f & nb & e & ->); [lia|].
        eexists (_ :: pre), f, nb, e. reflexivity.
      * apply Nat.ltb_ge in Eb. injection H as <- <- <- <-. eexists [_].
        cbn [step trace]. split; [reflexivity|]. right.
        cbn [bytes_read fold_right]. split; [lia|]. split; [reflexivity|]. lia.
Qed.

(** X5: [tb_read_all] puts what the reads deliver into the buffer one piece
    after the other, from its start on, and leaves the rest of the buffer
    alone; it never takes more than [nbyte] bytes.  It returns their number,
    and this is less than [nbyte] only when a read has met the end of the
    file; or, after a read in error, it returns minus the [errno] and sets
    the input error. *)
Theorem tb_read_all_assembles (fd : Z) (buffer : bytes) (nbyte : nat)
  (w w' : World) (n : Z) (buf' : bytes) (err : option GError)
  (evs : list Event) :
  (nbyte <= List.length buffer)%nat ->
  tb_read_all fd buffer nbyte None w = (n, buf', err, w') ->
  trace w' = trace w ++ evs ->
  buf' = data_read evs ++ skipn (List.length (data_read evs)) buffer
  /\ (List.length (data_read evs) <= nbyte)%nat
  /\ ((n = Z.of_nat (List.length (data_read evs)) /\ err = None
       /\ (n < Z.of_nat nbyte ->
           exists pre f nb e, evs = pre ++ [EvRead fd f nb 0 e []]))
      \/ (n = - errno w' /\ n < 0
          /\ err = Some (mkGError (g_io_error_from_errno (errno w'))
                                  (Input_error_while_reading (errno w'))))).
Proof.
  intros Hfit H Ht. unfold tb_read_all in H.
  destruct (tb_read_all_loop_content _ _ buffer 0%nat _ nbyte _ _ _ _ _ _
              (Nat.lt_succ_diag_r _) Hfit H)
    as (evs1 & Ht1 & Hbuf & Hlen & Hle).
  destruct (tb_read_all_loop_result _ _ _ _ _ _ _ _ _ _ _ _
              (Nat.lt_succ_diag_r _) H)
    as (evs2 & Ht2 & Hres).
  rewrite Ht1 in Ht, Ht2. apply app_inv_head in Ht, Ht2. subst evs1 evs2.
  cbn [firstn app Nat.add] in Hbuf. split; [exact Hbuf|]. split; [exact Hle|].
  destruct Hres as [(Hn & Hpos & ->)|(Hn & -> & Heof)].
  - right. cbn [g_set_error]. split; [exact Hn|]. split; [lia|reflexivity].
  - left. split; [lia|]. split; [reflexivity|]. intros Hlt. apply Heof. lia.
Qed.

(** ** What [copy_key] delivers *)

Section CopyKeyContent.

Variable TB_KEY_CHARS : nat.

Lemma data_read_interrupted_writes (fd : Z) (f : option File) (buf : bytes)
  (j : nat) :
  data_read (repeat (interrupted_write fd f buf) j) = [].
Proof. induction j as [|j IH]; cbn; [reflexivity|exact IH]. Qed.

(** X6: when [copy_key] returns [TRUE], the last call it has made is a write to
    [to] of exactly the bytes it has read from the key file, in the order
    they were read, [TB_KEY_CHARS] of them, and the write has taken them
    all. *)
Theorem copy_key_delivers_what_it_read (key : GFile) (to : Z)
  (error : option GError) (w w' : World) (err : option GError)
  (evs : list Event) :
  copy_key TB_KEY_CHARS key to error w = (TRUE, err, w') ->
  trace w' = trace w ++ evs ->
  List.length (data_read evs) = TB_KEY_CHARS
  /\ exists pre f e,
      evs = pre ++ [EvWrite to f (data_read evs) (Z.of_nat TB_KEY_CHARS) e].
Proof.
  unfold copy_key, sys_open. intros H Ht.
  destruct (failed (answer w)) eqn:Fa.
  { cbn [Z.ltb Z.compare] in H. discriminate H. }
  unfold failed in Fa. apply Z.ltb_ge in Fa.
  set (from := alloc_fd (ans_ret (answer w)) (fds w)) in *.
  pose proof (alloc_fd_nonneg _ (fds w) Fa) as Hfrom. fold from in Hfrom.
  assert (Hn : (from <? 0) = false) by (apply Z.ltb_ge; lia).
  rewrite Hn in H. unfold tb_read_all in H.
  set (w1 := step (errno w) ((from, Path key) :: fds w)
                  (EvOpen (Path key) O_RDONLY from) w) in *.
  destruct (tb_read_all_loop _ from _ 0 0 TB_KEY_CHARS error w1)
    as [[[n buffer] error1] w2] eqn:Er.
  destruct (tb_read_all_loop_content _ _ (repeat zero TB_KEY_CHARS) 0%nat _
              TB_KEY_CHARS _ _ _ _ _ _ (Nat.lt_succ_diag_r _)
              ltac:(rewrite repeat_length; lia) Er)
    as (reads & Ht2 & Hbuf & Hlen & Hle).
  destruct (tb_read_all_loop_spec _ _ _ _ _ _ _ _ _ _ _ _
              (Nat.lt_succ_diag_r _) Er)
    as (reads' & Ht2' & _ & Hall & Hres & _ & _).
  rewrite Ht2 in Ht2'. apply app_inv_head in Ht2'. subst reads'.
  cbn [firstn app Nat.add] in Hbuf.
  destruct (n <? 0) eqn:En; [discriminate H|]. apply Z.ltb_ge in En.
  destruct Hres as [[Hneg _]|[Hn' ->]]; [lia|].
  destruct (n =? Z.of_nat TB_KEY_CHARS) eqn:Ek; cbn [negb] in H;
    [|discriminate H].
  apply Z.eqb_eq in Ek.
  destruct (copy_key_write _ to _ w2) as [k w3] eqn:Ew.
  apply copy_key_write_spec in Ew; [|lia].
  destruct Ew as (j & Ht3 & _ & _ & _).
  destruct (k =? n) eqn:Ekn; cbn [negb] in H; [|discriminate H].
  apply Z.eqb_eq in Ekn. injection H as <- <-.
  assert (Hd : List.length (data_read reads) = TB_KEY_CHARS) by lia.
  assert (Hw : firstn (Z.to_nat n) buffer = data_read reads).
  { rewrite Hbuf, Ek, Nat2Z.id, <- Hd, firstn_app, Nat.sub_diag, firstn_all.
    cbn [firstn]. apply app_nil_r. }
  rewrite Hw in Ht3. rewrite Ht3, Ht2 in Ht. cbn [step trace w1] in Ht.
  rewrite <- !app_assoc in Ht. apply app_inv_head in Ht. subst evs.
  assert (Hdr : data_read
                  ([EvOpen (Path key) O_RDONLY from] ++ reads
                   ++ repeat (interrupted_write to (file_of to (fds w2))
                                                (data_read reads)) j
                   ++ [EvWrite to (file_of to (fds w2)) (data_read reads) k
                               (errno w3)])
                = data_read reads).
  { rewrite !data_read_app, data_read_interrupted_writes. cbn.
    now rewrite !app_nil_r. }
  rewrite Hdr. split; [exact Hd|].
  eexists _, _, _. rewrite Ekn, Ek, !app_assoc. reflexivity.
Qed.

End CopyKeyContent.

(** ** More about the engine *)

Section EngineMore.

Variable TB_KEY_CHARS : nat.

Lemma grant_part_app_l (dir : string) (security : Z) (error : option GError)
  (l1 l2 : list Event) (ok : gboolean) (err : option GError) :
  Forall no_grant_write l1 ->
  grant_part dir security error l2 ok err ->
  grant_part dir security error (l1 ++ l2) ok err.
Proof.
  intros H1 [(Hf & H2)|(head & g & rest & sec' & -> & Hh & Hr & Hg)].
  - left. split; [exact Hf|]. apply Forall_app. auto.
  - right. exists (l1 ++ head), g, rest, sec'. rewrite <- app_assoc.
    split; [reflexivity|]. split; [apply Forall_app; auto|]. auto.
Qed.

Lemma grant_part_app_r (dir : string) (security : Z) (error : option GError)
  (l1 l2 : list Event) (ok : gboolean) (err : option GError) :
  grant_part dir security error l1 ok err ->
  Forall no_grant_write l2 ->
  grant_part dir security error (l1 ++ l2) ok err.
Proof.
  intros [(Hf & H1)|(head & g & rest & sec' & -> & Hh & Hr & Hg)] H2.
  - left. split; [exact Hf|]. apply Forall_app. auto.
  - right. exists head, g, (rest ++ l2), sec'. rewrite <- !app_assoc.
    split; [reflexivity|]. split; [exact Hh|].
    split; [apply Forall_app; auto|]. auto.
Qed.

Lemma grant_part_cons (dir : string) (security : Z) (error : option GError)
  (ev : Event) (l : list Event) (ok : gboolean) (err : option GError) :
  no_grant_write ev ->
  grant_part dir security error l ok err ->
  grant_part dir security error (ev :: l) ok err.
Proof.
  intros H. apply (grant_part_app_l dir security error [ev] l).
  constructor; [exact H|constructor].
Qed.

Lemma grant_run_is_part (dir : string) (security sec' : Z)
  (error : option GError) (g : list Event) (ok : gboolean)
  (err : option GError) :
  grant_run dir sec' error g ok err ->
  (security <> char_code "2" -> sec' = security) ->
  grant_part dir security error g ok err.
Proof.
  intros Hg Hs. right. exists [], g, [], sec'. rewrite app_nil_r.
  split; [reflexivity|]. split; [constructor|]. split; [constructor|]. auto.
Qed.

Lemma provision_run_grant_part (dir : string) (security ufd : Z) (kf : GFile)
  (created : bool) (error : option GError) (evs : list Event) (ok : gboolean)
  (err : option GError) :
  security = char_code "2" ->
  provision_run TB_KEY_CHARS dir security ufd kf created error evs ok err ->
  grant_part dir security error evs ok err.
Proof.
  intros Hs [(e0 & -> & Hf & _)
            |(keyfd & cevs & okc & errc & rest & _ & -> & Hc & Hr)].
  - left. split; [exact Hf|]. each_event; reflexivity.
  - pose proof (copy_run_no_grant _ _ _ _ _ _ _ _ Hc) as Hng.
    apply grant_part_cons; [reflexivity|].
    destruct Hr as [(_ & Hf & _ & stale & c & ->)
                   |(-> & c & rest2 & -> & [(_ & -> & Hf & _)|(-> & Hg)])].
    + left. split; [exact Hf|]. each_event; [exact Hng|reflexivity].
    + left. split; [exact Hf|]. each_event; [exact Hng|reflexivity].
    + apply copy_run_complete in Hc. destruct Hc as (-> & _).
      apply grant_part_app_l; [exact Hng|].
      apply grant_part_cons; [reflexivity|].
      eapply grant_run_is_part; [exact Hg|]. intros Hne. now contradiction Hne.
Qed.

Lemma device_run_grant_part (dev : TbDevice) (u : string) (security : Z)
  (error : option GError) (evs : list Event) (ok : gboolean)
  (err : option GError) :
  device_run TB_KEY_CHARS dev u security error evs ok err ->
  (security < 1 /\ evs = [] /\ ok = TRUE /\ err = error)
  \/ (1 <= security
      /\ exists dir, sysfs dev = Some dir
                     /\ grant_part dir security error evs ok err).
Proof.
  intros [H|(Hs & sd & Hsd & [(-> & Hf & _)|(dfd & body & _ & -> & Ha)])];
    [left; exact H|right; split; [exact Hs|]; exists sd; split; [exact Hsd|]..].
  - left. split; [exact Hf|]. each_event. reflexivity.
  - apply grant_part_cons; [reflexivity|].
    apply grant_part_app_r; [|each_event; reflexivity].
    destruct Ha as [(e0 & -> & Hf & _)
                   |(ufd & k & r & e & data & c & rest & _ & -> & Hv)].
    + left. split; [exact Hf|]. each_event. reflexivity.
    + apply grant_part_cons; [reflexivity|].
      apply grant_part_app_l; [each_event; reflexivity|].
      apply grant_part_cons; [reflexivity|].
      apply grant_part_cons; [reflexivity|].
      destruct Hv as [(_ & _ & -> & Hf & _)
                     |[(_ & _ & -> & Hf & _)|(_ & _ & Hav)]];
        try (left; split; [exact Hf|constructor]).
      destruct Hav as [(Hne & Hg)|(Hs2 & key & created & prest & -> & Hp)].
      * eapply grant_run_is_part; [exact Hg|]. reflexivity.
      * apply grant_part_cons; [reflexivity|].
        destruct Hp as [(_ & -> & Hf & _)|(kf & _ & Hp)];
          [left; split; [exact Hf|constructor]|].
        eapply provision_run_grant_part; eassumption.
Qed.

Lemma device_run_of (mgr : TbManager) (dev dev' : TbDevice) (u : string)
  (error : option GError) (w w' : World) (ok : gboolean) (err : option GError)
  (evs : list Event) :
  uid dev = Some u ->
  tb_device_authorize TB_KEY_CHARS mgr dev error w = Returned (ok, dev', err) w' ->
  trace w' = trace w ++ evs ->
  device_run TB_KEY_CHARS dev u (tb_manager_get_security_level mgr) error evs
             ok err.
Proof.
  intros Hu H Ht.
  destruct (tb_device_authorize_spec _ _ _ _ _ _ _ _ _ _ Hu H)
    as (_ & evs' & Ht' & Hrun).
  rewrite Ht' in Ht. apply app_inv_head in Ht. now subst evs'.
Qed.

Lemma grant_run_zero (dir : string) (security : Z) (error : option GError)
  (g : list Event) (ok : gboolean) (err : option GError)
  (fd : Z) (f : option File) (data : bytes) (e : Z) :
  grant_run dir security error g ok err ->
  In (EvWrite fd f data 0 e) g ->
  ok = FALSE /\ err = error.
Proof.
  intros [(e0 & -> & _)|(fd0 & j & r & e1 & c & _ & -> & Hres)] Hin;
    in_cases Hin.
  assert (Hr : r = 0) by congruence.
  destruct Hres as [(Hr' & _)|[(_ & Hok & He)|[(Hr' & _)|(Hr' & _)]]];
    try lia; auto.
Qed.

Lemma grant_write_in_part (dir : string) (security : Z) (error : option GError)
  (evs : list Event) (ok : gboolean) (err : option GError) (ev : Event) :
  grant_part dir security error evs ok err ->
  In ev evs -> writes_attr "authorized" ev = true ->
  exists g sec',
    In ev g /\ incl g evs /\ grant_run dir sec' error g ok err
    /\ (security <> char_code "2" -> sec' = security).
Proof.
  intros [(_ & Hall)|(head & g & rest & sec' & -> & Hh & Hr & Hg & Hs)] Hin Hw.
  - rewrite Forall_forall in Hall. apply Hall in Hin.
    unfold no_grant_write in Hin. congruence.
  - rewrite Forall_forall in Hh, Hr.
    rewrite !in_app_iff in Hin. destruct Hin as [Hin|[Hin|Hin]].
    + apply Hh in Hin. unfold no_grant_write in Hin. congruence.
    + exists g, sec'. split; [exact Hin|]. split; [|auto].
      intros x Hx. rewrite !in_app_iff. auto.
    + apply Hr in Hin. unfold no_grant_write in Hin. congruence.
Qed.

(** X15: a write to [authorized] that takes no byte makes the run fail, and no
    error is set for it: with [error] unset on entry, the caller gets
    [FALSE] and no error. *)
Theorem zero_grant_write_sets_no_error (mgr : TbManager) (dev dev' : TbDevice)
  (u : string) (w w' : World) (ok : gboolean) (err : option GError)
  (evs : list Event) (fd : Z) (dir : string) (data : bytes) (e : Z) :
  uid dev = Some u ->
  tb_device_authorize TB_KEY_CHARS mgr dev None w = Returned (ok, dev', err) w' ->
  trace w' = trace w ++ evs ->
  In (EvWrite fd (Some (Attr dir "authorized")) data 0 e) evs ->
  ok = FALSE /\ err = None.
Proof.
  intros Hu H Ht Hin.
  pose proof (device_run_of _ _ _ _ _ _ _ _ _ _ Hu H Ht) as Hrun.
  apply device_run_grant_part in Hrun.
  destruct Hrun as [(_ & -> & _)|(_ & sd & _ & Hp)]; [contradiction|].
  destruct (grant_write_in_part _ _ _ _ _ _ _ Hp Hin eq_refl)
    as (g & sec' & Hg & _ & Hrun & _).
  eapply grant_run_zero; eassumption.
Qed.

Lemma tb_manager_lookup_uid (mgr : TbManager) (u : string) (dev : TbDevice) :
  tb_manager_lookup mgr u = Some dev -> uid dev = Some u.
Proof.
  unfold tb_manager_lookup. intros H. apply find_some in H.
  destruct H as (_ & H). unfold uid_eqb in H.
  destruct (uid dev) as [x|]; [|discriminate H].
  apply String.eqb_eq in H. now subst.
Qed.

Lemma fd_in_use_cons (fd fd' : Z) (f : File) (t : list (Z * File)) :
  fd_in_use fd ((fd', f) :: t) = false ->
  (fd' =? fd) = false /\ fd_in_use fd t = false.
Proof.
  unfold fd_in_use. cbn [existsb fst]. intros H.
  apply Bool.orb_false_iff in H. exact H.
Qed.

Lemma release_other (fd fd' : Z) (f : File) (t : list (Z * File)) :
  (fd' =? fd) = false -> release fd ((fd', f) :: t) = (fd', f) :: release fd t.
Proof. intros H. cbn [release]. now rewrite H. Qed.

Lemma authorize_in_dir_fds (mgr : TbManager) (dev : TbDevice) (u : string)
  (security : Z) (d : DIR) (error : option GError) (w w' : World)
  (ok : gboolean) (err : option GError) :
  security <> char_code "2" ->
  authorize_in_dir TB_KEY_CHARS mgr dev u security d error w = (ok, err, w') ->
  fds w' = fds w.
Proof.
  unfold authorize_in_dir. intros Hs H.
  destruct (tb_openat d "unique_id" O_RDONLY error w) as [[fd err0] w1] eqn:Eo.
  apply tb_openat_spec in Eo.
  destruct Eo as (_ & [(-> & Hf1 & _)|(Hfd & _ & Hf1 & _)]).
  { cbn [Z.ltb Z.compare] in H. injection H as <- <- <-. exact Hf1. }
  assert (Hn : (fd <? 0) = false) by (apply Z.ltb_ge; lia).
  rewrite Hn in H. unfold tb_verify_uid in H.
  destruct (tb_verify_uid_retry _ fd u err0 w1) as [[ok1 err1] w2] eqn:Ev.
  apply tb_verify_uid_retry_spec in Ev; [|lia].
  destruct Ev as (k & r & e & data & _ & Hf2 & _).
  destruct (sys_close fd w2) as [c w3] eqn:Ec.
  apply sys_close_spec in Ec. destruct Ec as (_ & Hf3 & _).
  assert (Hf : fds w3 = fds w)
    by (rewrite Hf3, Hf2, Hf1; apply release_head).
  destruct (negb ok1).
  { injection H as <- <- <-. exact Hf. }
  destruct (security =? char_code "2") eqn:E;
    [apply Z.eqb_eq in E; contradiction|].
  apply write_grant_spec in H. destruct H as (evs & _ & Hf4 & _). congruence.
Qed.

Lemma authorize_in_dir_secure_fds (mgr : TbManager) (dev : TbDevice)
  (u : string) (d : DIR) (error : option GError) (w w' : World)
  (err : option GError) :
  authorize_in_dir TB_KEY_CHARS mgr dev u (char_code "2") d error w
  = (TRUE, err, w') ->
  exists from kf,
    fd_in_use from (fds w) = false /\ fds w' = (from, Path kf) :: fds w.
Proof.
  unfold authorize_in_dir. intros H.
  destruct (tb_openat d "unique_id" O_RDONLY error w) as [[fd err0] w1] eqn:Eo.
  apply tb_openat_spec in Eo.
  destruct Eo as (_ & [(-> & Hf1 & _)|(Hfd & _ & Hf1 & _)]).
  { cbn [Z.ltb Z.compare] in H. discriminate H. }
  assert (Hn : (fd <? 0) = false) by (apply Z.ltb_ge; lia).
  rewrite Hn in H. unfold tb_verify_uid in H.
  destruct (tb_verify_uid_retry _ fd u err0 w1) as [[ok1 err1] w2] eqn:Ev.
  apply tb_verify_uid_retry_spec in Ev; [|lia].
  destruct Ev as (k & r & e & data & _ & Hf2 & _).
  destruct (sys_close fd w2) as [c w3] eqn:Ec.
  apply sys_close_spec in Ec. destruct Ec as (_ & Hf3 & _).
  assert (Hf : fds w3 = fds w)
    by (rewrite Hf3, Hf2, Hf1; apply release_head).
  destruct (negb ok1); [discriminate H|].
  rewrite Z.eqb_refl in H.
  destruct (tb_manager_ensure_key mgr dev FALSE FALSE err1 w3)
    as [[[key created] err2] w4] eqn:Ek.
  apply tb_manager_ensure_key_spec in Ek. destruct Ek as (_ & Hf4 & _).
  destruct key as [kf|]; [|discriminate H].
  destruct (tb_openat d "key" O_WRONLY err2 w4) as [[keyfd err3] w5] eqn:Eo2.
  apply tb_openat_spec in Eo2.
  destruct Eo2 as (_ & [(-> & _)|(Hkfd & _ & Hf5 & _)]).
  { cbn [Z.ltb Z.compare] in H. discriminate H. }
  assert (Hn2 : (keyfd <? 0) = false) by (apply Z.ltb_ge; lia).
  rewrite Hn2 in H.
  destruct (copy_key TB_KEY_CHARS kf keyfd err3 w5) as [[ok2 err4] w6] eqn:Ec2.
  apply copy_key_spec in Ec2.
  destruct Ec2 as (from & reads & writes & _ & _ & _ & Hres).
  destruct ok2; cbn [negb] in H.
  2:{ destruct (sys_close fd w6). discriminate H. }
  destruct Hres as [(_ & _ & _ & _ & Hno & _)|(_ & Hfresh & Hf6 & _)];
    [discriminate Hno|].
  destruct (tb_close keyfd err4 w6) as [[ok3 err5] w7] eqn:Ec3.
  apply tb_close_spec in Ec3. destruct Ec3 as (c3 & _ & Hf7 & _).
  destruct ok3; cbn [negb] in H; [|discriminate H].
  apply write_grant_spec in H. destruct H as (evs & _ & Hf8 & _).
  rewrite Hf5, Hf4, Hf in Hfresh, Hf6.
  apply fd_in_use_cons in Hfresh. destruct Hfresh as (Hne & Hfresh).
  exists from, kf. split; [exact Hfresh|].
  rewrite Hf8, Hf7, Hf6.
  assert (Hne' : (from =? keyfd) = false) by (rewrite Z.eqb_sym; exact Hne).
  rewrite (release_other _ _ _ _ Hne'), release_head. reflexivity.
Qed.

(** X12: below the level Secure every descriptor the engine opens is closed
    again before it returns, whatever the system calls answer: the table of
    open descriptors is as it was found. *)
Theorem non_secure_leaves_no_descriptor (mgr : TbManager) (dev dev' : TbDevice)
  (u : string) (error : option GError) (w w' : World) (ok : gboolean)
  (err : option GError) :
  uid dev = Some u ->
  tb_manager_get_security_level mgr <> TB_SECURITY_SECURE ->
  tb_device_authorize TB_KEY_CHARS mgr dev error w = Returned (ok, dev', err) w' ->
  fds w' = fds w.
Proof.
  unfold tb_device_authorize, TB_SECURITY_SECURE. intros -> Hs H.
  destruct (tb_manager_get_security_level mgr <? 1);
    [injection H as <- <- <- <-; reflexivity|].
  destruct (tb_device_get_sysfs_path dev) as [dir|]; [|discriminate H].
  unfold sys_opendir in H. destruct (failed (answer w)) eqn:Fa.
  - injection H as <- <- <- <-. reflexivity.
  - destruct (authorize_in_dir _ _ _ _ _ _ _ _) as [[ok1 err1] w1] eqn:Ea.
    apply (authorize_in_dir_fds _ _ _ _ _ _ _ _ _ _ Hs) in Ea.
    injection H as <- <- <- <-. unfold sys_closedir.
    cbn [step fds dirfd] in *. rewrite Ea. apply release_head.
Qed.

(** X13: at the level Secure a run that succeeds leaves one descriptor open that
    was not open before: the one [copy_key] has read the key file through,
    which is never closed. *)
Theorem secure_success_leaves_key_file_open (mgr : TbManager)
  (dev dev' : TbDevice) (u : string) (error : option GError) (w w' : World)
  (err : option GError) :
  uid dev = Some u ->
  tb_manager_get_security_level mgr = TB_SECURITY_SECURE ->
  tb_device_authorize TB_KEY_CHARS mgr dev error w
  = Returned (TRUE, dev', err) w' ->
  exists from kf,
    fd_in_use from (fds w) = false /\ fds w' = (from, Path kf) :: fds w.
Proof.
  unfold tb_device_authorize, TB_SECURITY_SECURE. intros -> -> H.
  assert (Hc : (char_code "2" <? 1) = false) by reflexivity.
  rewrite Hc in H.
  destruct (tb_device_get_sysfs_path dev) as [dir|]; [|discriminate H].
  unfold sys_opendir in H. destruct (failed (answer w)) eqn:Fa.
  - discriminate H.
  - destruct (authorize_in_dir _ _ _ _ _ _ _ _) as [[ok1 err1] w1] eqn:Ea.
    injection H as -> <- <- <-.
    apply authorize_in_dir_secure_fds in Ea.
    destruct Ea as (from & kf & Hfresh & Hf). cbn [fds step] in Hfresh, Hf.
    apply fd_in_use_cons in Hfresh. destruct Hfresh as (Hne & Hfresh).
    exists from, kf. split; [exact Hfresh|].
    unfold sys_closedir. cbn [step fds dirfd]. rewrite Hf.
    assert (Hne' : (from =? alloc_fd (ans_ret (answer w)) (fds w)) = false)
      by (rewrite Z.eqb_sym; exact Hne).
    rewrite (release_other _ _ _ _ Hne'), release_head. reflexivity.
Qed.

(** X16: when a write to [authorized] takes no byte, [authorize_device] does not
    return: the engine has failed without an error, and the command reads the
    message of the error it has not got. *)
Theorem authorize_device_stops_on_zero_grant_write
  (parse : bool -> list string -> option (list string * (bool * bool)))
  (mgr : TbManager) (do_store do_auto : gboolean) (argv argv' : list string)
  (flags : bool * bool) (dev dev' : TbDevice) (w w' : World) (ok : gboolean)
  (err : option GError) (evs : list Event) (fd : Z) (dir : string)
  (data : bytes) (e : Z) :
  parse true argv = Some (argv', flags) ->
  (2 <= List.length argv')%nat ->
  tb_manager_lookup mgr (nth 1 argv' EmptyString) = Some dev ->
  tb_device_authorize TB_KEY_CHARS mgr dev None w = Returned (ok, dev', err) w' ->
  trace w' = trace w ++ evs ->
  In (EvWrite fd (Some (Attr dir "authorized")) data 0 e) evs ->
  authorize_device TB_KEY_CHARS parse mgr do_store do_auto argv w = Aborted w'.
Proof.
  intros Hp Hl Hd H Ht Hin.
  pose proof (tb_manager_lookup_uid _ _ _ Hd) as Hu.
  pose proof (device_run_of _ _ _ _ _ _ _ _ _ _ Hu H Ht) as Hrun.
  apply device_run_grant_part in Hrun.
  destruct Hrun as [(_ & -> & _)|(_ & sd & _ & Hpart)]; [contradiction|].
  destruct (grant_write_in_part _ _ _ _ _ _ _ Hpart Hin eq_refl)
    as (g & sec' & Hg & _ & Hrun & _).
  destruct (grant_run_zero _ _ _ _ _ _ _ _ _ _ Hrun Hg) as (-> & ->).
  unfold authorize_device, authorize_device_with. rewrite Hp.
  destruct flags as [s a].
  destruct (List.length argv' <? 2)%nat eqn:E;
    [apply Nat.ltb_lt in E; lia|].
  rewrite Hd, H. reflexivity.
Qed.

Lemma late_event_inner (dir : string) (ev : Event) :
  late_event dir ev -> inner_event ev = true.
Proof. destruct 1; reflexivity. Qed.

Lemma authorize_run_inner (dev : TbDevice) (u dir : string) (security : Z)
  (error : option GError) (evs : list Event) (ok : gboolean)
  (err : option GError) :
  authorize_run TB_KEY_CHARS dev u dir security error evs ok err ->
  Forall (fun ev => inner_event ev = true) evs.
Proof.
  intros [(e0 & -> & _)|(ufd & k & r & e & data & c & rest & _ & -> & Hv)].
  - each_event. reflexivity.
  - each_event; try reflexivity.
    destruct Hv as [(_ & _ & -> & _)|[(_ & _ & -> & _)|(_ & _ & Hav)]];
      try constructor.
    apply after_verify_late in Hav.
    destruct Hav as [Hl|(key & created & rest' & -> & Hl)].
    + eapply Forall_impl; [|exact Hl]. apply late_event_inner.
    + constructor; [reflexivity|].
      eapply Forall_impl; [|exact Hl]. apply late_event_inner.
Qed.

(** X9: a directory that has been opened is the first thing in the log of the
    run and its closing is the last, on every way out; it is the directory
    of the device, and nothing in between opens or closes a directory. *)
Theorem directory_opened_first_closed_last (mgr : TbManager)
  (dev dev' : TbDevice) (u : string) (error : option GError) (w w' : World)
  (ok : gboolean) (err : option GError) (evs pre post : list Event)
  (dir : string) (dfd : Z) :
  uid dev = Some u ->
  tb_device_authorize TB_KEY_CHARS mgr dev error w = Returned (ok, dev', err) w' ->
  trace w' = trace w ++ evs ->
  evs = pre ++ EvOpendir dir dfd :: post ->
  0 <= dfd ->
  pre = [] /\ sysfs dev = Some dir
  /\ exists body,
      post = body ++ [EvClosedir dfd]
      /\ Forall (fun ev => inner_event ev = true) body.
Proof.
  intros Hu H Ht He Hd.
  pose proof (device_run_of _ _ _ _ _ _ _ _ _ _ Hu H Ht) as Hrun.
  destruct Hrun as [(_ & -> & _)
                   |(_ & sd & Hsd & [(-> & _)|(dfd0 & body & _ & -> & Ha)])].
  - now apply app_cons_not_nil in He.
  - destruct pre as [|a pre]; cbn [app] in He.
    + injection He as <- <-. lia.
    + injection He as _ He. now apply app_cons_not_nil in He.
  - apply authorize_run_inner in Ha.
    destruct pre as [|a pre]; cbn [app] in He.
    + injection He as <- <- <-. split; [reflexivity|]. split; [exact Hsd|].
      exists body. auto.
    + injection He as _ He.
      assert (Hin : In (EvOpendir dir dfd) (body ++ [EvClosedir dfd0]))
        by (rewrite He; apply in_elt).
      rewrite Forall_forall in Ha. apply in_app_iff in Hin.
      destruct Hin as [Hin|Hin]; [apply Ha in Hin; discriminate Hin|].
      in_cases Hin.
Qed.

Lemma grant_run_no_key (dir : string) (security : Z) (error : option GError)
  (evs : list Event) (ok : gboolean) (err : option GError) :
  grant_run dir security error evs ok err ->
  Forall (fun ev => touches_key ev = false) evs.
Proof.
  intros [(e & -> & _)|(fd & j & r & e & c & _ & -> & _)];
    each_event; reflexivity.
Qed.

(** X10: below the level Secure no key is provisioned: the key store is not
    asked, neither [key] nor a key file is opened, read or written. *)
Theorem non_secure_never_touches_key (mgr : TbManager) (dev dev' : TbDevice)
  (u : string) (error : option GError) (w w' : World) (ok : gboolean)
  (err : option GError) (evs : list Event) :
  uid dev = Some u ->
  tb_manager_get_security_level mgr <> TB_SECURITY_SECURE ->
  tb_device_authorize TB_KEY_CHARS mgr dev error w = Returned (ok, dev', err) w' ->
  trace w' = trace w ++ evs ->
  Forall (fun ev => touches_key ev = false) evs.
Proof.
  intros Hu Hs H Ht.
  pose proof (device_run_of _ _ _ _ _ _ _ _ _ _ Hu H Ht) as Hrun.
  unfold TB_SECURITY_SECURE in Hs.
  destruct Hrun as [(_ & -> & _)
                   |(_ & sd & _ & [(-> & _)|(dfd & body & _ & -> & Ha)])].
  - constructor.
  - each_event. reflexivity.
  - destruct Ha as [(e0 & -> & _)
                   |(ufd & k & r & e & data & c & rest & _ & -> & Hv)].
    + each_event; reflexivity.
    + each_event; try reflexivity.
      destruct Hv as [(_ & _ & -> & _)|[(_ & _ & -> & _)|(_ & _ & Hav)]];
        try constructor.
      destruct Hav as [(_ & Hg)|(Heq & _)]; [|contradiction].
      eapply grant_run_no_key; exact Hg.
Qed.

(** X11: below the level Secure the byte written to [authorized] is the security
    level of the manager, as a character, in every write; a run at a level
    of at least 1 that succeeds has written it with a write that took it. *)
Theorem non_secure_grant_byte (mgr : TbManager) (dev dev' : TbDevice)
  (u : string) (error : option GError) (w w' : World) (ok : gboolean)
  (err : option GError) (evs : list Event) :
  uid dev = Some u ->
  tb_manager_get_security_level mgr <> TB_SECURITY_SECURE ->
  tb_device_authorize TB_KEY_CHARS mgr dev error w = Returned (ok, dev', err) w' ->
  trace w' = trace w ++ evs ->
  (forall fd dir data r e,
      In (EvWrite fd (Some (Attr dir "authorized")) data r e) evs ->
      data = [char_of_int (tb_manager_get_security_level mgr)])
  /\ (1 <= tb_manager_get_security_level mgr -> ok = TRUE ->
      exists fd dir e,
        sysfs dev = Some dir
        /\ In (EvWrite fd (Some (Attr dir "authorized"))
                       [char_of_int (tb_manager_get_security_level mgr)] 1 e)
              evs).
Proof.
  intros Hu Hs H Ht.
  pose proof (device_run_of _ _ _ _ _ _ _ _ _ _ Hu H Ht) as Hrun.
  unfold TB_SECURITY_SECURE in Hs.
  apply device_run_grant_part in Hrun.
  destruct Hrun as [(Hlt & -> & _)|(_ & sd & Hsd & Hpart)].
  { split; [intros * Hin; contradiction|intros; lia]. }
  split.
  - intros * Hin.
    destruct (grant_write_in_part _ _ _ _ _ _ _ Hpart Hin eq_refl)
      as (g & sec' & Hg & _ & Hrun & Hsec).
    rewrite <- (Hsec Hs). eapply grant_run_writes; eassumption.
  - intros _ ->.
    destruct Hpart as [(Hf & _)|(head & g & rest & sec' & -> & _ & _ & Hg & Hsec)];
      [discriminate Hf|].
    rewrite (Hsec Hs) in Hg. apply grant_run_success in Hg.
    destruct Hg as (_ & fd & e & Hin). exists fd, sd, e.
    split; [exact Hsd|]. rewrite !in_app_iff. auto.
Qed.

Lemma no_act_in (l pre post : list Event) (ev : Event) :
  Forall (fun y => acts y = false) l ->
  l = pre ++ ev :: post -> acts ev = true -> False.
Proof.
  intros Hall -> Ha. rewrite Forall_forall in Hall.
  rewrite (Hall ev) in Ha; [discriminate Ha|]. apply in_elt.
Qed.

(** X8: whatever the engine does to the device or for its key (calling the key
    store, opening an attribute other than [unique_id] or a key file,
    reading a key file, writing anything) comes after a read of [unique_id]
    that has delivered exactly the uid of the device. *)
Theorem verification_precedes_action (mgr : TbManager) (dev dev' : TbDevice)
  (u : string) (error : option GError) (w w' : World) (ok : gboolean)
  (err : option GError) (evs pre post : list Event) (ev : Event) :
  uid dev = Some u ->
  tb_device_authorize TB_KEY_CHARS mgr dev error w = Returned (ok, dev', err) w' ->
  trace w' = trace w ++ evs ->
  evs = pre ++ ev :: post ->
  acts ev = true ->
  exists fd dir r e,
    sysfs dev = Some dir /\ 0 <= r
    /\ In (EvRead fd (Some (Attr dir "unique_id")) (String.length u) r e
                  (list_ascii_of_string u)) pre.
Proof.
  intros Hu H Ht He Hact.
  pose proof (device_run_of _ _ _ _ _ _ _ _ _ _ Hu H Ht) as Hrun.
  destruct Hrun as [(_ & -> & _)
                   |(_ & sd & Hsd & [(-> & _)|(dfd & body & _ & -> & Ha)])].
  - now apply app_cons_not_nil in He.
  - exfalso. eapply no_act_in; [|exact He|exact Hact]. each_event. reflexivity.
  - destruct Ha as [(e0 & -> & _)
                   |(ufd & k & r & e & data & c & rest & _ & -> & Hv)].
    { exfalso. eapply no_act_in; [|exact He|exact Hact].
      each_event; reflexivity. }
    destruct Hv as [(_ & _ & -> & _)|[(_ & _ & -> & _)|(Hr & -> & _)]];
      try (exfalso; eapply no_act_in; [|exact He|exact Hact];
           each_event; reflexivity).
    set (U := Attr sd "unique_id") in *.
    set (R := EvRead ufd (Some U) (String.length u) r e (list_ascii_of_string u))
      in *.
    assert (Hsplit :
              (EvOpendir sd dfd :: EvOpen U O_RDONLY ufd
               :: repeat (interrupted_read ufd (Some U) (String.length u)) k
               ++ [R; EvClose ufd (Some U) c])
              ++ (rest ++ [EvClosedir dfd])
              = pre ++ ev :: post).
    { rewrite <- He. cbn [app]. rewrite <- !app_assoc. reflexivity. }
    apply (split_after (fun y => acts y = true)) in Hsplit;
      [|each_event; cbn; discriminate|exact Hact].
    destruct Hsplit as (pre' & ->).
    exists ufd, sd, r, e. split; [exact Hsd|]. split; [exact Hr|].
    unfold R. here.
Qed.

Lemma filter_no_grant (l : list Event) :
  Forall no_grant_write l -> filter (writes_attr "authorized") l = [].
Proof.
  induction 1 as [|ev l Hev _ IH]; [reflexivity|].
  cbn [filter]. unfold no_grant_write in Hev. now rewrite Hev.
Qed.

Lemma filter_interrupted_grant (fd : Z) (dir : string) (buf : bytes) (j : nat) :
  filter (writes_attr "authorized")
         (repeat (interrupted_write fd (Some (Attr dir "authorized")) buf) j)
  = repeat (interrupted_write fd (Some (Attr dir "authorized")) buf) j.
Proof. induction j as [|j IH]; [reflexivity|]. cbn. cbn in IH. now rewrite IH. Qed.

(** X14: the grant is written once: in the log of a run the writes to
    [authorized] are one write of one byte, preceded only by the attempts
    at it that were interrupted.  A write that fails or takes no byte is not
    tried again, and a run that succeeds has written the byte. *)
Theorem grant_written_once (mgr : TbManager) (dev dev' : TbDevice)
  (u : string) (error : option GError) (w w' : World) (ok : gboolean)
  (err : option GError) (evs : list Event) :
  uid dev = Some u ->
  tb_device_authorize TB_KEY_CHARS mgr dev error w = Returned (ok, dev', err) w' ->
  trace w' = trace w ++ evs ->
  (ok = FALSE /\ filter (writes_attr "authorized") evs = [])
  \/ (tb_manager_get_security_level mgr < 1 /\ evs = [])
  \/ exists fd dir b j r e,
      filter (writes_attr "authorized") evs
      = repeat (interrupted_write fd (Some (Attr dir "authorized")) [b]) j
        ++ [EvWrite fd (Some (Attr dir "authorized")) [b] r e]
      /\ (r = -1 -> e <> EINTR) /\ -1 <= r <= 1
      /\ (ok = TRUE -> r = 1 /\ err = error).
Proof.
  intros Hu H Ht.
  pose proof (device_run_of _ _ _ _ _ _ _ _ _ _ Hu H Ht) as Hrun.
  apply device_run_grant_part in Hrun.
  destruct Hrun as [(Hlt & -> & _)|(_ & sd & _ & Hpart)]; [auto|].
  destruct Hpart as [(Hf & Hall)
                    |(head & g & rest & sec' & -> & Hh & Hr & Hg & _)].
  { left. split; [exact Hf|]. now apply filter_no_grant. }
  rewrite !filter_app, (filter_no_grant _ Hh), (filter_no_grant _ Hr),
    app_nil_r.
  cbn [app].
  destruct Hg as [(e0 & -> & Hf & _)|(fd & j & r & e & c & _ & -> & Hres)].
  { left. split; [exact Hf|reflexivity]. }
  right; right. exists fd, sd, (char_of_int sec'), j, r, e.
  split.
  { cbn [filter writes_attr]. rewrite filter_app, filter_interrupted_grant.
    reflexivity. }
  destruct Hres as [(-> & Hne & -> & _)
                   |[(-> & -> & _)|[(-> & _ & -> & _)|(-> & _ & -> & ->)]]].
  all: split; [intros; try lia; assumption|].
  all: split; [lia|].
  all: intros Heq; try discriminate Heq; auto.
Qed.

End EngineMore.

(** ** More about the commands *)

Section CommandsMore.

Variable g_option_context_parse :
  bool -> list string -> option (list string * (bool * bool)).

Variable engine :
  TbManager -> TbDevice -> option GError -> World ->
  Outcome (gboolean * TbDevice * option GError).

(** X17: with arguments that cannot be parsed, that hold no device id or that
    name a device the manager does not know, both commands return
    [EXIT_FAILURE] and have done nothing but print one line to the error
    stream, whatever the engine would do: it is not called. *)
Theorem commands_reject_bad_arguments (mgr : TbManager)
  (do_store do_auto : gboolean) (argv : list string) (w : World) :
  (bad_arguments (g_option_context_parse true argv) mgr ->
   exists t,
     authorize_device_with g_option_context_parse engine mgr do_store do_auto
                           argv w
     = Returned (EXIT_FAILURE, None) (g_printerr t w))
  /\ (bad_arguments (g_option_context_parse false argv) mgr ->
      exists t,
        auto_device_with g_option_context_parse engine mgr argv w
        = Returned (EXIT_FAILURE, None) (g_printerr t w)).
Proof.
  unfold bad_arguments, authorize_device_with, auto_device_with. split.
  - destruct (g_option_context_parse true argv) as [[argv' [s a]]|];
      [|intros _; eauto].
    intros [Hl|Hd].
    + apply Nat.ltb_lt in Hl. rewrite Hl. eauto.
    + destruct (List.length argv' <? 2)%nat; [eauto|]. rewrite Hd. eauto.
  - destruct (g_option_context_parse false argv) as [[argv' [s a]]|];
      [|intros _; eauto].
    intros [Hl|Hd].
    + apply Nat.ltb_lt in Hl. rewrite Hl. eauto.
    + destruct (List.length argv' <? 2)%nat; [eauto|]. rewrite Hd. eauto.
Qed.

(** X18: after the engine has succeeded, [authorize_device] stores the device
    when [--store] or [--auto] is in force and only then; with [--auto] the
    device it stores and leaves has the policy [TB_POLICY_AUTO], without it
    the device is as the engine returned it.  The store is asked once and
    the exit status is [EXIT_SUCCESS] exactly when it has not failed. *)
Theorem authorize_device_stores_iff_asked (mgr : TbManager)
  (do_store do_auto : gboolean) (argv argv' : list string)
  (seen_store seen_auto : bool) (dev dev1 : TbDevice) (err : option GError)
  (w w1 : World) :
  g_option_context_parse true argv = Some (argv', (seen_store, seen_auto)) ->
  (2 <= List.length argv')%nat ->
  tb_manager_lookup mgr (nth 1 argv' EmptyString) = Some dev ->
  engine mgr dev None w = Returned (TRUE, dev1, err) w1 ->
  let auto := do_auto || seen_auto in
  let kept := if auto then g_object_set_policy dev1 TB_POLICY_AUTO else dev1 in
  let out :=
    authorize_device_with g_option_context_parse engine mgr do_store do_auto
                          argv w in
  exists st evs,
    out = Returned (st, Some kept) (outcome_world out)
    /\ trace (outcome_world out) = trace w1 ++ evs
    /\ (do_store || seen_store || auto = false ->
        evs = [] /\ st = EXIT_SUCCESS /\ outcome_world out = w1)
    /\ (do_store || seen_store || auto = true ->
        script (outcome_world out) = tl (script w1)
        /\ exists b,
          filter is_store evs = [EvStore kept b]
          /\ hd_error evs = Some (EvStore kept b)
          /\ (st = EXIT_SUCCESS <-> b = true)).
Proof.
  intros Hp Hl Hd He auto kept out. subst auto kept out.
  unfold authorize_device_with. rewrite Hp.
  destruct (List.length argv' <? 2)%nat eqn:E;
    [apply Nat.ltb_lt in E; lia|].
  rewrite Hd, He. unfold tb_manager_store, g_printerr, emit, step, TRUE, FALSE.
  cbn [negb].
  destruct (do_auto || seen_auto) eqn:Ea;
    [rewrite Bool.orb_true_r|rewrite Bool.orb_false_r;
                             destruct (do_store || seen_store) eqn:Es].
  3:{ exists EXIT_SUCCESS, []. cbn [outcome_world]. rewrite app_nil_r.
      repeat split; try reflexivity; discriminate. }
  all: destruct (failed (answer w1)); [destruct err as [e|]|];
    cbn [g_set_error negb outcome_world trace script];
    eexists; eexists; (split; [reflexivity|]);
    rewrite <- ?app_assoc; (split; [reflexivity|]);
    (split; [discriminate|]); intros _; (split; [reflexivity|]);
    eexists; cbn [filter is_store app hd_error];
    (split; [reflexivity|]); (split; [reflexivity|]);
    split; intros Hx; try reflexivity; discriminate Hx.
Qed.

End CommandsMore.

Section AutoMore.

Variable TB_KEY_CHARS : nat.

Lemma device_run_no_store (dev : TbDevice) (u : string) (security : Z)
  (error : option GError) (evs : list Event) (ok : gboolean)
  (err : option GError) :
  device_run TB_KEY_CHARS dev u security error evs ok err ->
  Forall (fun ev => is_store ev = false) evs.
Proof.
  intros [(_ & -> & _)
         |(_ & sd & _ & [(-> & _)|(dfd & body & _ & -> & Ha)])].
  - constructor.
  - each_event. reflexivity.
  - apply authorize_run_inner in Ha. each_event; try reflexivity.
    eapply Forall_impl; [|exact Ha]. intros [] Hi; try reflexivity;
      discriminate Hi.
Qed.

(** X19: for a device that is in the store with the policy auto, [auto_device]
    does what the engine does and nothing else: it returns [EXIT_SUCCESS]
    when the engine succeeds and fails when it fails, and it never stores
    the device nor changes it. *)
Theorem auto_device_never_stores
  (parse : bool -> list string -> option (list string * (bool * bool)))
  (mgr : TbManager) (argv argv' : list string) (flags : bool * bool)
  (dev dev' : TbDevice) (ok : gboolean) (err : option GError) (w w1 : World) :
  parse false argv = Some (argv', flags) ->
  (2 <= List.length argv')%nat ->
  tb_manager_lookup mgr (nth 1 argv' EmptyString) = Some dev ->
  tb_device_in_store dev = true ->
  tb_device_get_policy dev = TB_POLICY_AUTO ->
  tb_device_authorize TB_KEY_CHARS mgr dev None w = Returned (ok, dev', err) w1 ->
  let out := auto_device TB_KEY_CHARS parse mgr argv w in
  (ok = TRUE -> out = Returned (EXIT_SUCCESS, Some dev) w1)
  /\ (ok = FALSE -> ends_in_failure out)
  /\ (forall d, device_left out = Some d -> d = dev)
  /\ exists evs,
      trace (outcome_world out) = trace w ++ evs
      /\ Forall (fun ev => is_store ev = false) evs.
Proof.
  intros Hp Hl Hd Hst Hpol He out. subst out.
  pose proof (tb_manager_lookup_uid _ _ _ Hd) as Hu.
  destruct (tb_device_authorize_spec _ _ _ _ _ _ _ _ _ _ Hu He)
    as (-> & evs & Ht & Hrun).
  apply device_run_no_store in Hrun.
  unfold auto_device, auto_device_with. rewrite Hp.
  destruct (List.length argv' <? 2)%nat eqn:E;
    [apply Nat.ltb_lt in E; lia|].
  rewrite Hd, Hst, Hpol, He. cbn [negb TbPolicy_eqb].
  destruct ok; cbn [negb].
  - repeat split; try reflexivity; try discriminate.
    + intros d Hd'. now injection Hd'.
    + exists evs. auto.
  - destruct err as [e|]; cbn [ends_in_failure device_left outcome_world].
    + repeat split; try reflexivity; try discriminate.
      * intros d Hd'. now injection Hd'.
      * exists (evs ++ [EvPrint Stderr (Could_not_authorize (message e) (code e))]).
        unfold g_printerr, emit. cbn [trace]. rewrite Ht, <- app_assoc.
        split; [reflexivity|]. apply Forall_app. split; [exact Hrun|].
        each_event. reflexivity.
    + repeat split; try discriminate. exists evs. auto.
Qed.

End AutoMore.

(** ** [make_args] *)

Lemma firstn_snoc {A} (l : list A) (k : nat) (x : A) :
  nth_error l k = Some x -> firstn (S k) l = firstn k l ++ [x].
Proof.
  revert k. induction l as [|a l IH]; intros [|k] H; try discriminate H.
  - now injection H as ->.
  - cbn [nth_error] in H. cbn [firstn app]. f_equal. apply IH, H.
Qed.

Lemma make_args_loop_fills (argv : list string) (n : nat) :
  forall (k : nat) (slots : list (option string)),
    List.length slots = n ->
    (k + n <= List.length (tl argv))%nat ->
    make_args_loop n (S k) argv (map Some (firstn k (tl argv)) ++ slots)
    = Some (map Some (firstn (k + n) (tl argv))).
Proof.
  induction n as [|n IH]; intros k slots Hl Hk.
  - destruct slots; [|discriminate Hl]. cbn [make_args_loop].
    now rewrite app_nil_r, Nat.add_0_r.
  - destruct slots as [|x slots]; [discriminate Hl|]. injection Hl as Hl.
    cbn [make_args_loop].
    assert (Hnth : exists s, nth_error argv (S k) = Some s
                             /\ nth_error (tl argv) k = Some s).
    { destruct argv as [|a argv]; cbn [tl List.length] in *; [lia|].
      cbn [nth_error]. destruct (nth_error argv k) eqn:En; [eauto|].
      apply nth_error_None in En. lia. }
    destruct Hnth as (s & -> & Hs).
    replace (S k - 1)%nat with k by lia.
    assert (Hlen : List.length (map Some (firstn k (tl argv))) = k)
      by (rewrite length_map, length_firstn; lia).
    unfold store_arg. rewrite length_app, Hlen. cbn [List.length].
    destruct (k <? k + S (List.length slots))%nat eqn:E;
      [|apply Nat.ltb_ge in E; lia].
    rewrite firstn_app, Hlen, Nat.sub_diag, firstn_O, app_nil_r.
    rewrite firstn_all2 by lia.
    rewrite skipn_app, Hlen, skipn_all2 by lia.
    replace (S k - k)%nat with 1%nat by lia. cbn [skipn app].
    replace (map Some (firstn k (tl argv)) ++ Some s :: slots)
      with (map Some (firstn (S k) (tl argv)) ++ slots)
      by (rewrite (firstn_snoc _ _ _ Hs), map_app, <- app_assoc; reflexivity).
    rewrite (IH (S k) slots Hl) by lia.
    do 3 f_equal. lia.
Qed.

(** X20: called as [main] calls it, with the [argc] strings of [argv] and
    [argc >= 2], [make_args] hands back [argv] without its first string:
    the program name it stores first is overwritten by the first turn of
    the loop, every one of the [argc - 1] pointers is set, and there is no
    pointer left for a terminating [NULL]. *)
Theorem make_args_drops_program_name (argv : list string) :
  (2 <= List.length argv)%nat ->
  make_args (List.length argv) argv = Some (map Some (tl argv)).
Proof.
  intros Hl. destruct argv as [|a [|b rest]]; cbn [List.length] in Hl; try lia.
  unfold make_args, store_arg.
  cbn [List.length nth_error Nat.sub repeat Nat.ltb Nat.leb firstn skipn app tl].
  pose proof (make_args_loop_fills (a :: b :: rest) (S (List.length rest)) 0
                                   (Some a :: repeat None (List.length rest)))
    as H.
  cbn [firstn map app tl Nat.add List.length] in H.
  rewrite H; [now rewrite firstn_all|now rewrite repeat_length|lia].
Qed.

(** ** The further properties on the scenarios *)

Section OnCases.

Import Scenario Cases.

Local Open Scope string_scope.
Local Open Scope list_scope.

Lemma interrupted_twice_interrupts : Forall interrupts interrupted_twice.
Proof.
  unfold interrupted_twice.
  repeat (apply Forall_cons; [split; reflexivity|]). apply Forall_nil.
Defined.

Lemma tb_verify_uid_interrupted_witness :
  let w := boot (interrupted_twice ++ [rd "AA11"]) in
  Forall interrupts interrupted_twice
  /\ fst (tb_verify_uid 4 "AA11" None w) = (TRUE, None)
  /\ exists ok err w',
      tb_verify_uid 4 "AA11" None w = (ok, err, w')
      /\ trace w'
         = trace w
           ++ repeat (interrupted_read 4 (file_of 4 (fds w)) (String.length "AA11"))
                     (List.length interrupted_twice)
           ++ [EvRead 4 (file_of 4 (fds w)) (String.length "AA11")
                      (Z.of_nat (List.length
                                   (firstn (String.length "AA11")
                                           (ans_data (rd "AA11")))))
                      (errno w')
                      (firstn (String.length "AA11") (ans_data (rd "AA11")))]
      /\ script w' = []
      /\ (ok = TRUE
          <-> firstn (String.length "AA11") (ans_data (rd "AA11"))
              = list_ascii_of_string "AA11")
      /\ (ok = TRUE -> err = None).
Proof.
  intros w. split; [exact interrupted_twice_interrupts|].
  split; [vm_compute; reflexivity|].
  exact (tb_verify_uid_interrupted
           interrupted_twice (rd "AA11") [] 4 "AA11" None w
           interrupted_twice_interrupts eq_refl eq_refl).
Defined.

Lemma tb_write_char_interrupted_witness :
  let w := boot (interrupted_twice ++ [ans 1]) in
  Forall interrupts interrupted_twice
  /\ exists w',
      tb_write_char 4 "1" None w
      = ((0 <? Z.min (ans_ret (ans 1)) 1)%Z, None, w')
      /\ trace w'
         = trace w
           ++ repeat (interrupted_write 4 (file_of 4 (fds w)) ["1"%char])
                     (List.length interrupted_twice)
           ++ [EvWrite 4 (file_of 4 (fds w)) ["1"%char]
                       (Z.min (ans_ret (ans 1)) 1) (errno w')]
      /\ script w' = [].
Proof.
  intros w. split; [exact interrupted_twice_interrupts|].
  exact (tb_write_char_interrupted
           interrupted_twice (ans 1) [] 4 "1"%char None w
           interrupted_twice_interrupts eq_refl eq_refl).
Defined.

Lemma tb_read_all_interrupted_witness :
  let w := boot (interrupted_twice ++ [rd "01234567"; rd "89"]) in
  let data := firstn 8 (ans_data (rd "01234567")) in
  Forall interrupts interrupted_twice
  /\ exists w',
      tb_read_all 4 (repeat zero 8) 8 None w
      = (Z.of_nat 8, blit (repeat zero 8) 0 data, None, w')
      /\ trace w'
         = trace w
           ++ repeat (interrupted_read 4 (file_of 4 (fds w)) 8)
                     (List.length interrupted_twice)
           ++ [EvRead 4 (file_of 4 (fds w)) 8 (Z.of_nat 8) (errno w') data]
      /\ script w' = [rd "89"].
Proof.
  intros w data. split; [exact interrupted_twice_interrupts|].
  exact (tb_read_all_interrupted
           interrupted_twice (rd "01234567") [rd "89"] 4 (repeat zero 8) 8 None w
           ltac:(lia) interrupted_twice_interrupts eq_refl eq_refl
           ltac:(cbn; lia)).
Defined.

Lemma tb_verify_uid_compares_prefix_witness :
  failed (answer uid_read) = false
  /\ let '(ok, err, _) := tb_verify_uid 4 "AA11" None uid_read in
     (ok = TRUE
      <-> firstn (String.length "AA11") (ans_data (answer uid_read))
          = list_ascii_of_string "AA11")
     /\ (ok = TRUE -> err = None).
Proof.
  split; [reflexivity|].
  exact (tb_verify_uid_compares_prefix 4 "AA11" None uid_read eq_refl).
Defined.

Lemma tb_read_all_assembles_witness :
  let r := tb_read_all 4 (repeat zero 8) 8 None read_chunks in
  let evs := trace (snd r) in
  r = (6, list_ascii_of_string "012345" ++ repeat zero 2, None, snd r)
  /\ list_ascii_of_string "012345" ++ repeat zero 2
     = data_read evs ++ skipn (List.length (data_read evs)) (repeat zero 8)
  /\ (List.length (data_read evs) <= 8)%nat
  /\ ((6 = Z.of_nat (List.length (data_read evs)) /\ @None GError = None
       /\ (6 < Z.of_nat 8 ->
           exists pre f nb e, evs = pre ++ [EvRead 4 f nb 0 e []]))
      \/ (6 = - errno (snd r) /\ 6 < 0
          /\ None = Some (mkGError (g_io_error_from_errno (errno (snd r)))
                                   (Input_error_while_reading (errno (snd r)))))).
Proof.
  intros r evs.
  assert (H1 : tb_read_all 4 (repeat zero 8) 8 None read_chunks
               = (6, list_ascii_of_string "012345" ++ repeat zero 2, None, snd r))
    by (vm_compute; reflexivity).
  assert (Ht : trace (snd r) = trace read_chunks ++ evs)
    by (vm_compute; reflexivity).
  split; [exact H1|].
  exact (tb_read_all_assembles 4 (repeat zero 8) 8 read_chunks (snd r) 6 _ None
                               evs ltac:(cbn; lia) H1 Ht).
Defined.

Lemma copy_key_delivers_what_it_read_witness :
  let r := copy_key KEY keyfile 5 None copy_chunks in
  let evs := trace (snd r) in
  r = (TRUE, None, snd r)
  /\ List.length (data_read evs) = KEY
  /\ exists pre f e,
      evs = pre ++ [EvWrite 5 f (data_read evs) (Z.of_nat KEY) e].
Proof.
  intros r evs.
  assert (H1 : copy_key KEY keyfile 5 None copy_chunks = (TRUE, None, snd r))
    by (vm_compute; reflexivity).
  assert (Ht : trace (snd r) = trace copy_chunks ++ evs)
    by (vm_compute; reflexivity).
  split; [exact H1|].
  exact (copy_key_delivers_what_it_read KEY keyfile 5 None copy_chunks (snd r)
                                        None evs H1 Ht).
Defined.

Lemma zero_grant_write_sets_no_error_witness :
  let out := tb_device_authorize KEY (mgr TB_SECURITY_USER) dev1 None grant_zero in
  In (EvWrite 4 (Some (Attr sys0 "authorized")) ["1"%char] 0 0)
     (trace (outcome_world out))
  /\ out = Returned (FALSE, dev1, None) (outcome_world out)
  /\ FALSE = FALSE /\ @None GError = None.
Proof.
  intros out.
  assert (H1 : out = Returned (FALSE, dev1, None) (outcome_world out))
    by (vm_compute; reflexivity).
  assert (Ht : trace (outcome_world out)
               = trace grant_zero ++ trace (outcome_world out))
    by (vm_compute; reflexivity).
  assert (Hin : In (EvWrite 4 (Some (Attr sys0 "authorized")) ["1"%char] 0 0)
                   (trace (outcome_world out)))
    by (vm_compute; do 5 right; left; reflexivity).
  split; [exact Hin|]. split; [exact H1|].
  exact (zero_grant_write_sets_no_error
           KEY (mgr TB_SECURITY_USER) dev1 dev1 "AA11" grant_zero
           (outcome_world out) FALSE None (trace (outcome_world out))
           4 sys0 ["1"%char] 0 eq_refl H1 Ht Hin).
Defined.

Lemma authorize_device_stops_on_zero_grant_write_witness :
  let eng := tb_device_authorize KEY (mgr TB_SECURITY_USER) dev1 None grant_zero in
  In (EvWrite 4 (Some (Attr sys0 "authorized")) ["1"%char] 0 0)
     (trace (outcome_world eng))
  /\ authorize_device KEY parse_plain (mgr TB_SECURITY_USER) FALSE FALSE
                      ["authorize"; "AA11"] grant_zero
     = Aborted (outcome_world eng).
Proof.
  intros eng.
  assert (H1 : eng = Returned (FALSE, dev1, None) (outcome_world eng))
    by (vm_compute; reflexivity).
  assert (Ht : trace (outcome_world eng)
               = trace grant_zero ++ trace (outcome_world eng))
    by (vm_compute; reflexivity).
  assert (Hin : In (EvWrite 4 (Some (Attr sys0 "authorized")) ["1"%char] 0 0)
                   (trace (outcome_world eng)))
    by (vm_compute; do 5 right; left; reflexivity).
  split; [exact Hin|].
  exact (authorize_device_stops_on_zero_grant_write
           KEY parse_plain (mgr TB_SECURITY_USER) FALSE FALSE
           ["authorize"; "AA11"] ["authorize"; "AA11"] (false, false)
           dev1 dev1 grant_zero (outcome_world eng) FALSE None
           (trace (outcome_world eng)) 4 sys0 ["1"%char] 0
           eq_refl (le_n 2) eq_refl H1 Ht Hin).
Defined.

Lemma user_is_not_secure :
  tb_manager_get_security_level (mgr TB_SECURITY_USER) <> TB_SECURITY_SECURE.
Proof. vm_compute. discriminate. Defined.

Lemma non_secure_leaves_no_descriptor_witness :
  let out := tb_device_authorize KEY (mgr TB_SECURITY_USER) dev1 None user_ok in
  out = Returned (TRUE, dev1, None) (outcome_world out)
  /\ fds (outcome_world out) = fds user_ok.
Proof.
  intros out.
  assert (H1 : out = Returned (TRUE, dev1, None) (outcome_world out))
    by (vm_compute; reflexivity).
  split; [exact H1|].
  exact (non_secure_leaves_no_descriptor
           KEY (mgr TB_SECURITY_USER) dev1 dev1 "AA11" None user_ok
           (outcome_world out) TRUE None eq_refl user_is_not_secure H1).
Defined.

Lemma secure_success_leaves_key_file_open_witness :
  let out :=
    tb_device_authorize KEY (mgr TB_SECURITY_SECURE) dev1 None secure_first in
  out = Returned (TRUE, dev1, None) (outcome_world out)
  /\ exists from kf,
      fd_in_use from (fds secure_first) = false
      /\ fds (outcome_world out) = (from, Path kf) :: fds secure_first.
Proof.
  intros out.
  assert (H1 : out = Returned (TRUE, dev1, None) (outcome_world out))
    by (vm_compute; reflexivity).
  split; [exact H1|].
  exact (secure_success_leaves_key_file_open
           KEY (mgr TB_SECURITY_SECURE) dev1 dev1 "AA11" None secure_first
           (outcome_world out) None eq_refl eq_refl H1).
Defined.

Lemma directory_opened_first_closed_last_witness :
  let out := tb_device_authorize KEY (mgr TB_SECURITY_USER) dev1 None mismatch in
  let evs := trace (outcome_world out) in
  evs = [] ++ EvOpendir sys0 3 :: tl evs
  /\ [] = @nil Event /\ sysfs dev1 = Some sys0
  /\ exists body,
      tl evs = body ++ [EvClosedir 3]
      /\ Forall (fun ev => inner_event ev = true) body.
Proof.
  intros out evs.
  assert (H1 : out = Returned (FALSE, dev1, mismatch_error) (outcome_world out))
    by (vm_compute; reflexivity).
  assert (Ht : trace (outcome_world out) = trace mismatch ++ evs)
    by (vm_compute; reflexivity).
  assert (He : evs = [] ++ EvOpendir sys0 3 :: tl evs)
    by (vm_compute; reflexivity).
  split; [exact He|].
  exact (directory_opened_first_closed_last
           KEY (mgr TB_SECURITY_USER) dev1 dev1 "AA11" None mismatch
           (outcome_world out) FALSE mismatch_error evs [] (tl evs) sys0 3
           eq_refl H1 Ht He ltac:(lia)).
Defined.

Lemma non_secure_never_touches_key_witness :
  let out := tb_device_authorize KEY (mgr TB_SECURITY_USER) dev1 None user_ok in
  out = Returned (TRUE, dev1, None) (outcome_world out)
  /\ Forall (fun ev => touches_key ev = false) (trace (outcome_world out)).
Proof.
  intros out.
  assert (H1 : out = Returned (TRUE, dev1, None) (outcome_world out))
    by (vm_compute; reflexivity).
  assert (Ht : trace (outcome_world out)
               = trace user_ok ++ trace (outcome_world out))
    by (vm_compute; reflexivity).
  split; [exact H1|].
  exact (non_secure_never_touches_key
           KEY (mgr TB_SECURITY_USER) dev1 dev1 "AA11" None user_ok
           (outcome_world out) TRUE None (trace (outcome_world out))
           eq_refl user_is_not_secure H1 Ht).
Defined.

Lemma non_secure_grant_byte_witness :
  let out := tb_device_authorize KEY (mgr TB_SECURITY_USER) dev1 None user_ok in
  let evs := trace (outcome_world out) in
  out = Returned (TRUE, dev1, None) (outcome_world out)
  /\ (forall fd dir data r e,
         In (EvWrite fd (Some (Attr dir "authorized")) data r e) evs ->
         data = [char_of_int (tb_manager_get_security_level (mgr TB_SECURITY_USER))])
  /\ (1 <= tb_manager_get_security_level (mgr TB_SECURITY_USER) -> TRUE = TRUE ->
      exists fd dir e,
        sysfs dev1 = Some dir
        /\ In (EvWrite fd (Some (Attr dir "authorized"))
                       [char_of_int
                          (tb_manager_get_security_level (mgr TB_SECURITY_USER))]
                       1 e)
              evs).
Proof.
  intros out evs.
  assert (H1 : out = Returned (TRUE, dev1, None) (outcome_world out))
    by (vm_compute; reflexivity).
  assert (Ht : trace (outcome_world out) = trace user_ok ++ evs)
    by (vm_compute; reflexivity).
  split; [exact H1|].
  exact (non_secure_grant_byte
           KEY (mgr TB_SECURITY_USER) dev1 dev1 "AA11" None user_ok
           (outcome_world out) TRUE None evs
           eq_refl user_is_not_secure H1 Ht).
Defined.

Lemma verification_precedes_action_witness :
  let out := tb_device_authorize KEY (mgr TB_SECURITY_USER) dev1 None uid_newline in
  let evs := trace (outcome_world out) in
  let ev := EvWrite 4 (Some (Attr sys0 "authorized")) ["1"%char] 1 0 in
  evs = firstn 5 evs ++ ev :: skipn 6 evs
  /\ acts ev = true
  /\ exists fd dir r e,
      sysfs dev1 = Some dir /\ 0 <= r
      /\ In (EvRead fd (Some (Attr dir "unique_id")) (String.length "AA11") r e
                    (list_ascii_of_string "AA11")) (firstn 5 evs).
Proof.
  intros out evs ev.
  assert (H1 : out = Returned (TRUE, dev1, None) (outcome_world out))
    by (vm_compute; reflexivity).
  assert (Ht : trace (outcome_world out) = trace uid_newline ++ evs)
    by (vm_compute; reflexivity).
  assert (He : evs = firstn 5 evs ++ ev :: skipn 6 evs)
    by (vm_compute; reflexivity).
  split; [exact He|]. split; [reflexivity|].
  exact (verification_precedes_action
           KEY (mgr TB_SECURITY_USER) dev1 dev1 "AA11" None uid_newline
           (outcome_world out) TRUE None evs (firstn 5 evs) (skipn 6 evs) ev
           eq_refl H1 Ht He eq_refl).
Defined.

Lemma grant_written_once_witness :
  let out := tb_device_authorize KEY (mgr TB_SECURITY_USER) dev1 None grant_zero in
  let evs := trace (outcome_world out) in
  out = Returned (FALSE, dev1, None) (outcome_world out)
  /\ ((FALSE = FALSE /\ filter (writes_attr "authorized") evs = [])
      \/ (tb_manager_get_security_level (mgr TB_SECURITY_USER) < 1 /\ evs = [])
      \/ exists fd dir b j r e,
          filter (writes_attr "authorized") evs
          = repeat (interrupted_write fd (Some (Attr dir "authorized")) [b]) j
            ++ [EvWrite fd (Some (Attr dir "authorized")) [b] r e]
          /\ (r = -1 -> e <> EINTR) /\ -1 <= r <= 1
          /\ (FALSE = TRUE -> r = 1 /\ @None GError = None)).
Proof.
  intros out evs.
  assert (H1 : out = Returned (FALSE, dev1, None) (outcome_world out))
    by (vm_compute; reflexivity).
  assert (Ht : trace (outcome_world out) = trace grant_zero ++ evs)
    by (vm_compute; reflexivity).
  split; [exact H1|].
  exact (grant_written_once
           KEY (mgr TB_SECURITY_USER) dev1 dev1 "AA11" None grant_zero
           (outcome_world out) FALSE None evs eq_refl H1 Ht).
Defined.

Lemma commands_reject_bad_arguments_witness :
  bad_arguments (parse_fails true ["authorize"; "AA11"]) (mgr TB_SECURITY_USER)
  /\ exists t,
      authorize_device_with parse_fails (tb_device_authorize KEY)
                            (mgr TB_SECURITY_USER) FALSE FALSE
                            ["authorize"; "AA11"] user_ok
      = Returned (EXIT_FAILURE, None) (g_printerr t user_ok).
Proof.
  split; [exact I|].
  exact (proj1 (commands_reject_bad_arguments
                  parse_fails (tb_device_authorize KEY) (mgr TB_SECURITY_USER)
                  FALSE FALSE ["authorize"; "AA11"] user_ok) I).
Defined.

Lemma authorize_device_stores_iff_asked_witness :
  let eng :=
    tb_device_authorize KEY (mgr TB_SECURITY_USER) dev1 None user_then_store in
  let w1 := outcome_world eng in
  let kept := g_object_set_policy dev1 TB_POLICY_AUTO in
  let out :=
    authorize_device_with parse_auto (tb_device_authorize KEY)
                          (mgr TB_SECURITY_USER) FALSE FALSE
                          ["authorize"; "AA11"] user_then_store in
  eng = Returned (TRUE, dev1, None) w1
  /\ exists st evs,
      out = Returned (st, Some kept) (outcome_world out)
      /\ trace (outcome_world out) = trace w1 ++ evs
      /\ (FALSE || false || (FALSE || true) = false ->
          evs = [] /\ st = EXIT_SUCCESS /\ outcome_world out = w1)
      /\ (FALSE || false || (FALSE || true) = true ->
          script (outcome_world out) = tl (script w1)
          /\ exists b,
            filter is_store evs = [EvStore kept b]
            /\ hd_error evs = Some (EvStore kept b)
            /\ (st = EXIT_SUCCESS <-> b = true)).
Proof.
  intros eng w1 kept out.
  assert (H1 : eng = Returned (TRUE, dev1, None) w1)
    by (vm_compute; reflexivity).
  split; [exact H1|].
  exact (authorize_device_stores_iff_asked
           parse_auto (tb_device_authorize KEY) (mgr TB_SECURITY_USER)
           FALSE FALSE ["authorize"; "AA11"] ["authorize"; "AA11"] false true
           dev1 dev1 None user_then_store w1 eq_refl (le_n 2) eq_refl H1).
Defined.

Lemma auto_device_never_stores_witness :
  let eng :=
    tb_device_authorize KEY (mgr_auto TB_SECURITY_USER) dev_auto None user_ok in
  let out :=
    auto_device KEY parse_plain (mgr_auto TB_SECURITY_USER) ["auto"; "AA11"]
                user_ok in
  eng = Returned (TRUE, dev_auto, None) (outcome_world eng)
  /\ (TRUE = TRUE -> out = Returned (EXIT_SUCCESS, Some dev_auto) (outcome_world eng))
  /\ (TRUE = FALSE -> ends_in_failure out)
  /\ (forall d, device_left out = Some d -> d = dev_auto)
  /\ exists evs,
      trace (outcome_world out) = trace user_ok ++ evs
      /\ Forall (fun ev => is_store ev = false) evs.
Proof.
  intros eng out.
  assert (H1 : eng = Returned (TRUE, dev_auto, None) (outcome_world eng))
    by (vm_compute; reflexivity).
  split; [exact H1|].
  exact (auto_device_never_stores
           KEY parse_plain (mgr_auto TB_SECURITY_USER) ["auto"; "AA11"]
           ["auto"; "AA11"] (false, false) dev_auto dev_auto TRUE None user_ok
           (outcome_world eng) eq_refl (le_n 2) eq_refl eq_refl eq_refl H1).
Defined.

Lemma make_args_drops_program_name_witness :
  make_args 3 ["boltctl"; "authorize"; "AA11"]
  = Some [Some "authorize"; Some "AA11"].
Proof.
  exact (make_args_drops_program_name ["boltctl"; "authorize"; "AA11"]
                                      ltac:(cbn; lia)).
Defined.

End OnCases.

(** ** The verdict on a run *)

























Section Verdict.

Variable TB_KEY_CHARS : nat.





End Verdict.

(** ** [copy_key], once more *)


Section CopyKeyMore.

Variable TB_KEY_CHARS : nat.


(** X7: [copy_key] never closes a descriptor: no call of its log is a
    close.  When the open of the key file fails this open is all it has
    done, it returns [FALSE] and the descriptors are those it has found;
    otherwise the open of the key file is its first call and the
    descriptor this has given, one that was not in use, is still open when
    [copy_key] returns, on every way out. *)
Theorem copy_key_never_closes (key : GFile) (to : Z) (error : option GError)
  (w w' : World) (ok : gboolean) (err : option GError) (evs : list Event) :
  copy_key TB_KEY_CHARS key to error w = (ok, err, w') ->
  trace w' = trace w ++ evs ->
  Forall (fun ev => is_close ev = false) evs
  /\ ((evs = [EvOpen (Path key) O_RDONLY (-1)] /\ ok = FALSE
       /\ fds w' = fds w)
      \/ exists from rest,
          0 <= from
          /\ evs = EvOpen (Path key) O_RDONLY from :: rest
          /\ fd_in_use from (fds w) = false
          /\ fds w' = (from, Path key) :: fds w).
Proof.
  intros H Ht. apply copy_key_spec in H.
  destruct H as (from & reads & writes & Ht' & Hall & _ & Hres).
  rewrite Ht' in Ht. apply app_inv_head in Ht. subst evs.
  assert (Hr : Forall (fun ev => is_close ev = false) reads).
  { eapply Forall_impl; [|exact Hall]. intros [] Hx; try contradiction.
    reflexivity. }
  destruct Hres as [(-> & Hf & -> & -> & -> & _)
                   |(Hfrom & Hfresh & Hf & Hw)].
  - split; [each_event; reflexivity|]. left. auto.
  - split; [|right; eauto 10].
    each_event; [reflexivity|exact Hr|].
    destruct Hw as [(-> & _)|(_ & j & buf & r & e & _ & -> & _)];
      each_event; reflexivity.
Qed.

End CopyKeyMore.

(** ** The verdict and [copy_key] on the scenarios *)

Section OnVerdicts.

Import Scenario Cases.

Local Open Scope string_scope.
Local Open Scope list_scope.


(** The call that is blamed when the live uid is another one: the read of
    [unique_id], the third call of the run. *)
Example mismatch_blames_the_read :
  let out := tb_device_authorize KEY (mgr TB_SECURITY_USER) dev1 None mismatch in
  let ev := EvRead 4 (Some (Attr sys0 "unique_id")) 4 4 0
                   (list_ascii_of_string "BB22") in
  first_failed "AA11" (trace (outcome_world out)) = Some (2%nat, ev)
  /\ step_error "AA11" (nth 2 (script mismatch) exhausted) ev = mismatch_error.
Proof. split; vm_compute; reflexivity. Qed.

(** The call that is blamed when the key file is short: the read that
    finds the end of the file with 54 bytes still to come. *)
Example short_key_blames_the_end_of_file :
  let out := tb_device_authorize KEY (mgr TB_SECURITY_SECURE) dev1 None short_key in
  let ev := EvRead 6 (Some (Path keyfile)) 54 0 0 [] in
  out = Returned (FALSE, dev1, Some short_read_error) (outcome_world out)
  /\ first_failed "AA11" (trace (outcome_world out)) = Some (8%nat, ev)
  /\ step_error "AA11" (nth 8 (script short_key) exhausted) ev
     = Some short_read_error.
Proof. repeat split; vm_compute; reflexivity. Qed.


Lemma copy_key_never_closes_witness :
  let r := copy_key KEY keyfile 5 None copy_short_read in
  let evs := trace (snd r) in
  r = (FALSE, Some short_read_error, snd r)
  /\ fds (snd r) = (6, Path keyfile) :: fds copy_short_read
  /\ Forall (fun ev => is_close ev = false) evs
  /\ ((evs = [EvOpen (Path keyfile) O_RDONLY (-1)] /\ FALSE = FALSE
       /\ fds (snd r) = fds copy_short_read)
      \/ exists from rest,
          0 <= from
          /\ evs = EvOpen (Path keyfile) O_RDONLY from :: rest
          /\ fd_in_use from (fds copy_short_read) = false
          /\ fds (snd r) = (from, Path keyfile) :: fds copy_short_read).
Proof.
  intros r evs.
  assert (H1 : copy_key KEY keyfile 5 None copy_short_read
               = (FALSE, Some short_read_error, snd r))
    by (vm_compute; reflexivity).
  assert (Ht : trace (snd r) = trace copy_short_read ++ evs)
    by (vm_compute; reflexivity).
  split; [exact H1|]. split; [vm_compute; reflexivity|].
  exact (copy_key_never_closes KEY keyfile 5 None copy_short_read (snd r)
                               FALSE (Some short_read_error) evs H1 Ht).
Defined.

End OnVerdicts.
